(** * SerenSync: a shallow embedding of the Signal K forwarder plugin

    The plugin (src/index.js) subscribes to the Signal K value bus,
    classifies every value by its path, throttles it per path, and writes
    one JSON line per accepted value to the Unix domain socket of the
    path's category.  Sockets that close are reconnected by a timer.

    The development has three layers:
    - [Js]: the part of the JavaScript runtime the plugin relies on
      (numbers as IEEE 754 doubles, values, coercions, JSON.stringify,
      regular expressions);
    - the plugin itself, function by function, over an explicit state
      (the closure variables of [module.exports]) and environment (the
      socket objects, the pending timeouts, the log sink);
    - the properties of the pipeline and of the reconnect supervision. *)

From Stdlib Require Import ZArith Ascii Floats.PrimFloat Floats.FloatOps Floats.SpecFloat.
From stdpp Require Import gmap strings pretty.

Set Warnings "-inexact-float,-register-all".
Local Open Scope Z_scope.

(* ===================================================================== *)
(** * The JavaScript runtime *)
(* ===================================================================== *)

Module Js.

(** Strings are sequences of code units below 256; [Ascii.ascii] [n] stands
    for the code unit [n]. *)

Definition chr (n : N) : ascii := ascii_of_N n.
Definition code (c : ascii) : N := N_of_ascii c.

Fixpoint repeat_string (n : nat) (s : string) : string :=
  match n with
  | O => ""
  | S n' => s +:+ repeat_string n' s
  end.

Fixpoint take (n : nat) (s : string) : string :=
  match n, s with
  | S n', String c s' => String c (take n' s')
  | _, _ => ""
  end.

Fixpoint drop (n : nat) (s : string) : string :=
  match n, s with
  | S n', String _ s' => drop n' s'
  | _, _ => s
  end.

(** ** Numbers

    A Number is a binary64 float.  What the plugin does with numbers is
    compare them, multiply by 1000, take [Math.floor], print them
    (template literals, [JSON.stringify]) and read them from strings
    ([Number(...)]). *)

(** Exact non-negative rationals [n/d], [d > 0], for the conversions. *)
Definition rat : Type := Z * Z.
Definition rat_lt (a b : rat) : bool := a.1 * b.2 <? b.1 * a.2.
Definition rat_le (a b : rat) : bool := a.1 * b.2 <=? b.1 * a.2.
Definition rat_mul (a b : rat) : rat := (a.1 * b.1, a.2 * b.2).
Definition rat_dist (a b : rat) : rat := (Z.abs (a.1 * b.2 - b.1 * a.2), a.2 * b.2).
Definition rat_floor (a : rat) : Z := a.1 / a.2.
Definition rat_pow2 (e : Z) : rat := if 0 <=? e then (2 ^ e, 1) else (1, 2 ^ (- e)).
Definition rat_pow10 (e : Z) : rat := if 0 <=? e then (10 ^ e, 1) else (1, 10 ^ (- e)).

(** The Number nearest to [n/d] (ties to even), for [n >= 0] and [d > 0]:
    the rounding the language prescribes for numeric literals. *)
Definition round_rat (r : rat) : float :=
  let '(n, d) := r in
  if n <=? 0 then 0%float
  else
    let e1 := Z.log2 n - Z.log2 d - 52 in
    let e2 := if rat_lt (n, d) (rat_pow2 (e1 + 52)) then e1 - 1 else e1 in
    let e := Z.max e2 (-1074) in
    let '(sn, sd) := rat_mul (n, d) (rat_pow2 (- e)) in
    let q := sn / sd in
    let r := sn mod sd in
    let m := if (sd <? 2 * r) || ((sd =? 2 * r) && Z.odd q) then q + 1 else q in
    if m =? 0 then 0%float
    else if (971 <? e) then infinity
    else SF2Prim (S754_finite false (Z.to_pos m) e).

Definition of_Z (z : Z) : float :=
  if z <? 0 then PrimFloat.opp (round_rat (- z, 1)) else round_rat (z, 1).

(** [Math.floor]. *)
Definition Math_floor (x : float) : float :=
  match Prim2SF x with
  | S754_finite s m e =>
      if 0 <=? e then x
      else
        let q := Z.shiftr (if s then Z.neg m else Z.pos m) (- e) in
        if q =? 0 then 0%float else of_Z q
  | _ => x
  end.

(** [Number::toString] in radix 10: the shortest digit string [s] (of [k]
    digits) and exponent [n] with [s * 10^(n-k)] rounding to [x]; among
    several, the one nearest to [x]. *)
Section Shortest.
Variables (m : positive) (e : Z).

Definition exact : rat := rat_mul (Z.pos m, 1) (rat_pow2 e).

(** Half-way points to the neighbouring Numbers. *)
Definition upper : rat := rat_mul (2 * Z.pos m + 1, 1) (rat_pow2 (e - 1)).
Definition lower : rat :=
  if (Z.pos m =? 2 ^ 52) && (-1074 <? e)
  then rat_mul (4 * Z.pos m - 1, 1) (rat_pow2 (e - 2))
  else rat_mul (2 * Z.pos m - 1, 1) (rat_pow2 (e - 1)).

Definition rounds_here (v : rat) : bool :=
  if Z.even (Z.pos m)
  then rat_le lower v && rat_le v upper
  else rat_lt lower v && rat_lt v upper.

(** [n] with [10^(n-1) <= x < 10^n]. *)
Fixpoint magnitude_up (fuel : nat) (n : Z) : Z :=
  match fuel with
  | O => n
  | S f => if rat_le (rat_pow10 n) exact then magnitude_up f (n + 1) else n
  end.
Fixpoint magnitude_down (fuel : nat) (n : Z) : Z :=
  match fuel with
  | O => n
  | S f => if rat_lt exact (rat_pow10 (n - 1)) then magnitude_down f (n - 1) else n
  end.
Definition magnitude : Z :=
  let guess := (Z.log2 (Z.pos m) + e) * 30103 / 100000 in
  magnitude_down 8 (magnitude_up 8 guess).

Definition candidates (k n : Z) : list (Z * Z) :=
  let scale := rat_pow10 (n - k) in
  let s0 := rat_floor (exact.1 * scale.2, exact.2 * scale.1) in
  let ok s := (10 ^ (k - 1) <=? s) && (s <? 10 ^ k)
              && rounds_here (rat_mul (s, 1) scale) in
  (if ok s0 then [(s0, n)] else []) ++ (if ok (s0 + 1) then [(s0 + 1, n)] else []).

Definition nearer (a b : Z * Z) (k : Z) : Z * Z :=
  let va := rat_mul (a.1, 1) (rat_pow10 (a.2 - k)) in
  let vb := rat_mul (b.1, 1) (rat_pow10 (b.2 - k)) in
  let da := rat_dist va exact in
  let db := rat_dist vb exact in
  if rat_lt da db then a
  else if rat_lt db da then b
  else if Z.even a.1 then a else b.

Fixpoint shortest_from (fuel : nat) (k : Z) : Z * Z * Z :=
  match fuel with
  | O => (Z.pos m, k, 0)
  | S f =>
      match candidates k magnitude ++ candidates k (magnitude + 1) with
      | [] => shortest_from f (k + 1)
      | c :: cs => let best := foldr (fun a b => nearer a b k) c cs in (best.1, k, best.2)
      end
  end.

(** [(s, k, n)] of the language specification. *)
Definition shortest : Z * Z * Z := shortest_from 17 1.
End Shortest.

Definition digits_string (s k n : Z) : string :=
  let ds := pretty s in
  if (k <=? n) && (n <=? 21) then ds +:+ repeat_string (Z.to_nat (n - k)) "0"
  else if (0 <? n) && (n <=? 21) then
    take (Z.to_nat n) ds +:+ "." +:+ drop (Z.to_nat n) ds
  else if (-6 <? n) && (n <=? 0) then
    "0." +:+ repeat_string (Z.to_nat (- n)) "0" +:+ ds
  else
    let ex := (if 0 <=? n - 1 then "+" else "-") +:+ pretty (Z.abs (n - 1)) in
    if k =? 1 then ds +:+ "e" +:+ ex
    else take 1 ds +:+ "." +:+ drop 1 ds +:+ "e" +:+ ex.

Definition Number_toString (x : float) : string :=
  match Prim2SF x with
  | S754_nan => "NaN"
  | S754_zero _ => "0"
  | S754_infinity s => if s then "-Infinity" else "Infinity"
  | S754_finite sg m e =>
      let '(s, k, n) := shortest m e in
      (if sg then "-" else "") +:+ digits_string s k n
  end.

(** [StringToNumber]: optional white space around a decimal literal
    (sign, digits, fraction, exponent), [Infinity], or an unsigned
    hexadecimal, octal or binary integer literal; the empty string is [+0]
    and anything else is [NaN]. *)
Definition is_white_space (c : ascii) : bool :=
  let n := code c in
  ((9 <=? n) && (n <=? 13) || (n =? 32) || (n =? 160))%N.

Fixpoint trim_start (s : string) : string :=
  match s with
  | String c s' => if is_white_space c then trim_start s' else s
  | EmptyString => s
  end.

Fixpoint trim_end (s : string) : string :=
  match s with
  | String c s' =>
      match trim_end s' with
      | EmptyString => if is_white_space c then "" else String c ""
      | t => String c t
      end
  | EmptyString => ""
  end.

Definition digit_value (base : Z) (c : ascii) : option Z :=
  let n := Z.of_N (code c) in
  let v := if (48 <=? n) && (n <=? 57) then n - 48
           else if (97 <=? n) && (n <=? 102) then n - 87
           else if (65 <=? n) && (n <=? 70) then n - 55
           else base in
  if v <? base then Some v else None.

(** The longest prefix of digits: its value on top of [acc], the number of
    digits, and the rest of the string. *)
Fixpoint read_digits (base : Z) (s : string) (acc count : Z) : Z * Z * string :=
  match s with
  | String c s' =>
      match digit_value base c with
      | Some v => read_digits base s' (acc * base + v) (count + 1)
      | None => (acc, count, s)
      end
  | EmptyString => (acc, count, s)
  end.

Definition read_sign (s : string) : bool * string :=
  match s with
  | String "-" s' => (true, s')
  | String "+" s' => (false, s')
  | _ => (false, s)
  end.

Definition radix_literal (base : Z) (s : string) : float :=
  match read_digits base s 0 0 with
  | (v, count, EmptyString) => if 0 <? count then of_Z v else nan
  | _ => nan
  end.

(** [mant * 10^ex], rounded; the bounds keep the powers of ten small when
    the result is out of range anyway ([digits] bounds the length of
    [mant]). *)
Definition scale10 (mant digits ex : Z) : float :=
  if mant =? 0 then 0%float
  else if 400 <? ex then infinity
  else if ex + digits <? -400 then 0%float
  else round_rat (rat_mul (mant, 1) (rat_pow10 ex)).

Definition decimal_literal (s : string) : float :=
  let '(neg, s1) := read_sign s in
  let signed (x : float) := if neg then PrimFloat.opp x else x in
  if String.eqb s1 "Infinity" then signed infinity
  else
    let '(ip, ni, s2) := read_digits 10 s1 0 0 in
    let '(mant, nf, s3) :=
      match s2 with
      | String "." r => read_digits 10 r ip 0
      | _ => (ip, 0, s2)
      end in
    if ni + nf =? 0 then nan
    else
      match s3 with
      | EmptyString => signed (scale10 mant (ni + nf) (- nf))
      | String c r =>
          if Ascii.eqb c "e" || Ascii.eqb c "E" then
            let '(eneg, r1) := read_sign r in
            match read_digits 10 r1 0 0 with
            | (ex, ne, EmptyString) =>
                if ne =? 0 then nan
                else signed (scale10 mant (ni + nf) ((if eneg then - ex else ex) - nf))
            | _ => nan
            end
          else nan
      end.

Definition StringToNumber (s : string) : float :=
  let t := trim_end (trim_start s) in
  match t with
  | EmptyString => 0%float
  | String "0" (String c r) =>
      if Ascii.eqb c "x" || Ascii.eqb c "X" then radix_literal 16 r
      else if Ascii.eqb c "o" || Ascii.eqb c "O" then radix_literal 8 r
      else if Ascii.eqb c "b" || Ascii.eqb c "B" then radix_literal 2 r
      else decimal_literal t
  | _ => decimal_literal t
  end.

(** ** Values

    The values that travel on the bus are JSON-like data: primitives,
    arrays, and plain objects, whose own properties are kept in enumeration
    order.  [JUndefined] is what reading a missing property yields.  An
    object is taken to have no own property named [toString] or [valueOf]
    (they would be data, not functions, and its conversion to a string or
    a number would throw). *)
Inductive JsValue : Type :=
  | JUndefined
  | JNull
  | JBool (b : bool)
  | JNum (x : float)
  | JStr (s : string)
  | JArr (elems : list JsValue)
  | JObj (props : list (string * JsValue)).

Definition join (sep : string) (l : list string) : string :=
  match l with
  | [] => ""
  | x :: xs => foldl (fun acc y => acc +:+ sep +:+ y) x xs
  end.

Definition typeof (v : JsValue) : string :=
  match v with
  | JUndefined => "undefined"
  | JBool _ => "boolean"
  | JNum _ => "number"
  | JStr _ => "string"
  | JNull | JArr _ | JObj _ => "object"
  end.

Definition ToBoolean (v : JsValue) : bool :=
  match v with
  | JUndefined | JNull => false
  | JBool b => b
  | JNum x => negb (PrimFloat.eqb x 0 || PrimFloat.is_nan x)
  | JStr s => negb (String.eqb s "")
  | JArr _ | JObj _ => true
  end.

(** [ToString]; an array joins its elements with commas, a plain object
    prints as [[object Object]]. *)
Fixpoint ToString (v : JsValue) : string :=
  match v with
  | JUndefined => "undefined"
  | JNull => "null"
  | JBool b => if b then "true" else "false"
  | JNum x => Number_toString x
  | JStr s => s
  | JArr elems =>
      join "," (map (fun e => match e with
                              | JUndefined | JNull => ""
                              | _ => ToString e
                              end) elems)
  | JObj _ => "[object Object]"
  end.

(** [ToNumber]; arrays and objects go through their string form. *)
Definition ToNumber (v : JsValue) : float :=
  match v with
  | JUndefined => nan
  | JNull => 0%float
  | JBool b => if b then 1%float else 0%float
  | JNum x => x
  | JStr s => StringToNumber s
  | JArr _ | JObj _ => StringToNumber (ToString v)
  end.

(** Reading a property of an object: the own property if there is one,
    [undefined] otherwise.  (The plugin only reads [path], [value],
    [timestamp], [$source], [latitude] and [longitude], none of which is
    inherited or an array index, so arrays and primitives have none of
    them.) *)
Fixpoint lookup_prop (k : string) (props : list (string * JsValue)) : JsValue :=
  match props with
  | [] => JUndefined
  | (k', v) :: rest => if String.eqb k k' then v else lookup_prop k rest
  end.

Definition get (v : JsValue) (k : string) : JsValue :=
  match v with
  | JObj props => lookup_prop k props
  | _ => JUndefined
  end.

(** ** JSON.stringify *)

Definition dquote : string := String (chr 34) "".
Definition newline : string := String (chr 10) "".

Definition hex_digit (n : N) : ascii :=
  chr (if (n <? 10)%N then 48 + n else 87 + n)%N.

Definition quote_char (c : ascii) : string :=
  let n := code c in
  if (n =? 34)%N then "\" +:+ dquote
  else if (n =? 92)%N then "\\"
  else if (n =? 8)%N then "\b"
  else if (n =? 9)%N then "\t"
  else if (n =? 10)%N then "\n"
  else if (n =? 12)%N then "\f"
  else if (n =? 13)%N then "\r"
  else if (n <? 32)%N then
    "\u00" +:+ String (hex_digit (n / 16)) (String (hex_digit (n mod 16)) "")
  else String c "".

Fixpoint quote_chars (s : string) : string :=
  match s with
  | EmptyString => ""
  | String c s' => quote_char c +:+ quote_chars s'
  end.

Definition QuoteJSONString (s : string) : string :=
  dquote +:+ quote_chars s +:+ dquote.

(** [SerializeJSONProperty]: [None] stands for [undefined] (the property
    is left out of an object and printed as [null] in an array). *)
Fixpoint SerializeJSONProperty (v : JsValue) : option string :=
  match v with
  | JUndefined => None
  | JNull => Some "null"
  | JBool b => Some (if b then "true" else "false")
  | JNum x =>
      Some (if PrimFloat.is_nan x || PrimFloat.is_infinity x then "null"
            else Number_toString x)
  | JStr s => Some (QuoteJSONString s)
  | JArr elems =>
      Some ("[" +:+ join "," (map (fun e => default "null" (SerializeJSONProperty e)) elems)
            +:+ "]")
  | JObj props =>
      Some ("{" +:+
            join "," (omap (fun kv => match SerializeJSONProperty kv.2 with
                                      | Some s => Some (QuoteJSONString kv.1 +:+ ":" +:+ s)
                                      | None => None
                                      end) props)
            +:+ "}")
  end.

Definition JSON_stringify (v : JsValue) : JsValue :=
  match SerializeJSONProperty v with
  | Some s => JStr s
  | None => JUndefined
  end.

(** ** Regular expressions

    The syntax the plugin's patterns use, and [RegExp.prototype.test] for a
    pattern without flags: a backtracking search for a match starting at
    any index.  The matcher of a pattern takes the position (whether it is
    the start of the input, and what is left of it) and a continuation. *)
Inductive Regex : Type :=
  | Char (c : ascii)            (* a character, also an escaped one *)
  | Dot                         (* any character but a line terminator *)
  | Class (ranges : list (ascii * ascii))   (* [a-bc-d] *)
  | Seq (rs : list Regex)
  | Alt (r1 r2 : Regex)
  | Star (r : Regex)
  | Group (r : Regex)
  | Bos                         (* ^ *)
  | Eos.                        (* $ *)

Definition is_line_terminator (c : ascii) : bool :=
  ((code c =? 10) || (code c =? 13))%N.

Definition in_range (c : ascii) (r : ascii * ascii) : bool :=
  ((code r.1 <=? code c) && (code c <=? code r.2))%N.

Definition one_char (p : ascii -> bool) (s : string) (k : bool -> string -> bool) : bool :=
  match s with
  | String c s' => p c && k false s'
  | EmptyString => false
  end.

Fixpoint run (r : Regex) (at_start : bool) (s : string) (k : bool -> string -> bool)
  {struct r} : bool :=
  match r with
  | Char c => one_char (Ascii.eqb c) s k
  | Dot => one_char (fun d => negb (is_line_terminator d)) s k
  | Class ranges => one_char (fun d => existsb (in_range d) ranges) s k
  | Seq rs =>
      (fix seq (rs : list Regex) (at_start : bool) (s : string) {struct rs} : bool :=
         match rs with
         | [] => k at_start s
         | r1 :: rest => run r1 at_start s (seq rest)
         end) rs at_start s
  | Alt r1 r2 => run r1 at_start s k || run r2 at_start s k
  | Star r1 =>
      (* an iteration that consumes nothing is not repeated *)
      (fix iter (fuel : nat) (at_start : bool) (s : string) {struct fuel} : bool :=
         match fuel with
         | O => k at_start s
         | S fuel' =>
             run r1 at_start s
               (fun at_start' s' =>
                  if (String.length s' <? String.length s)%nat
                  then iter fuel' at_start' s' else false)
             || k at_start s
         end) (String.length s) at_start s
  | Group r1 => run r1 at_start s k
  | Bos => at_start && k at_start s
  | Eos => match s with EmptyString => k at_start s | _ => false end
  end.

Fixpoint search (r : Regex) (at_start : bool) (s : string) : bool :=
  run r at_start s (fun _ _ => true)
  || match s with
     | String _ s' => search r false s'
     | EmptyString => false
     end.

(** [pattern.test(v)]: the argument is converted to a string. *)
Definition test (pattern : Regex) (v : JsValue) : bool :=
  search pattern true (ToString v).

(** Shorthands to write the patterns as the source does. *)
Fixpoint chars (s : string) : list Regex :=
  match s with
  | EmptyString => []
  | String c s' => Char c :: chars s'
  end.
Definition Lit (s : string) : Regex := Seq (chars s).
Definition Plus (r : Regex) : Regex := Seq [r; Star r].
Definition AnyOf (s : string) : Regex :=
  Class ((fix go (s : string) : list (ascii * ascii) :=
            match s with
            | EmptyString => []
            | String c s' => (c, c) :: go s'
            end) s).
Definition Digit : Regex := Class [("0"%char, "9"%char)].

End Js.

Import Js.

(* ===================================================================== *)
(** * The plugin state and its environment *)
(* ===================================================================== *)

Inductive Level : Type := debug | error.

(** A [net.Socket] made by [connectToSocket]: the category its event
    handlers were registered for, the flags the plugin reads, whether its
    [close] event has been emitted, and the chunks handed to [write]. *)
Record Socket : Type := {
  sock_category : string;
  sock_path : string;
  destroyed : bool;
  writable : bool;
  closed : bool;
  written : list string
}.

(** The plugin configuration (the three properties of [plugin.schema]), in
    whole milliseconds; [None] is a property that is not set. *)
Record Options : Type := {
  positionSampleRate : option Z;
  sensorSampleRate : option Z;
  stateSampleRate : option Z
}.

Definition no_options : Options :=
  {| positionSampleRate := None; sensorSampleRate := None; stateSampleRate := None |}.

(** The closure variables of [module.exports] (first six fields; [None] in
    the two maps is [null]) and the environment they refer to: the socket
    objects and the timeouts ever created (index = identity; a pending
    timeout holds the category its callback reconnects), the number of
    times [processValueObj] is registered on the value bus, the log sink,
    and the readings [Date.now()] is going to return. *)
Record State : Type := {
  options : option Options;
  deltaStreamUnsubscribe : bool;
  socketClients : gmap string (option nat);
  reconnectTimers : gmap string (option nat);
  isShuttingDown : bool;
  lastTransmissionTimes : gmap string Z;
  sockets : list Socket;
  timeouts : list (option string);
  listeners : nat;
  log : list (Level * string);
  clock : nat -> Z
}.

Definition set_options (v : option Options) (st : State) : State :=
  {| options := v; deltaStreamUnsubscribe := deltaStreamUnsubscribe st;
     socketClients := socketClients st; reconnectTimers := reconnectTimers st;
     isShuttingDown := isShuttingDown st;
     lastTransmissionTimes := lastTransmissionTimes st; sockets := sockets st;
     timeouts := timeouts st; listeners := listeners st; log := log st;
     clock := clock st |}.

Definition set_deltaStreamUnsubscribe (v : bool) (st : State) : State :=
  {| options := options st; deltaStreamUnsubscribe := v;
     socketClients := socketClients st; reconnectTimers := reconnectTimers st;
     isShuttingDown := isShuttingDown st;
     lastTransmissionTimes := lastTransmissionTimes st; sockets := sockets st;
     timeouts := timeouts st; listeners := listeners st; log := log st;
     clock := clock st |}.

Definition set_socketClients (v : gmap string (option nat)) (st : State) : State :=
  {| options := options st; deltaStreamUnsubscribe := deltaStreamUnsubscribe st;
     socketClients := v; reconnectTimers := reconnectTimers st;
     isShuttingDown := isShuttingDown st;
     lastTransmissionTimes := lastTransmissionTimes st; sockets := sockets st;
     timeouts := timeouts st; listeners := listeners st; log := log st;
     clock := clock st |}.

Definition set_reconnectTimers (v : gmap string (option nat)) (st : State) : State :=
  {| options := options st; deltaStreamUnsubscribe := deltaStreamUnsubscribe st;
     socketClients := socketClients st; reconnectTimers := v;
     isShuttingDown := isShuttingDown st;
     lastTransmissionTimes := lastTransmissionTimes st; sockets := sockets st;
     timeouts := timeouts st; listeners := listeners st; log := log st;
     clock := clock st |}.

Definition set_isShuttingDown (v : bool) (st : State) : State :=
  {| options := options st; deltaStreamUnsubscribe := deltaStreamUnsubscribe st;
     socketClients := socketClients st; reconnectTimers := reconnectTimers st;
     isShuttingDown := v;
     lastTransmissionTimes := lastTransmissionTimes st; sockets := sockets st;
     timeouts := timeouts st; listeners := listeners st; log := log st;
     clock := clock st |}.

Definition set_lastTransmissionTimes (v : gmap string Z) (st : State) : State :=
  {| options := options st; deltaStreamUnsubscribe := deltaStreamUnsubscribe st;
     socketClients := socketClients st; reconnectTimers := reconnectTimers st;
     isShuttingDown := isShuttingDown st;
     lastTransmissionTimes := v; sockets := sockets st;
     timeouts := timeouts st; listeners := listeners st; log := log st;
     clock := clock st |}.

Definition set_sockets (v : list Socket) (st : State) : State :=
  {| options := options st; deltaStreamUnsubscribe := deltaStreamUnsubscribe st;
     socketClients := socketClients st; reconnectTimers := reconnectTimers st;
     isShuttingDown := isShuttingDown st;
     lastTransmissionTimes := lastTransmissionTimes st; sockets := v;
     timeouts := timeouts st; listeners := listeners st; log := log st;
     clock := clock st |}.

Definition set_timeouts (v : list (option string)) (st : State) : State :=
  {| options := options st; deltaStreamUnsubscribe := deltaStreamUnsubscribe st;
     socketClients := socketClients st; reconnectTimers := reconnectTimers st;
     isShuttingDown := isShuttingDown st;
     lastTransmissionTimes := lastTransmissionTimes st; sockets := sockets st;
     timeouts := v; listeners := listeners st; log := log st;
     clock := clock st |}.

Definition set_listeners (v : nat) (st : State) : State :=
  {| options := options st; deltaStreamUnsubscribe := deltaStreamUnsubscribe st;
     socketClients := socketClients st; reconnectTimers := reconnectTimers st;
     isShuttingDown := isShuttingDown st;
     lastTransmissionTimes := lastTransmissionTimes st; sockets := sockets st;
     timeouts := timeouts st; listeners := v; log := log st;
     clock := clock st |}.

Definition set_log (v : list (Level * string)) (st : State) : State :=
  {| options := options st; deltaStreamUnsubscribe := deltaStreamUnsubscribe st;
     socketClients := socketClients st; reconnectTimers := reconnectTimers st;
     isShuttingDown := isShuttingDown st;
     lastTransmissionTimes := lastTransmissionTimes st; sockets := sockets st;
     timeouts := timeouts st; listeners := listeners st; log := v;
     clock := clock st |}.

Definition set_clock (v : nat -> Z) (st : State) : State :=
  {| options := options st; deltaStreamUnsubscribe := deltaStreamUnsubscribe st;
     socketClients := socketClients st; reconnectTimers := reconnectTimers st;
     isShuttingDown := isShuttingDown st;
     lastTransmissionTimes := lastTransmissionTimes st; sockets := sockets st;
     timeouts := timeouts st; listeners := listeners st; log := log st;
     clock := v |}.

(** The state when [module.exports] returns the plugin. *)
Definition initial (readings : nat -> Z) : State :=
  {| options := None; deltaStreamUnsubscribe := false;
     socketClients := ∅; reconnectTimers := ∅; isShuttingDown := false;
     lastTransmissionTimes := ∅; sockets := []; timeouts := [];
     listeners := 0%nat; log := []; clock := readings |}.

(** ** Statements: state passing with exceptions *)

Inductive JsError : Type := TypeError (message : string).

Definition error_message (e : JsError) : string :=
  match e with TypeError m => m end.

Inductive Completion (A : Type) : Type :=
  | Normal (a : A)
  | Throw (e : JsError).
Arguments Normal {A} a.
Arguments Throw {A} e.

Definition M (A : Type) : Type := State -> Completion A * State.

#[global] Instance M_ret : MRet M := fun A a st => (Normal a, st).
#[global] Instance M_bind : MBind M := fun A B f m st =>
  match m st with
  | (Normal a, st') => f a st'
  | (Throw e, st') => (Throw e, st')
  end.

Definition gets {A : Type} (f : State -> A) : M A := fun st => (Normal (f st), st).
Definition modify (f : State -> State) : M unit := fun st => (Normal tt, f st).
Definition throw {A : Type} (e : JsError) : M A := fun st => (Throw e, st).
Definition try_catch {A : Type} (body : M A) (handler : JsError -> M A) : M A :=
  fun st =>
    match body st with
    | (Throw e, st') => handler e st'
    | done => done
    end.

Fixpoint forEach {A : Type} (l : list A) (f : A -> M unit) : M unit :=
  match l with
  | [] => mret tt
  | x :: xs => f x;; forEach xs f
  end.

(** ** The host and the runtime, as the plugin uses them *)

(** [app.debug] and [app.error]; several arguments are joined by a space. *)
Definition app_debug (msg : string) : M unit :=
  modify (fun st => set_log (log st ++ [(debug, msg)]) st).
Definition app_error (msg : string) : M unit :=
  modify (fun st => set_log (log st ++ [(error, msg)]) st).

(** [Date.now()]: the next reading of the clock. *)
Definition Date_now : M Z :=
  fun st => (Normal (clock st 0%nat), set_clock (fun n => clock st (S n)) st).

(** [net.createConnection({ path })] followed by the three [on(...)]
    registrations of [connectToSocket]: the new socket remembers the
    category of its handlers.  Without a path the call throws. *)
Definition net_createConnection (category : string) (socketPath : JsValue) : M nat :=
  match socketPath with
  | JStr path =>
      fun st =>
        (Normal (length (sockets st)),
         set_sockets (sockets st ++ [{| sock_category := category; sock_path := path;
                                        destroyed := false; writable := true;
                                        closed := false; written := [] |}]) st)
  | _ => throw (TypeError "The options or port or path argument must be specified")
  end.

Definition update_socket (id : nat) (f : Socket -> Socket) (st : State) : State :=
  match sockets st !! id with
  | Some sock => set_sockets (<[id := f sock]> (sockets st)) st
  | None => st
  end.

(** [socket.write(data, 'utf8', callback)] on a socket that accepts it. *)
Definition received (data : string) (sock : Socket) : Socket :=
  {| sock_category := sock_category sock; sock_path := sock_path sock;
     destroyed := destroyed sock; writable := writable sock;
     closed := closed sock; written := written sock ++ [data] |}.

Definition socket_write (id : nat) (data : string) : M unit :=
  modify (update_socket id (received data)).

(** What [socket.destroy()], an error or the end of the connection do to
    the flags. *)
Definition torn_down (emitted_close : bool) (sock : Socket) : Socket :=
  {| sock_category := sock_category sock; sock_path := sock_path sock;
     destroyed := true; writable := false;
     closed := closed sock || emitted_close; written := written sock |}.

Definition half_closed (sock : Socket) : Socket :=
  {| sock_category := sock_category sock; sock_path := sock_path sock;
     destroyed := destroyed sock; writable := false;
     closed := closed sock; written := written sock |}.

Definition socket_destroy (id : nat) : M unit :=
  modify (update_socket id (torn_down false)).

(** [setTimeout(callback, delay)], where the callback reconnects
    [category], and [clearTimeout]. *)
Definition setTimeout (category : string) (delay : Z) : M nat :=
  fun st => (Normal (length (timeouts st)),
             set_timeouts (timeouts st ++ [Some category]) st).

Definition clearTimeout (id : nat) : M unit :=
  modify (fun st => set_timeouts (<[id := None]> (timeouts st)) st).

(** [Object.keys] of one of the two maps.  (The maps are finite maps, so
    the keys come in the map's order, not in insertion order; the loops
    over them do not depend on the order but for the order of their log
    lines.) *)
Definition Object_keys {V : Type} (m : gmap string V) : list string :=
  (map_to_list m).*1.

(** A map entry that holds an object (not [null], not missing). *)
Definition entry {V : Type} (m : gmap string (option V)) (k : string) : option V :=
  match m !! k with
  | Some (Some v) => Some v
  | _ => None
  end.

(* ===================================================================== *)
(** * The plugin (src/index.js) *)
(* ===================================================================== *)

Definition SOCKET_CONFIG : list (string * string) :=
  [ ("sensor", "/tmp/signalk_sensors.sock");
    ("position", "/tmp/signalk_position.sock");
    ("state", "/tmp/signalk_state.sock") ].

Definition RECONNECT_INTERVAL : Z := 5000.

(** Every pattern has the shape [^ ... $]. *)
Definition anchored (rs : list Regex) : Regex := Seq (Bos :: rs ++ [Eos]).
Definition any : Regex := Group (Star Dot).
Definition digits : Regex := Group (Plus Digit).

Definition dump_patterns : list Regex :=
  [ anchored [any; Group (Lit "totalPanel"); any];
    anchored [any; Group (Lit "ModeNumber"); any];
    anchored [any; Group (Lit "consumedCharge"); any];
    anchored [Group (Seq [Lit "electrical.batteries"; Dot; Lit "279"]); any] ].

Definition state_patterns : list Regex :=
  [ anchored [any; Group (Seq [Group (Alt (Lit "m") (Lit "M")); Lit "ode"])];
    anchored [any; Lit "."; Group (Lit "name")];
    anchored [any; Lit "."; Group (Lit "state")];
    anchored [Group (Lit "electrical.batteries."); digits;
              Group (Lit ".capacity.dischargedEnergy")];
    anchored [Group (Lit "electrical.batteries."); digits;
              Group (Lit ".capacity.stateOfCharge")];
    anchored [Group (Lit "electrical.batteries."); digits;
              Group (Lit ".lifetimeDischarge")];
    anchored [Group (Lit "electrical.solar."); digits; Group (Lit ".systemYield")];
    anchored [Group (Lit "electrical.solar."); digits; Group (Lit ".yieldToday")];
    anchored [Group (Lit "electrical.solar."); digits; Group (Lit ".yieldYesterday")];
    anchored [Group (Lit "navigation.courseRhumbline.nextPoint.position")];
    anchored [Group (Lit "navigation.currentRoute."); any];
    anchored [Group (Lit "navigation.gns"); any];
    anchored [Group (Lit "navigation.magneticVariation")];
    anchored [Group (Lit "navigation.trip.log")];
    anchored [Group (Lit "notifications"); any];
    anchored [Group (Lit "sensors.ais"); any];
    anchored [Group (Lit "steering"); any] ].

Definition position_patterns : list Regex :=
  [ anchored [Group (Lit "navigation.position")] ].

Definition sensor_patterns : list Regex :=
  [ anchored [any; Group (Seq [AnyOf "cC"; Lit "urrent"])];
    anchored [any; Group (Seq [AnyOf "pP"; Lit "ower"])];
    anchored [any; Group (Seq [AnyOf "vV"; Lit "oltage"])];
    anchored [any; Group (Seq [AnyOf "tT"; Lit "emperature"])];
    anchored [Group (Lit "environment"); any];
    anchored [Group (Lit "navigation"); any] ].

(** The entries of [CATEGORY_PATTERNS], in the order [Object.entries]
    enumerates them. *)
Definition CATEGORY_PATTERNS : list (string * list Regex) :=
  [ ("dump", dump_patterns);
    ("state", state_patterns);
    ("position", position_patterns);
    ("sensor", sensor_patterns) ].

(** The inner loops of [categorizeData]: does some pattern of the list
    match? *)
Fixpoint some_pattern_matches (patterns : list Regex) (path : JsValue) : bool :=
  match patterns with
  | [] => false
  | pattern :: rest =>
      if test pattern path then true else some_pattern_matches rest path
  end.

(** The second loop: the first entry, [dump] skipped, with a matching
    pattern. *)
Fixpoint first_matching_category (entries : list (string * list Regex))
    (path : JsValue) : option string :=
  match entries with
  | [] => None
  | (category, patterns) :: rest =>
      if String.eqb category "dump" then first_matching_category rest path
      else if some_pattern_matches patterns path then Some category
      else first_matching_category rest path
  end.

Definition categorizeData (path : JsValue) : string :=
  if some_pattern_matches dump_patterns path then "dump"
  else
    match first_matching_category CATEGORY_PATTERNS path with
    | Some category => category
    | None => "dump"
    end.

(** [value || fallback] for a configured rate: zero is falsy. *)
Definition or_default (rate : option Z) (fallback : Z) : Z :=
  match rate with
  | Some r => if r =? 0 then fallback else r
  | None => fallback
  end.

(** Reading a property of [plugin.options], which is [undefined] until
    [plugin.start] has run. *)
Definition plugin_options (property : string) : M Options :=
  o ← gets options;
  match o with
  | Some opts => mret opts
  | None => throw (TypeError ("Cannot read properties of undefined (reading '"
                              +:+ property +:+ "')"))
  end.

(** [lastTransmissionTimes[path] || 0]: the key is the path as a string; a
    path without a record, or with the record 0, gives 0.  This is the
    lookup of an own property: for the few names a plain object inherits
    a property under ([constructor], [toString], ...) the code would find
    that property instead, so what is stated of [shouldTransmit] in
    isolation is stated for the other paths; [processValueObj] classifies
    those names as dump and never looks them up. *)
Definition lastTransmission (st : State) (path : JsValue) : Z :=
  default 0 (lastTransmissionTimes st !! ToString path).

Definition shouldTransmit (path : JsValue) (category : string) (timestamp : JsValue)
  : M bool :=
  now ← Date_now;
  lastTransmissionTime ← gets (fun st => lastTransmission st path);
  sampleRate ←
    (if String.eqb category "position" then
       opts ← plugin_options "positionSampleRate";
       mret (or_default (positionSampleRate opts) 1000)
     else if String.eqb category "sensor" then
       opts ← plugin_options "sensorSampleRate";
       mret (or_default (sensorSampleRate opts) 2000)
     else if String.eqb category "state" then
       opts ← plugin_options "stateSampleRate";
       mret (or_default (stateSampleRate opts) 500)
     else mret 1000);
  mret (sampleRate <=? now - lastTransmissionTime).

(** [text.replace(/\|/g, '\\|')]. *)
Fixpoint escape_pipes (text : string) : string :=
  match text with
  | EmptyString => ""
  | String c rest =>
      if Ascii.eqb c "|" then String "\" (String "|" (escape_pipes rest))
      else String c (escape_pipes rest)
  end.

(** [data.property] in a place where [data] may be [undefined] or [null]. *)
Definition read_property (data : JsValue) (property : string) : M JsValue :=
  match data with
  | JUndefined | JNull =>
      throw (TypeError ("Cannot read properties of " +:+ ToString data
                        +:+ " (reading '" +:+ property +:+ "')"))
  | _ => mret (get data property)
  end.

Section Plugin.

(** [Date.parse], which the language leaves to the implementation for all
    but one format; [NaN] is the result for a string it does not
    recognise. *)
Variable Date_parse : string -> float.

(** [new Date(text).getTime()]: the parsed time value, clipped to the
    range of dates and truncated to an integer. *)
Definition Date_getTime (text : string) : float :=
  let t := Date_parse text in
  if PrimFloat.is_nan t || PrimFloat.is_infinity t then nan
  else if PrimFloat.ltb 8.64e15 (PrimFloat.abs t) then nan
  else if PrimFloat.ltb t 0
       then PrimFloat.add (PrimFloat.opp (Math_floor (PrimFloat.opp t))) 0
       else PrimFloat.add (Math_floor t) 0.

(** The conversion of a timestamp to milliseconds, which
    [processValueObj] and [serializeData] both spell out. *)
Definition timestamp_to_ms (timestamp : JsValue) : M float :=
  match timestamp with
  | JStr text => mret (Math_floor (Date_getTime text))
  | JNum t =>
      mret (if PrimFloat.ltb 1e12 t then Math_floor t
            else Math_floor (PrimFloat.mul t 1000))
  | _ => now ← Date_now; mret (of_Z now)
  end.

Definition serializeData (data : JsValue) : M JsValue :=
  try_catch
    (timestamp ← read_property data "timestamp";
     timestampMs ← timestamp_to_ms timestamp;
     let source := get data "source" in
     escapedSource ←
       match (if ToBoolean source then source else JStr "unknown") with
       | JStr text => mret (escape_pipes text)
       | _ => throw (TypeError "(data.source || 'unknown').replace is not a function")
       end;
     let value := get data "value" in
     let serializedValue :=
       match value with
       | JArr _ | JObj _ => ToString (JSON_stringify value)
       | JStr text => escape_pipes text
       | _ => ToString value
       end in
     let serialized :=
       Number_toString timestampMs +:+ "|" +:+ ToString (get data "path") +:+ "|"
       +:+ escapedSource +:+ "|" +:+ serializedValue +:+ newline in
     app_debug ("Serialized data: " +:+ trim_end (trim_start serialized));;
     mret (JStr serialized))
    (fun e =>
       app_error ("Error serializing data: " +:+ error_message e);;
       mret JNull).

Definition writeToSocket (category : string) (data : JsValue) : M unit :=
  try_catch
    (socketClient ← gets (fun st => entry (socketClients st) category);
     socks ← gets sockets;
     match socketClient with
     | None =>
         app_debug ("Socket not available for category " +:+ category
                    +:+ ", skipping data write")
     | Some id =>
         if match socks !! id with
            | Some sock => destroyed sock || negb (writable sock)
            | None => true
            end
         then app_debug ("Socket not available for category " +:+ category
                         +:+ ", skipping data write")
         else
           let jsonString := ToString (JSON_stringify data) +:+ newline in
           app_debug ("Writing to socket: " +:+ jsonString);;
           socket_write id jsonString
     end)
    (fun e =>
       app_error ("Error writing to " +:+ category +:+ " socket: " +:+ error_message e)).

(** The degenerate-position test of [processValueObj]. *)
Definition zero_position (category : string) (value : JsValue) : bool :=
  String.eqb category "position"
  && ToBoolean value
  && String.eqb (typeof value) "object"
  && (PrimFloat.eqb (ToNumber (get value "latitude")) 0
      || PrimFloat.eqb (ToNumber (get value "longitude")) 0).

(** The validity test of [processValueObj]. *)
Definition invalid (path value timestamp : JsValue) : bool :=
  negb (ToBoolean path)
  || match value with JUndefined => true | _ => false end
  || negb (ToBoolean timestamp).

(** [valueObj['$source'] || 'unknown'] and the record [measurementData]. *)
Definition source_of (valueObj : JsValue) : JsValue :=
  let source := get valueObj "$source" in
  if ToBoolean source then source else JStr "unknown".

Definition measurement (path : JsValue) (time : float) (value source : JsValue)
  : JsValue :=
  JObj [("path", path); ("time", JNum time); ("value", value); ("source", source)].

(** [processValueObj] from the throttle check on. *)
Definition forward (valueObj path value timestamp : JsValue) (category : string)
  : M unit :=
  allowed ← shouldTransmit path category timestamp;
  if negb allowed then mret tt
  else
    now ← Date_now;
    modify (fun st =>
      set_lastTransmissionTimes (<[ToString path := now]> (lastTransmissionTimes st)) st);;
    let source := source_of valueObj in
    timestampMs ← timestamp_to_ms timestamp;
    let measurementData := measurement path timestampMs value source in
    writeToSocket category measurementData.

(** [processValueObj] from the classification on. *)
Definition classify_and_forward (valueObj path value timestamp : JsValue) : M unit :=
  let category := categorizeData path in
  if String.eqb category "dump" then
    app_debug ("Discarding dump category data for path: " +:+ ToString path)
  else if zero_position category value then
    app_debug "Discarding position with zero lat/lon"
  else forward valueObj path value timestamp category.

Definition processValueObj (valueObj : JsValue) : M unit :=
  try_catch
    (match valueObj with
     | JUndefined | JNull =>
         throw (TypeError ("Cannot destructure property 'path' of 'valueObj' as it is "
                           +:+ ToString valueObj +:+ "."))
     | _ =>
         let path := get valueObj "path" in
         let value := get valueObj "value" in
         let timestamp := get valueObj "timestamp" in
         if invalid path value timestamp then mret tt
         else classify_and_forward valueObj path value timestamp
     end)
    (fun e => app_error ("Error processing value object: " +:+ error_message e)).

(** ** Connections *)

Definition socket_path_of (category : string) : JsValue :=
  match List.find (fun e => String.eqb e.1 category) SOCKET_CONFIG with
  | Some e => JStr e.2
  | None => JUndefined
  end.

Definition connectToSocket (category : string) : M unit :=
  shuttingDown ← gets isShuttingDown;
  if shuttingDown : bool then mret tt
  else
    let socketPath := socket_path_of category in
    app_debug ("Attempting to connect to " +:+ category +:+ " socket at "
               +:+ ToString socketPath);;
    id ← net_createConnection category socketPath;
    modify (fun st => set_socketClients (<[category := Some id]> (socketClients st)) st).

Definition scheduleReconnection (category : string) : M unit :=
  shuttingDown ← gets isShuttingDown;
  timer ← gets (fun st => entry (reconnectTimers st) category);
  if (shuttingDown : bool) || bool_decide (is_Some timer) then mret tt
  else
    app_debug ("Scheduling " +:+ category +:+ " socket reconnection in "
               +:+ pretty (RECONNECT_INTERVAL / 1000) +:+ " seconds");;
    id ← setTimeout category RECONNECT_INTERVAL;
    modify (fun st => set_reconnectTimers (<[category := Some id]> (reconnectTimers st)) st).

(** The callback [scheduleReconnection] hands to [setTimeout]. *)
Definition reconnect (category : string) : M unit :=
  modify (fun st => set_reconnectTimers (<[category := None]> (reconnectTimers st)) st);;
  shuttingDown ← gets isShuttingDown;
  if negb (shuttingDown : bool) then
    app_debug ("Attempting to reconnect to " +:+ category +:+ " socket");;
    connectToSocket category
  else mret tt.

(** The three handlers [connectToSocket] registers on a socket. *)
Definition on_connect (category : string) : M unit :=
  app_debug ("Successfully connected to " +:+ category +:+ " Unix domain socket at "
             +:+ ToString (socket_path_of category)).

Definition on_error (category message : string) : M unit :=
  app_error ("Socket connection error for " +:+ category +:+ ": " +:+ message).

Definition on_close (category : string) (hadError : bool) : M unit :=
  app_debug (category +:+ " socket connection closed. HadError: "
             +:+ (if hadError then "true" else "false"));;
  shuttingDown ← gets isShuttingDown;
  if negb (shuttingDown : bool) then scheduleReconnection category else mret tt.

(** [subscribeToDeltas], for a host whose value bus is there: one more
    registration of [processValueObj]. *)
Definition subscribeToDeltas : M unit :=
  modify (fun st => set_listeners (S (listeners st)) st);;
  modify (set_deltaStreamUnsubscribe true);;
  app_debug "Successfully subscribed to value stream".

Definition plugin_start (opts : option Options) : M unit :=
  app_debug "Starting SignalK Categorized Data Forwarder plugin";;
  modify (set_options (Some (default no_options opts)));;
  forEach (SOCKET_CONFIG.*1) connectToSocket;;
  subscribeToDeltas;;
  app_debug "SignalK Categorized Data Forwarder plugin started successfully".

(** [plugin.stop], part by part: clear all reconnection timers,
    unsubscribe from the delta stream, close all socket connections, clear
    the transmission tracking. *)
Definition clear_timer (category : string) : M unit :=
  timer ← gets (fun st => entry (reconnectTimers st) category);
  match timer with
  | Some id =>
      clearTimeout id;;
      modify (fun st => set_reconnectTimers (<[category := None]> (reconnectTimers st)) st)
  | None => mret tt
  end.

Definition clear_timers : M unit :=
  keys ← gets (fun st => Object_keys (reconnectTimers st));
  forEach keys clear_timer.

Definition unsubscribe : M unit :=
  unsubscribe ← gets deltaStreamUnsubscribe;
  if unsubscribe : bool then
    modify (fun st => set_listeners (pred (listeners st)) st);;
    modify (set_deltaStreamUnsubscribe false);;
    app_debug "Unsubscribed from delta stream"
  else mret tt.

Definition close_client (category : string) : M unit :=
  client ← gets (fun st => entry (socketClients st) category);
  match client with
  | Some id =>
      socket_destroy id;;
      modify (fun st => set_socketClients (<[category := None]> (socketClients st)) st);;
      app_debug ("Socket connection closed for category: " +:+ category)
  | None => mret tt
  end.

Definition close_clients : M unit :=
  keys ← gets (fun st => Object_keys (socketClients st));
  forEach keys close_client.

Definition plugin_stop : M unit :=
  app_debug "Stopping SignalK Categorized Data Forwarder plugin";;
  modify (set_isShuttingDown true);;
  clear_timers;;
  unsubscribe;;
  close_clients;;
  modify (set_lastTransmissionTimes ∅);;
  app_debug "SignalK Categorized Data Forwarder plugin stopped".

(** ** The event loop

    What the host and the runtime can make the plugin do: the host starts
    and stops it and delivers values to the registered listeners; a socket
    connects, fails, is ended by the peer, or closes (once); a pending
    timeout fires. *)
Inductive Event : Type :=
  | Start (opts : option Options)
  | Stop
  | Value (valueObj : JsValue)
  | SocketConnect (id : nat)
  | SocketError (id : nat) (message : string)
  | SocketEnd (id : nat)
  | SocketClose (id : nat) (hadError : bool)
  | TimeoutFires (id : nat).

Definition handle (ev : Event) : M unit :=
  match ev with
  | Start opts => plugin_start opts
  | Stop => plugin_stop
  | Value valueObj =>
      n ← gets listeners;
      forEach (replicate n valueObj) processValueObj
  | SocketConnect id =>
      socks ← gets sockets;
      match socks !! id with
      | Some sock => if destroyed sock then mret tt else on_connect (sock_category sock)
      | None => mret tt
      end
  | SocketError id message =>
      socks ← gets sockets;
      match socks !! id with
      | Some sock =>
          if closed sock then mret tt
          else
            modify (update_socket id (torn_down false));;
            on_error (sock_category sock) message
      | None => mret tt
      end
  | SocketEnd id => modify (update_socket id half_closed)
  | SocketClose id hadError =>
      socks ← gets sockets;
      match socks !! id with
      | Some sock =>
          if closed sock then mret tt
          else
            modify (update_socket id (torn_down true));;
            on_close (sock_category sock) hadError
      | None => mret tt
      end
  | TimeoutFires id =>
      pending ← gets timeouts;
      match pending !! id with
      | Some (Some category) =>
          modify (fun st => set_timeouts (<[id := None]> (timeouts st)) st);;
          reconnect category
      | _ => mret tt
      end
  end.

(** The state after an event, and after a sequence of events. *)
Definition step (st : State) (ev : Event) : State := (handle ev st).2.

Definition run_events (st : State) (evs : list Event) : State := foldl step st evs.

End Plugin.

(** ** A [Date.parse] for the examples

    The one format every implementation recognises, in its complete UTC
    form [YYYY-MM-DDTHH:mm:ss.sssZ] (the form of Signal K timestamps), and
    nothing else. *)
Fixpoint read_fixed (n : nat) (s : string) (acc : Z) : option (Z * string) :=
  match n, s with
  | O, _ => Some (acc, s)
  | S n', String c s' =>
      match digit_value 10 c with
      | Some v => read_fixed n' s' (acc * 10 + v)
      | None => None
      end
  | S _, EmptyString => None
  end.

Definition expect (c : ascii) (s : string) : option string :=
  match s with
  | String d s' => if Ascii.eqb c d then Some s' else None
  | EmptyString => None
  end.

Definition days_in_month (y m : Z) : Z :=
  if m =? 2 then
    if (y mod 4 =? 0) && (negb (y mod 100 =? 0) || (y mod 400 =? 0)) then 29 else 28
  else if (m =? 4) || (m =? 6) || (m =? 9) || (m =? 11) then 30 else 31.

(** Days from 1970-01-01 to the given day of the proleptic Gregorian
    calendar. *)
Definition days_from_epoch (y m d : Z) : Z :=
  let y' := if m <=? 2 then y - 1 else y in
  let era := y' / 400 in
  let yoe := y' - era * 400 in
  let doy := (153 * ((m + 9) mod 12) + 2) / 5 + d - 1 in
  era * 146097 + (yoe * 365 + yoe / 4 - yoe / 100 + doy) - 719468.

Definition Date_parse_utc (s : string) : float :=
  let parsed :=
    '(y, s) ← read_fixed 4 s 0; s ← expect "-" s;
    '(mo, s) ← read_fixed 2 s 0; s ← expect "-" s;
    '(d, s) ← read_fixed 2 s 0; s ← expect "T" s;
    '(h, s) ← read_fixed 2 s 0; s ← expect ":" s;
    '(mi, s) ← read_fixed 2 s 0; s ← expect ":" s;
    '(sec, s) ← read_fixed 2 s 0; s ← expect "." s;
    '(ms, s) ← read_fixed 3 s 0; s ← expect "Z" s;
    if String.eqb s ""
       && (1 <=? mo) && (mo <=? 12) && (1 <=? d) && (d <=? days_in_month y mo)
       && (h <=? 23) && (mi <=? 59) && (sec <=? 59)
    then Some ((((days_from_epoch y mo d * 24 + h) * 60 + mi) * 60 + sec) * 1000 + ms)
    else None in
  match parsed with
  | Some t => of_Z t
  | None => nan
  end.

(* ===================================================================== *)
(** * The vocabulary of the properties *)
(* ===================================================================== *)

(** The throttle map is a plain object, whose inherited properties a
    lookup would also find: their names. *)
Definition Object_prototype_names : list string :=
  [ "constructor"; "__defineGetter__"; "__defineSetter__"; "hasOwnProperty";
    "__lookupGetter__"; "__lookupSetter__"; "isPrototypeOf";
    "propertyIsEnumerable"; "toString"; "valueOf"; "__proto__"; "toLocaleString" ].

(** The rate the configuration sets for a category, and the minimum
    interval in force: the rate if it is set (and not zero), the
    category's default otherwise. *)
Definition configured (opts : Options) (category : string) : option Z :=
  if String.eqb category "position" then positionSampleRate opts
  else if String.eqb category "sensor" then sensorSampleRate opts
  else if String.eqb category "state" then stateSampleRate opts
  else None.

Definition default_interval (category : string) : Z :=
  if String.eqb category "position" then 1000
  else if String.eqb category "sensor" then 2000
  else if String.eqb category "state" then 500
  else 1000.

Definition interval (opts : Options) (category : string) : Z :=
  or_default (configured opts category) (default_interval category).

(** The clock after one reading. *)
Definition tick (st : State) : State := set_clock (fun n => clock st (S n)) st.

(** The chunk [writeToSocket] hands to the socket, and the two states it
    can leave: the chunk delivered to the socket, or the write skipped. *)
Definition json_line (data : JsValue) : string :=
  ToString (JSON_stringify data) +:+ newline.

Definition delivered (id : nat) (sock : Socket) (chunk : string) (st : State) : State :=
  set_sockets (<[id := received chunk sock]> (sockets st))
    (set_log (log st ++ [(debug, "Writing to socket: " +:+ chunk)]) st).

Definition skipped (category : string) (st : State) : State :=
  set_log (log st ++ [(debug, "Socket not available for category " +:+ category
                               +:+ ", skipping data write")]) st.

(** The time of the record, given the reading of the clock the fallback
    would use, and whether the fallback is taken. *)
Definition normalized_time (Date_parse : string -> float) (timestamp : JsValue)
    (now : Z) : float :=
  match timestamp with
  | JStr text => Math_floor (Date_getTime Date_parse text)
  | JNum t =>
      if PrimFloat.ltb 1e12 t then Math_floor t else Math_floor (PrimFloat.mul t 1000)
  | _ => of_Z now
  end.

Definition falls_back (timestamp : JsValue) : bool :=
  match timestamp with
  | JStr _ | JNum _ => false
  | _ => true
  end.

(** The state of an accepted value just before the write: the throttle check has
    read the clock, the next reading is recorded for the path, and the
    fallback, if taken, has read the clock once more. *)
Definition recorded (path timestamp : JsValue) (st : State) : State :=
  let st' :=
    set_lastTransmissionTimes
      (<[ToString path := clock st 1%nat]> (lastTransmissionTimes st))
      (tick (tick st)) in
  if falls_back timestamp then tick st' else st'.

(** The [catch] block of [processValueObj]. *)
Definition handler (e : JsError) : M unit :=
  app_error ("Error processing value object: " +:+ error_message e).

(** A structured value: an object or an array. *)
Definition structured (v : JsValue) : bool :=
  match v with
  | JArr _ | JObj _ => true
  | _ => false
  end.

(** [keeps view m]: running the statement [m] does not change the [view]
    of the state. *)
Definition keeps {V A : Type} (view : State -> V) (m : M A) : Prop :=
  forall st, view (m st).2 = view st.

(** The part of the state the supervision is about: the shutdown flag,
    the timeouts, the timers the plugin remembers, and how many sockets
    have been created. *)
Definition supervision (st : State)
  : bool * list (option string) * gmap string (option nat) * nat :=
  (isShuttingDown st, timeouts st, reconnectTimers st, length (sockets st)).

(** What a connection attempt leaves alone: everything the supervision is
    about but the number of sockets. *)
Definition timer_view (st : State) : bool * list (option string) * gmap string (option nat) :=
  (isShuttingDown st, timeouts st, reconnectTimers st).

(** The timeout [id] is pending and will reconnect [category]. *)
Definition pending (st : State) (id : nat) (category : string) : Prop :=
  timeouts st !! id = Some (Some category).

(** The invariant: a pending timeout is the one the plugin remembers for
    its category. *)
Definition timers_tracked (st : State) : Prop :=
  forall id category,
    pending st id category -> entry (reconnectTimers st) category = Some id.

Definition stopped (st : State) : Prop :=
  isShuttingDown st = true /\ forall id category, ~ pending st id category.

(** Arming a timeout for a category that has none pending. *)
Definition armed (category : string) (st : State) : State :=
  set_reconnectTimers (<[category := Some (length (timeouts st))]> (reconnectTimers st))
    (set_timeouts (timeouts st ++ [Some category])
       (set_log (log st ++ [(debug, "Scheduling " +:+ category
                                    +:+ " socket reconnection in 5 seconds")]) st)).

(** Forgetting the timer of a category and taking its timeout out of the
    pending ones: what the callback and [plugin.stop] do. *)
Definition cancelled (id : nat) (category : string) (st : State) : State :=
  set_reconnectTimers (<[category := None]> (reconnectTimers st))
    (set_timeouts (<[id := None]> (timeouts st)) st).

(** ** The scenarios the properties are tried on *)

(** A JSON text written with apostrophes for its double quotes. *)
Fixpoint with_quotes (s : string) : string :=
  match s with
  | EmptyString => ""
  | String c s' =>
      if Ascii.eqb c "'" then dquote +:+ with_quotes s' else String c (with_quotes s')
  end.

(** The value of the end-to-end scenario and the record it is to become. *)
Definition speed_event : JsValue :=
  JObj [ ("path", JStr "navigation.speedOverGround"); ("value", JNum 5.1);
         ("timestamp", JNum 1694458123); ("$source", JStr "gps.0") ].

Definition speed_record : JsValue :=
  JObj [ ("path", JStr "navigation.speedOverGround"); ("time", JNum 1694458123000);
         ("value", JNum 5.1); ("source", JStr "gps.0") ].

(** A clock that advances by 250 ms from one reading to the next, and the
    plugin started on it with the default configuration, its three sockets
    open. *)
Definition readings (n : nat) : Z := 1700000000000 + 250 * Z.of_nat n.

Definition started : State :=
  run_events Date_parse_utc (initial readings) [Start None; SocketConnect 0].

Definition sensor_socket : Socket :=
  {| sock_category := "sensor"; sock_path := "/tmp/signalk_sensors.sock";
     destroyed := false; writable := true; closed := false; written := [] |}.

(** Two clocks for the boundary of the throttle: the first value is
    processed at [t], the second 1999 ms, or 2000 ms, later. *)
Definition readings_then (later : Z) (n : nat) : Z :=
  if (n <? 2)%nat then 1700000000000 else 1700000000000 + later.

Definition started_then (later : Z) : State :=
  set_clock (readings_then later) started.

(** Position values, with a timestamp in the Signal K format. *)
Definition position_fix (latitude longitude : JsValue) : list (string * JsValue) :=
  [ ("latitude", latitude); ("longitude", longitude) ].

Definition position_props (fields : list (string * JsValue)) : list (string * JsValue) :=
  [ ("path", JStr "navigation.position"); ("value", JObj fields);
    ("timestamp", JStr "2023-09-11T18:48:43.000Z"); ("$source", JStr "gps.0") ].

Definition discarded_position (st : State) : Completion unit * State :=
  (Normal tt, set_log (log st ++ [(debug, "Discarding position with zero lat/lon")]) st).

(** Values with a timestamp that is zero, empty, or not a date, and with
    the value [null]. *)
Definition speed_props (value timestamp : JsValue) : list (string * JsValue) :=
  [ ("path", JStr "navigation.speedOverGround"); ("value", value);
    ("timestamp", timestamp); ("$source", JStr "gps.0") ].

(** The sensor socket closed. *)
Definition disconnected : State := step Date_parse_utc started (SocketClose 0 false).

(** The pipe-delimited line of the scenario, and the record shape
    [serializeData] reads it from. *)
Definition pipe_record : JsValue :=
  JObj [ ("path", JStr "navigation.speedOverGround"); ("timestamp", JNum 1694458123000);
         ("value", JNum 5.1); ("source", JStr "gps.0") ].

Definition pipe_line : string :=
  "1694458123000|navigation.speedOverGround|gps.0|5.1" +:+ newline.

Definition fast_options : Options :=
  {| positionSampleRate := Some 100; sensorSampleRate := Some 100;
     stateSampleRate := Some 100 |}.

(** The plugin started twice, so that the sensor category has two
    sockets, the first of which has closed: its reconnect timeout is
    pending. *)
Definition reconnecting : list Event :=
  [Start None; Start None; SocketClose 0 false].

(** ** More vocabulary: what processing a value may change *)

(** What a socket is, apart from the chunks it was given. *)
Definition socket_status (sock : Socket) : string * string * bool * bool * bool :=
  (sock_category sock, sock_path sock, destroyed sock, writable sock, closed sock).

(** Everything in the state a value has no business with: the
    configuration, the subscription, the clients, the timers, the flag,
    the timeouts, the listeners, and what each socket is. *)
Definition control (st : State) :=
  (options st, deltaStreamUnsubscribe st, socketClients st, reconnectTimers st,
   isShuttingDown st, timeouts st, listeners st, socket_status <$> sockets st).

(** The sockets and the clients, which decide where a write goes. *)
Definition wiring (st : State) : list Socket * gmap string (option nat) :=
  (sockets st, socketClients st).

(** [routed category chunks w st']: from the wiring [w], the sockets of
    [st'] are as before, or the client of [category], open for writes,
    was given one chunk, one of [chunks]. *)
Definition routed (category : string) (chunks : string -> Prop)
    (w : list Socket * gmap string (option nat)) (st' : State) : Prop :=
  sockets st' = w.1
  \/ exists id sock chunk,
       entry w.2 category = Some id
       /\ w.1 !! id = Some sock
       /\ destroyed sock = false /\ writable sock = true
       /\ chunks chunk
       /\ sockets st' = <[id := received chunk sock]> w.1.

(** [post view P m]: after [m], the state is as [P] says of the view
    before. *)
Definition post {V A : Type} (view : State -> V) (P : V -> State -> Prop) (m : M A) : Prop :=
  forall st, P (view st) (m st).2.

(** The throttle record of a key, 0 when there is none. *)
Definition record_of (st : State) (key : string) : Z :=
  default 0 (lastTransmissionTimes st !! key).

(** No rule of any list matches the path. *)
Definition unclassified (path : JsValue) : Prop :=
  forall category patterns,
    (category, patterns) ∈ CATEGORY_PATTERNS -> some_pattern_matches patterns path = false.

(** The chunks a value can be written as: the JSON line of its
    measurement, at some time. *)
Definition chunks_of (valueObj : JsValue) (chunk : string) : Prop :=
  exists time,
    chunk = json_line (measurement (get valueObj "path") time (get valueObj "value")
                         (source_of valueObj)).

(** ** More vocabulary: what the events may do to the sockets *)

(** [respects R m]: the state after the statement [m] is related by [R]
    to the state before. *)
Definition respects {A : Type} (R : State -> State -> Prop) (m : M A) : Prop :=
  forall st, R st (m st).2.

(** A socket later in its life: the same category and path; destroyed,
    closed and not writable are for good; chunks are only added, and none
    is added once it is destroyed or not writable. *)
Definition outlives (old new : Socket) : Prop :=
  sock_category new = sock_category old
  /\ sock_path new = sock_path old
  /\ (destroyed old = true -> destroyed new = true)
  /\ (closed old = true -> closed new = true)
  /\ (writable old = false -> writable new = false)
  /\ written old `prefix_of` written new
  /\ (destroyed old = true \/ writable old = false -> written new = written old).

(** Every socket of [st] is there in [st'], later in its life. *)
Definition history (st st' : State) : Prop :=
  forall id old,
    sockets st !! id = Some old ->
    exists new, sockets st' !! id = Some new /\ outlives old new.

(** The plugin after [plugin.stop]: shutting down, and without a client
    for any category. *)
Definition halted (st : State) : Prop :=
  isShuttingDown st = true
  /\ forall category, entry (socketClients st) category = None.

(** The chunks each socket was given. *)
Definition traffic (st : State) : list (list string) := written <$> sockets st.

(** From a halted state: still halted, and no socket more, no chunk more. *)
Definition quiet (st st' : State) : Prop :=
  halted st -> halted st' /\ traffic st' = traffic st.

(** The plugin at rest: halted, unsubscribed, without a throttle record
    and without a timer for any category. *)
Definition at_rest (st : State) : Prop :=
  halted st
  /\ deltaStreamUnsubscribe st = false
  /\ lastTransmissionTimes st = ∅
  /\ forall category, entry (reconnectTimers st) category = None.

(** What the later parts of [plugin.stop] leave alone in the earlier
    ones. *)
Definition stop_view (st : State) :=
  (isShuttingDown st, deltaStreamUnsubscribe st, lastTransmissionTimes st).

(** The socket [net.createConnection] returns. *)
Definition fresh_socket (category path : string) : Socket :=
  {| sock_category := category; sock_path := path; destroyed := false;
     writable := true; closed := false; written := [] |}.

(** What only [plugin.start], [plugin.stop], a close event and a timeout
    may change: everything but the log and the flags of the sockets. *)
Definition beyond_flags (st : State) :=
  (options st, deltaStreamUnsubscribe st, socketClients st, reconnectTimers st,
   isShuttingDown st, lastTransmissionTimes st, timeouts st, listeners st,
   clock st, sock_category <$> sockets st, traffic st).

(** A connection attempt: the line in the log, the new socket, and the
    socket made the client of its category. *)
Definition connected (category path : string) (st : State) : State :=
  set_socketClients (<[category := Some (length (sockets st))]> (socketClients st))
    (set_sockets (sockets st ++ [fresh_socket category path])
       (set_log (log st ++ [(debug, "Attempting to connect to " +:+ category
                                    +:+ " socket at " +:+ path)]) st)).

(** The client of a category is a socket made for that category, at the
    path the configuration gives for it. *)
Definition made_for (category : string) (sock : Socket) : Prop :=
  sock_category sock = category /\ socket_path_of category = JStr (sock_path sock).

Definition wired (st : State) : Prop :=
  forall category id,
    entry (socketClients st) category = Some id ->
    exists sock, sockets st !! id = Some sock /\ made_for category sock.

(** The sockets have moved forward, and a client is the one it was or a
    socket made for its category. *)
Definition rewired (st st' : State) : Prop :=
  history st st'
  /\ forall category id,
       entry (socketClients st') category = Some id ->
       entry (socketClients st) category = Some id
       \/ exists sock, sockets st' !! id = Some sock /\ made_for category sock.

(** ** More vocabulary: paths and lines *)

(** A string without a line terminator (the characters the dot of a
    pattern does not match). *)
Fixpoint single_line (s : string) : bool :=
  match s with
  | EmptyString => true
  | String c s' => negb (is_line_terminator c) && single_line s'
  end.

(** The beginnings the state patterns accept whatever follows on the
    line, and those the sensor patterns accept. *)
Definition state_prefixes : list string :=
  ["navigation.currentRoute."; "navigation.gns"; "notifications"; "sensors.ais"; "steering"].

Definition sensor_prefixes : list string := ["environment"; "navigation"].

(** A value no rule knows, and a value of the state category. *)
Definition revolutions_props : list (string * JsValue) :=
  [("path", JStr "propulsion.main.revolutions"); ("value", JNum 25);
   ("timestamp", JStr "2024-01-01T00:00:00.000Z")].

Definition rudder_path : JsValue := JStr "steering.rudderAngle".

(* ===================================================================== *)
(** * The single-socket forwarder (src/unnamed/part_000) *)
(* ===================================================================== *)

(** The earlier form of the plugin: one socket for everything, no
    categories and no throttle.  Modelled here is how it processes what
    the bus delivers: [processValueObj], [processDelta], [processUpdate],
    [extractSourceLabel], [transformValue] and [writeToSocket], over the
    one closure variable they read, [socketClient] ([None] is [null]),
    the socket objects and the log. *)
Module Legacy.

Record State : Type := {
  socketClient : option nat;
  sockets : list Socket;
  log : list (Level * string)
}.

Definition set_sockets (v : list Socket) (st : State) : State :=
  {| socketClient := socketClient st; sockets := v; log := log st |}.

Definition set_log (v : list (Level * string)) (st : State) : State :=
  {| socketClient := socketClient st; sockets := sockets st; log := v |}.

Definition L (A : Type) : Type := State -> Completion A * State.

#[global] Instance L_ret : MRet L := fun A a st => (Normal a, st).
#[global] Instance L_bind : MBind L := fun A B f m st =>
  match m st with
  | (Normal a, st') => f a st'
  | (Throw e, st') => (Throw e, st')
  end.

Definition gets {A : Type} (f : State -> A) : L A := fun st => (Normal (f st), st).
Definition modify (f : State -> State) : L unit := fun st => (Normal tt, f st).
Definition throw {A : Type} (e : JsError) : L A := fun st => (Throw e, st).
Definition try_catch {A : Type} (body : L A) (handler : JsError -> L A) : L A :=
  fun st =>
    match body st with
    | (Throw e, st') => handler e st'
    | done => done
    end.

Fixpoint forEach {A : Type} (l : list A) (f : A -> L unit) : L unit :=
  match l with
  | [] => mret tt
  | x :: xs => f x;; forEach xs f
  end.

Definition app_debug (msg : string) : L unit :=
  modify (fun st => set_log (log st ++ [(debug, msg)]) st).
Definition app_error (msg : string) : L unit :=
  modify (fun st => set_log (log st ++ [(error, msg)]) st).

Definition socket_write (id : nat) (data : string) : L unit :=
  modify (fun st =>
    match sockets st !! id with
    | Some sock => set_sockets (<[id := received data sock]> (sockets st)) st
    | None => st
    end).

(** [Array.isArray] and the elements [forEach] visits. *)
Definition isArray (v : JsValue) : bool :=
  match v with JArr _ => true | _ => false end.

Definition elements (v : JsValue) : list JsValue :=
  match v with JArr elems => elems | _ => [] end.

Definition is_undefined (v : JsValue) : bool :=
  match v with JUndefined => true | _ => false end.

Definition writeToSocket (data : JsValue) : L unit :=
  try_catch
    (client ← gets socketClient;
     socks ← gets sockets;
     match client with
     | None => app_debug "Socket not available, skipping data write"
     | Some id =>
         if match socks !! id with
            | Some sock => destroyed sock || negb (writable sock)
            | None => true
            end
         then app_debug "Socket not available, skipping data write"
         else
           let jsonString := ToString (JSON_stringify data) +:+ newline in
           app_debug ("Writing to socket: " +:+ jsonString);;
           socket_write id jsonString
     end)
    (fun e => app_error ("Error writing to socket: " +:+ error_message e)).

Definition extractSourceLabel (source : JsValue) : JsValue :=
  if negb (ToBoolean source) then JStr "unknown"
  else if ToBoolean (get source "label") && ToBoolean (get source "src")
  then JStr (ToString (get source "label") +:+ "." +:+ ToString (get source "src"))
  else if ToBoolean (get source "label") then get source "label"
  else if ToBoolean (get source "type") then get source "type"
  else JStr "unknown".

Definition transformValue (valueObj timestamp source : JsValue) : L JsValue :=
  app_debug ("Transforming value: " +:+ ToString (JSON_stringify valueObj));;
  try_catch
    (if negb (ToBoolean valueObj) || negb (ToBoolean (get valueObj "path"))
        || is_undefined (get valueObj "value")
     then mret JNull
     else mret (JObj [("path", get valueObj "path"); ("time", timestamp);
                      ("value", get valueObj "value"); ("source", source)]))
    (fun e => app_error ("Error transforming value: " +:+ error_message e);; mret JNull).

(** The callback of the loop of [processUpdate]. *)
Definition forward_value (timestamp source valueObj : JsValue) : L unit :=
  transformedData ← transformValue valueObj timestamp source;
  if ToBoolean transformedData then writeToSocket transformedData else mret tt.

Definition processUpdate (update : JsValue) : L unit :=
  app_debug ("Processing update: " +:+ ToString (JSON_stringify update));;
  try_catch
    (if negb (ToBoolean update) || negb (ToBoolean (get update "values"))
        || negb (isArray (get update "values"))
     then mret tt
     else
       let timestamp := get update "timestamp" in
       let source := extractSourceLabel (get update "source") in
       forEach (elements (get update "values")) (forward_value timestamp source))
    (fun e => app_error ("Error processing update: " +:+ error_message e)).

Definition processDelta (delta : JsValue) : L unit :=
  app_debug ("Received delta: " +:+ ToString (JSON_stringify delta));;
  try_catch
    (if negb (ToBoolean delta) || negb (ToBoolean (get delta "updates"))
        || negb (isArray (get delta "updates"))
     then mret tt
     else forEach (elements (get delta "updates")) processUpdate)
    (fun e => app_error ("Error processing delta: " +:+ error_message e)).

(** The listener of this version: no check, no [try]. *)
Definition processValueObj (valueObj : JsValue) : L unit :=
  app_debug ("Received value: " +:+ ToString (JSON_stringify valueObj));;
  match valueObj with
  | JUndefined | JNull =>
      throw (TypeError ("Cannot destructure property 'path' of 'valueObj' as it is "
                        +:+ ToString valueObj +:+ "."))
  | _ =>
      let source := if ToBoolean (get valueObj "$source") then get valueObj "$source"
                    else JStr "unknown" in
      writeToSocket (JObj [("path", get valueObj "path");
                           ("time", get valueObj "timestamp");
                           ("value", get valueObj "value"); ("source", source)])
  end.

(** *** The vocabulary of its properties *)

(** A value [transformValue] accepts, and the record it makes of it. *)
Definition accepted (valueObj : JsValue) : bool :=
  ToBoolean valueObj && ToBoolean (get valueObj "path")
  && negb (is_undefined (get valueObj "value")).

Definition transformed (timestamp source valueObj : JsValue) : JsValue :=
  JObj [("path", get valueObj "path"); ("time", timestamp);
        ("value", get valueObj "value"); ("source", source)].

(** The lines an update is written as: one for each accepted value, in
    order, all with the timestamp and the source label of the update. *)
Definition lines_of (update : JsValue) : list string :=
  map (fun valueObj =>
         json_line (transformed (get update "timestamp")
                      (extractSourceLabel (get update "source")) valueObj))
    (filter (fun valueObj => accepted valueObj = true) (elements (get update "values"))).

(** The lines of a delta: those of its updates, in order. *)
Definition lines_of_delta (delta : JsValue) : list string :=
  concat (map lines_of (elements (get delta "updates"))).

(** The client is a socket open for writes. *)
Definition connected_to (id : nat) (sock : Socket) (st : State) : Prop :=
  socketClient st = Some id /\ sockets st !! id = Some sock
  /\ destroyed sock = false /\ writable sock = true.

(** The socket after it was given the chunks. *)
Definition fed (chunks : list string) (sock : Socket) : Socket :=
  {| sock_category := sock_category sock; sock_path := sock_path sock;
     destroyed := destroyed sock; writable := writable sock;
     closed := closed sock; written := written sock ++ chunks |}.

End Legacy.

(** A connected forwarder, an update with a value and an element without
    one, and a delta. *)
Definition legacy_connected : Legacy.State :=
  {| Legacy.socketClient := Some 0%nat;
     Legacy.sockets := [fresh_socket "" "/tmp/signalk.sock"];
     Legacy.log := [] |}.

Definition legacy_update : JsValue :=
  JObj [("timestamp", JStr "2024-01-01T00:00:00.000Z");
        ("source", JObj [("label", JStr "gps"); ("src", JStr "0")]);
        ("values", JArr [JObj [("path", JStr "navigation.speedOverGround");
                               ("value", JNum 5)];
                         JObj [("path", JStr "navigation.headingTrue")]])].

Definition legacy_delta : JsValue := JObj [("updates", JArr [legacy_update])].

(* ===================================================================== *)
(** * Properties *)
(* ===================================================================== *)

(** Unfolding the statements of the plugin on a symbolic state. *)
Ltac exec :=
  repeat (progress (unfold mbind, M_bind, mret, M_ret, gets, modify, throw, try_catch,
                    app_debug, app_error, Date_now; cbn)).

(** ** The classifier *)

Lemma some_pattern_matches_iff (patterns : list Regex) (path : JsValue) :
  some_pattern_matches patterns path = true <->
  exists pattern, pattern ∈ patterns /\ test pattern path = true.
Proof.
  induction patterns as [|p ps IH]; cbn.
  - split; [discriminate | intros (q & Hq & _); inversion Hq].
  - destruct (test p path) eqn:Hp.
    + split; [intros _; exists p; split; [left | exact Hp] | reflexivity].
    + rewrite IH. split.
      * intros (q & Hq & Ht). exists q. split; [right; exact Hq | exact Ht].
      * intros (q & Hq & Ht). apply elem_of_cons in Hq as [-> | Hq].
        -- congruence.
        -- exists q. split; assumption.
Qed.

(** The classifier only looks at the path as a string. *)
Lemma categorizeData_ToString (path : JsValue) :
  categorizeData path = categorizeData (JStr (ToString path)).
Proof. reflexivity. Qed.

(** A path whose string is the name of an inherited property never gets
    as far as the lookup in the throttle map: it is classified as dump. *)
Lemma inherited_names_are_dumped (path : JsValue) :
  ToString path ∈ Object_prototype_names -> categorizeData path = "dump".
Proof.
  intros Hin. rewrite categorizeData_ToString.
  unfold Object_prototype_names in Hin.
  repeat (apply elem_of_cons in Hin as [-> | Hin]; [vm_compute; reflexivity |]).
  inversion Hin.
Qed.

(** C3. A path that matches a rule of the dump list is classified as dump,
    whatever rules of the real categories (sensor, position, state) it
    also matches: the dump list is evaluated first and its match decides. *)
Theorem dump_takes_precedence (path : JsValue) :
  (exists pattern, pattern ∈ dump_patterns /\ test pattern path = true) ->
  categorizeData path = "dump".
Proof.
  intros Hdump. apply some_pattern_matches_iff in Hdump.
  unfold categorizeData. rewrite Hdump. reflexivity.
Qed.

(** A path with a dump rule and a sensor rule: the total panel power of a
    solar charger. *)
Lemma dump_takes_precedence_witness :
  let path := JStr "electrical.solar.1.totalPanelPower" in
  some_pattern_matches sensor_patterns path = true /\ categorizeData path = "dump".
Proof.
  split; [vm_compute; reflexivity |].
  apply dump_takes_precedence.
  exists (anchored [any; Group (Lit "totalPanel"); any]).
  split; [left | vm_compute; reflexivity].
Defined.

(** ** The throttle gate *)

Lemma shouldTransmit_eq (st : State) (opts : Options)
    (path timestamp : JsValue) (category : string) :
  options st = Some opts ->
  shouldTransmit path category timestamp st =
    (Normal (interval opts category <=? clock st 0%nat - lastTransmission st path),
     tick st).
Proof.
  intros Hopts. unfold shouldTransmit, plugin_options, interval, configured,
    default_interval.
  destruct (String.eqb category "position");
    [| destruct (String.eqb category "sensor");
       [| destruct (String.eqb category "state")]];
    exec; rewrite ?Hopts; reflexivity.
Qed.

(** ** Writing to a socket *)

Section Properties.

Variable Date_parse : string -> float.

Lemma writeToSocket_delivers (st : State) (category : string) (data : JsValue)
    (id : nat) (sock : Socket) :
  entry (socketClients st) category = Some id ->
  sockets st !! id = Some sock ->
  destroyed sock = false ->
  writable sock = true ->
  writeToSocket category data st = (Normal tt, delivered id sock (json_line data) st).
Proof.
  intros Hentry Hsock Hd Hw. unfold writeToSocket. exec.
  rewrite Hentry, Hsock, Hd, Hw. exec.
  unfold socket_write, update_socket. exec. rewrite Hsock. reflexivity.
Qed.

Lemma writeToSocket_skips_missing (st : State) (category : string) (data : JsValue) :
  entry (socketClients st) category = None ->
  writeToSocket category data st = (Normal tt, skipped category st).
Proof.
  intros Hentry. unfold writeToSocket. exec. rewrite Hentry. reflexivity.
Qed.

Lemma writeToSocket_skips_unwritable (st : State) (category : string) (data : JsValue)
    (id : nat) (sock : Socket) :
  entry (socketClients st) category = Some id ->
  sockets st !! id = Some sock ->
  destroyed sock = true \/ writable sock = false ->
  writeToSocket category data st = (Normal tt, skipped category st).
Proof.
  intros Hentry Hsock Hflags. unfold writeToSocket. exec.
  rewrite Hentry, Hsock.
  destruct Hflags as [-> | ->]; [| destruct (destroyed sock)]; reflexivity.
Qed.

Lemma writeToSocket_returns (st : State) (category : string) (data : JsValue) :
  (writeToSocket category data st).1 = Normal tt.
Proof.
  unfold writeToSocket. exec.
  destruct (entry (socketClients st) category) as [id|]; [| reflexivity].
  destruct (sockets st !! id) as [sock|]; [| reflexivity].
  destruct (destroyed sock), (writable sock); reflexivity.
Qed.

(** [processValueObj] catches whatever its body throws. *)
Lemma processValueObj_returns (st : State) (valueObj : JsValue) :
  (processValueObj Date_parse valueObj st).1 = Normal tt.
Proof.
  unfold processValueObj, try_catch.
  match goal with |- context [match ?body st with _ => _ end] =>
    destruct (body st) as [[[]|e] st'] end; reflexivity.
Qed.

(** ** The pipeline, stage by stage *)

Lemma timestamp_to_ms_eq (timestamp : JsValue) (st : State) :
  timestamp_to_ms Date_parse timestamp st =
    (Normal (normalized_time Date_parse timestamp (clock st 0%nat)),
     if falls_back timestamp then tick st else st).
Proof. destruct timestamp; reflexivity. Qed.

Section OneValue.

Variables (st : State) (props : list (string * JsValue)).

Let valueObj := JObj props.
Let path := get valueObj "path".
Let value := get valueObj "value".
Let timestamp := get valueObj "timestamp".
Let category := categorizeData path.

Local Ltac enter :=
  unfold processValueObj, try_catch; cbv beta iota delta [valueObj];
  change (invalid _ _ _) with (invalid path value timestamp).
Local Ltac classify :=
  unfold classify_and_forward;
  change (categorizeData _) with category;
  try change (zero_position _ _) with (zero_position category value).

Lemma processValueObj_invalid :
  invalid path value timestamp = true ->
  processValueObj Date_parse valueObj st = (Normal tt, st).
Proof.
  intros Hinv. enter. rewrite Hinv. reflexivity.
Qed.

Lemma processValueObj_dump :
  invalid path value timestamp = false ->
  category = "dump" ->
  processValueObj Date_parse valueObj st =
    (Normal tt,
     set_log (log st ++ [(debug, "Discarding dump category data for path: "
                                 +:+ ToString path)]) st).
Proof.
  intros Hinv Hdump. enter. rewrite Hinv. classify. rewrite Hdump. reflexivity.
Qed.

Lemma processValueObj_zero_position :
  invalid path value timestamp = false ->
  String.eqb category "dump" = false ->
  zero_position category value = true ->
  processValueObj Date_parse valueObj st =
    (Normal tt, set_log (log st ++ [(debug, "Discarding position with zero lat/lon")]) st).
Proof.
  intros Hinv Hdump Hzero. enter. rewrite Hinv. classify. rewrite Hdump, Hzero. reflexivity.
Qed.

(** A value that passes the three filters goes to the throttle gate. *)
Lemma processValueObj_forwards :
  invalid path value timestamp = false ->
  String.eqb category "dump" = false ->
  zero_position category value = false ->
  processValueObj Date_parse valueObj st =
    try_catch (forward Date_parse valueObj path value timestamp category) handler st.
Proof.
  intros Hinv Hdump Hzero. enter. rewrite Hinv. classify. rewrite Hdump, Hzero. reflexivity.
Qed.

Variable opts : Options.
Hypothesis Hoptions : options st = Some opts.

Lemma forward_throttled :
  clock st 0%nat - lastTransmission st path < interval opts category ->
  try_catch (forward Date_parse valueObj path value timestamp category) handler st
  = (Normal tt, tick st).
Proof.
  intros Hearly. unfold forward, try_catch, mbind, M_bind.
  rewrite (shouldTransmit_eq st opts) by exact Hoptions.
  apply Z.leb_gt in Hearly. rewrite Hearly. reflexivity.
Qed.

Lemma forward_allowed :
  interval opts category <= clock st 0%nat - lastTransmission st path ->
  try_catch (forward Date_parse valueObj path value timestamp category) handler st
  = writeToSocket category
      (measurement path (normalized_time Date_parse timestamp (clock st 2%nat)) value
         (source_of valueObj))
      (recorded path timestamp st).
Proof.
  intros Hlate. unfold forward, try_catch, mbind, M_bind.
  rewrite (shouldTransmit_eq st opts) by exact Hoptions.
  apply Z.leb_le in Hlate. rewrite Hlate. cbn.
  unfold modify, Date_now. cbn. rewrite timestamp_to_ms_eq. cbn.
  unfold recorded.
  match goal with |- context [writeToSocket ?c ?d ?s] =>
    pose proof (writeToSocket_returns s c d) as Hret;
    destruct (writeToSocket c d s) as [[[]|e] s'] eqn:Hw;
    [| discriminate Hret] end.
  destruct (falls_back timestamp); cbn in *; rewrite <- Hw; reflexivity.
Qed.

End OneValue.

(** ** The end-to-end scenario *)

Lemma lastTransmission_recorded (path timestamp : JsValue) (st : State)
    (id : nat) (sock : Socket) (chunk : string) :
  lastTransmission (delivered id sock chunk (recorded path timestamp st)) path
  = clock st 1%nat.
Proof.
  unfold lastTransmission, delivered, recorded.
  destruct (falls_back timestamp); cbn; rewrite lookup_insert_eq; reflexivity.
Qed.

(** C1. The value [{path: navigation.speedOverGround, value: 5.1,
    timestamp: 1694458123, $source: gps.0}], arriving when its path has no
    throttle record, the sensor rate is left at its default of 2000 ms and
    the sensor socket accepts writes, is classified as sensor and makes
    exactly one write, to the sensor socket, of the record [{path, time:
    1694458123000, value: 5.1, source: gps.0}] as one JSON line; the same
    value 500 ms later on the clock makes no write. *)
Theorem speed_over_ground_scenario (st : State) (opts : Options)
    (id : nat) (sock : Socket) (t : Z) :
  options st = Some opts ->
  sensorSampleRate opts = None ->
  lastTransmissionTimes st !! "navigation.speedOverGround" = None ->
  entry (socketClients st) "sensor" = Some id ->
  sockets st !! id = Some sock ->
  destroyed sock = false ->
  writable sock = true ->
  clock st 0%nat = t ->
  2000 <= t ->
  t <= clock st 1%nat ->
  clock st 2%nat = t + 500 ->
  let st1 := (processValueObj Date_parse speed_event st).2 in
  let st2 := (processValueObj Date_parse speed_event st1).2 in
  categorizeData (JStr "navigation.speedOverGround") = "sensor"
  /\ sockets st1 = <[id := received (json_line speed_record) sock]> (sockets st)
  /\ json_line speed_record =
       with_quotes "{'path':'navigation.speedOverGround','time':1694458123000,'value':5.1,'source':'gps.0'}"
       +:+ newline
  /\ sockets st2 = sockets st1
  /\ log st2 = log st1.
Proof.
  intros Hopts Hrate Hnone Hentry Hsock Hd Hw Ht Hepoch Hmono Hlater st1 st2.
  assert (Hinterval : interval opts "sensor" = 2000).
  { unfold interval, configured. cbn. rewrite Hrate. reflexivity. }
  assert (Hfirst : processValueObj Date_parse speed_event st =
                   (Normal tt, delivered id sock (json_line speed_record)
                                 (recorded (JStr "navigation.speedOverGround")
                                    (JNum 1694458123) st))).
  { unfold speed_event.
    rewrite processValueObj_forwards by (vm_compute; reflexivity).
    rewrite (forward_allowed st _ opts Hopts).
    - apply writeToSocket_delivers; assumption.
    - change (categorizeData _) with "sensor". rewrite Hinterval.
      unfold lastTransmission. cbn. rewrite Hnone. cbn. lia. }
  assert (Hst1 : st1 = delivered id sock (json_line speed_record)
                         (recorded (JStr "navigation.speedOverGround")
                            (JNum 1694458123) st)).
  { unfold st1. rewrite Hfirst. reflexivity. }
  assert (Hsecond : processValueObj Date_parse speed_event st1 = (Normal tt, tick st1)).
  { unfold speed_event.
    rewrite processValueObj_forwards by (vm_compute; reflexivity).
    apply (forward_throttled st1 _ opts).
    - rewrite Hst1. exact Hopts.
    - change (categorizeData _) with "sensor". rewrite Hinterval.
      change (get _ "path") with (JStr "navigation.speedOverGround").
      rewrite Hst1, lastTransmission_recorded. cbn. lia. }
  split; [vm_compute; reflexivity |].
  split; [rewrite Hst1; reflexivity |].
  split; [vm_compute; reflexivity |].
  unfold st2. rewrite Hsecond. split; reflexivity.
Qed.

(** ** The throttle rule *)

(** A write, delivered or skipped, leaves the throttle state, the
    configuration and the clock alone. *)
Lemma writeToSocket_frame (st : State) (category : string) (data : JsValue) :
  let st' := (writeToSocket category data st).2 in
  options st' = options st
  /\ lastTransmissionTimes st' = lastTransmissionTimes st
  /\ clock st' = clock st.
Proof.
  unfold writeToSocket. exec.
  destruct (entry (socketClients st) category) as [id|]; [| cbn; auto].
  destruct (sockets st !! id) as [sock|] eqn:Hsock; [| cbn; auto].
  destruct (destroyed sock), (writable sock); cbn; auto.
  unfold socket_write, update_socket. exec. rewrite Hsock. cbn. auto.
Qed.

(** C2. With [I] the minimum interval in force for a category (the
    configured rate, or the category's default when none is configured),
    [shouldTransmit] allows a path iff [now - lastTransmission(path) >= I],
    where [now] is the reading of the clock it takes and the last
    transmission of a path never seen is 0; this for every path that is
    not the name of a property the throttle map inherits as a plain
    object, which are the paths [processValueObj] can call it with.  After
    a value accepted at time [t], a value on the same path at [t + I - 1]
    is disallowed and changes nothing, and one at exactly [t + I] is
    allowed. *)
Theorem throttle_rule (st : State) (opts : Options) (category : string) (I : Z) :
  options st = Some opts ->
  interval opts category = I ->
  (forall rate, configured opts category = Some rate -> rate <> 0 -> I = rate)
  /\ (forall path timestamp,
        ToString path ∉ Object_prototype_names ->
        exists allowed,
          shouldTransmit path category timestamp st = (Normal allowed, tick st)
          /\ (allowed = true <-> clock st 0%nat - lastTransmission st path >= I)
          /\ (lastTransmissionTimes st !! ToString path = None ->
              (allowed = true <-> clock st 0%nat - 0 >= I)))
  /\ (forall props t,
        let valueObj := JObj props in
        let path := get valueObj "path" in
        let value := get valueObj "value" in
        let timestamp := get valueObj "timestamp" in
        invalid path value timestamp = false ->
        categorizeData path = category ->
        String.eqb category "dump" = false ->
        zero_position category value = false ->
        clock st 0%nat = t ->
        clock st 1%nat = t ->
        t - lastTransmission st path >= I ->
        let st1 := (processValueObj Date_parse valueObj st).2 in
        lastTransmission st1 path = t
        /\ (clock st1 0%nat = t + I - 1 ->
            (shouldTransmit path category timestamp st1).1 = Normal false
            /\ processValueObj Date_parse valueObj st1 = (Normal tt, tick st1))
        /\ (clock st1 0%nat = t + I ->
            (shouldTransmit path category timestamp st1).1 = Normal true)).
Proof.
  intros Hopts HI. split; [| split].
  - intros rate Hrate Hnz. rewrite <- HI. unfold interval. rewrite Hrate. cbn.
    destruct (Z.eqb_spec rate 0); [contradiction | reflexivity].
  - intros path timestamp _.
    exists (I <=? clock st 0%nat - lastTransmission st path).
    split; [rewrite <- HI; apply shouldTransmit_eq; exact Hopts |].
    split; [rewrite Z.leb_le; lia |].
    intros Hnone. unfold lastTransmission. rewrite Hnone. cbn.
    rewrite Z.leb_le. lia.
  - intros props t valueObj path value timestamp Hinv Hcat Hdump Hzero Ht0 Ht1 Hok st1.
    assert (Hst1 : st1 = (writeToSocket category
                            (measurement path (normalized_time Date_parse timestamp (clock st 2%nat))
                               value (source_of valueObj))
                            (recorded path timestamp st)).2).
    { unfold st1, valueObj.
      rewrite processValueObj_forwards; try assumption;
        [| fold valueObj path; rewrite Hcat; assumption
         | fold valueObj path value; rewrite Hcat; assumption ].
      fold valueObj path value timestamp. rewrite Hcat.
      pose proof (forward_allowed st props opts Hopts) as Hfw.
      fold valueObj path value timestamp in Hfw. rewrite Hcat in Hfw.
      rewrite Hfw; [reflexivity |]. rewrite HI, Ht0. lia. }
    destruct (writeToSocket_frame (recorded path timestamp st) category
                (measurement path (normalized_time Date_parse timestamp (clock st 2%nat))
                   value (source_of valueObj))) as (Ho & Hl & Hc).
    rewrite <- Hst1 in Ho, Hl, Hc.
    assert (Hopts1 : options st1 = Some opts).
    { rewrite Ho. unfold recorded. destruct (falls_back timestamp); exact Hopts. }
    assert (Hlast : lastTransmission st1 path = t).
    { unfold lastTransmission. rewrite Hl. unfold recorded.
      destruct (falls_back timestamp); cbn; rewrite lookup_insert_eq; exact Ht1. }
    split; [exact Hlast |]. split.
    + intros Hnow. split.
      * rewrite (shouldTransmit_eq st1 opts) by exact Hopts1. cbn [fst].
        rewrite HI, Hlast, Hnow. f_equal. apply Z.leb_gt. lia.
      * unfold valueObj.
        rewrite processValueObj_forwards; try assumption;
          [| fold valueObj path; rewrite Hcat; assumption
           | fold valueObj path value; rewrite Hcat; assumption ].
        apply (forward_throttled st1 props opts Hopts1).
        fold valueObj path. rewrite Hcat, HI, Hlast, Hnow. lia.
    + intros Hnow.
      rewrite (shouldTransmit_eq st1 opts) by exact Hopts1. cbn [fst].
      rewrite HI, Hlast, Hnow. f_equal. apply Z.leb_le. lia.
Qed.

(** ** The filters *)

Lemma structured_typeof (v : JsValue) :
  structured v = ToBoolean v && String.eqb (typeof v) "object".
Proof. destruct v as [| |b|x|s|l|l]; try reflexivity; cbn; apply eq_sym, andb_false_r. Qed.

Lemma zero_position_eq (value : JsValue) :
  zero_position "position" value =
    structured value
    && (PrimFloat.eqb (ToNumber (get value "latitude")) 0
        || PrimFloat.eqb (ToNumber (get value "longitude")) 0).
Proof. unfold zero_position. rewrite structured_typeof. reflexivity. Qed.

(** What the degenerate-position test decides for a valid value
    classified as position. *)
Lemma position_filter_decides (st : State) (props : list (string * JsValue)) :
  let valueObj := JObj props in
  let path := get valueObj "path" in
  let value := get valueObj "value" in
  let timestamp := get valueObj "timestamp" in
  let latitude := ToNumber (get value "latitude") in
  let longitude := ToNumber (get value "longitude") in
  invalid path value timestamp = false ->
  categorizeData path = "position" ->
  structured value = true ->
  (PrimFloat.eqb latitude 0 = true \/ PrimFloat.eqb longitude 0 = true ->
   processValueObj Date_parse valueObj st =
     (Normal tt, set_log (log st ++ [(debug, "Discarding position with zero lat/lon")]) st))
  /\ (PrimFloat.eqb latitude 0 = false -> PrimFloat.eqb longitude 0 = false ->
      processValueObj Date_parse valueObj st =
        try_catch (forward Date_parse valueObj path value timestamp "position") handler st).
Proof.
  intros valueObj path value timestamp latitude longitude Hinv Hcat Hobj.
  assert (Hdump : String.eqb (categorizeData path) "dump" = false)
    by (rewrite Hcat; reflexivity).
  split.
  - intros Hzero. apply processValueObj_zero_position; try assumption.
    fold valueObj path value. rewrite Hcat, zero_position_eq, Hobj, andb_true_l.
    apply orb_true_iff. exact Hzero.
  - intros Hlat Hlon.
    assert (Hpass : zero_position (categorizeData path) value = false).
    { rewrite Hcat, zero_position_eq, Hobj, andb_true_l.
      apply orb_false_iff. split; assumption. }
    unfold valueObj. rewrite processValueObj_forwards by assumption.
    fold valueObj path value timestamp. rewrite Hcat. reflexivity.
Qed.



(** What is falsy. *)
Lemma ToBoolean_false (v : JsValue) :
  ToBoolean v = false <->
  v = JUndefined \/ v = JNull \/ v = JBool false \/ v = JStr ""
  \/ exists x, v = JNum x /\ (PrimFloat.eqb x 0 = true \/ PrimFloat.is_nan x = true).
Proof.
  split.
  - destruct v as [| |b|x|s|l|l]; cbn; intros H; auto; try discriminate.
    + destruct b; [discriminate | auto].
    + apply negb_false_iff, orb_true_iff in H. do 4 right. exists x. auto.
    + apply negb_false_iff, String.eqb_eq in H. subst. auto.
  - intros [-> | [-> | [-> | [-> | (x & -> & H)]]]]; try reflexivity.
    cbn. apply negb_false_iff, orb_true_iff. exact H.
Qed.

(** C9. [processValueObj] returns at its validity filter, having done
    nothing, exactly when the path is falsy, the value is [undefined] or
    the timestamp is falsy; otherwise it goes on to classify the path.  A
    timestamp that is the number 0 or the empty string is falsy, so the
    value is dropped; a value of [null] is not [undefined], so it passes
    and is forwarded like any other. *)
Theorem validity_filter (st : State) (props : list (string * JsValue)) :
  let valueObj := JObj props in
  let path := get valueObj "path" in
  let value := get valueObj "value" in
  let timestamp := get valueObj "timestamp" in
  (invalid path value timestamp = true <->
   ToBoolean path = false \/ value = JUndefined \/ ToBoolean timestamp = false)
  /\ (invalid path value timestamp = true ->
      processValueObj Date_parse valueObj st = (Normal tt, st))
  /\ (invalid path value timestamp = false ->
      processValueObj Date_parse valueObj st =
        try_catch (classify_and_forward Date_parse valueObj path value timestamp)
          handler st)
  /\ (timestamp = JNum 0 \/ timestamp = JStr "" ->
      processValueObj Date_parse valueObj st = (Normal tt, st))
  /\ (value = JNull -> ToBoolean path = true -> ToBoolean timestamp = true ->
      invalid path value timestamp = false
      /\ forall opts id sock,
           String.eqb (categorizeData path) "dump" = false ->
           options st = Some opts ->
           interval opts (categorizeData path)
             <= clock st 0%nat - lastTransmission st path ->
           entry (socketClients st) (categorizeData path) = Some id ->
           sockets st !! id = Some sock ->
           destroyed sock = false ->
           writable sock = true ->
           processValueObj Date_parse valueObj st =
             (Normal tt,
              delivered id sock
                (json_line (measurement path
                              (normalized_time Date_parse timestamp (clock st 2%nat))
                              JNull (source_of valueObj)))
                (recorded path timestamp st))).
Proof.
  intros valueObj path value timestamp.
  assert (Hiff : invalid path value timestamp = true <->
                 ToBoolean path = false \/ value = JUndefined
                 \/ ToBoolean timestamp = false).
  { unfold invalid. rewrite !orb_true_iff, !negb_true_iff.
    destruct value; split; intros H; try tauto;
      destruct H as [[H | H] | H] || destruct H as [H | [H | H]];
      auto; discriminate. }
  split; [exact Hiff |].
  split; [apply processValueObj_invalid |].
  split.
  { intros Hvalid. unfold processValueObj, try_catch, handler.
    cbv beta iota delta [valueObj].
    change (invalid _ _ _) with (invalid path value timestamp).
    rewrite Hvalid. reflexivity. }
  split.
  { intros Hts. apply processValueObj_invalid. fold valueObj path value timestamp.
    apply Hiff. right; right. destruct Hts as [-> | ->]; reflexivity. }
  intros Hnull Hpath Hts.
  assert (Hvalid : invalid path value timestamp = false).
  { unfold invalid. rewrite Hnull, Hpath, Hts. reflexivity. }
  split; [exact Hvalid |].
  intros opts id sock Hdump Hopts Hok Hentry Hsock Hd Hw.
  unfold valueObj. rewrite processValueObj_forwards; try assumption.
  - rewrite (forward_allowed st props opts Hopts) by exact Hok.
    fold valueObj path value timestamp. rewrite Hnull.
    apply writeToSocket_delivers; try assumption.
    + unfold recorded. destruct (falls_back timestamp); exact Hentry.
    + unfold recorded. destruct (falls_back timestamp); exact Hsock.
  - fold valueObj path value. rewrite Hnull. unfold zero_position. cbn.
    apply andb_false_r.
Qed.

(** ** Timestamps that do not parse *)

(** A timestamp that is neither a string nor a number is replaced by the
    next reading of the clock. *)
Lemma other_timestamps_fall_back (timestamp : JsValue) (st : State) :
  falls_back timestamp = true ->
  timestamp_to_ms Date_parse timestamp st = (Normal (of_Z (clock st 0%nat)), tick st).
Proof.
  intros Hother. rewrite timestamp_to_ms_eq, Hother.
  destruct timestamp; try discriminate Hother; reflexivity.
Qed.

(** C5 (what the code does instead).  For a timestamp that is a string
    [Date.parse] does not recognise, the time of the record is [NaN], which
    JSON prints as [null]: the string branch of the conversion has no
    fallback, the clock is not read for it, and the value is forwarded
    with that time. *)
Theorem unparseable_timestamp_becomes_NaN (st : State) (props : list (string * JsValue))
    (text : string) :
  let valueObj := JObj props in
  let path := get valueObj "path" in
  let value := get valueObj "value" in
  let timestamp := get valueObj "timestamp" in
  timestamp = JStr text ->
  Date_parse text = nan ->
  timestamp_to_ms Date_parse timestamp st = (Normal nan, st)
  /\ SerializeJSONProperty (JNum nan) = Some "null"
  /\ forall opts id sock,
       invalid path value timestamp = false ->
       String.eqb (categorizeData path) "dump" = false ->
       zero_position (categorizeData path) value = false ->
       options st = Some opts ->
       interval opts (categorizeData path) <= clock st 0%nat - lastTransmission st path ->
       entry (socketClients st) (categorizeData path) = Some id ->
       sockets st !! id = Some sock ->
       destroyed sock = false ->
       writable sock = true ->
       processValueObj Date_parse valueObj st =
         (Normal tt,
          delivered id sock
            (json_line (measurement path nan value (source_of valueObj)))
            (recorded path timestamp st)).
Proof.
  intros valueObj path value timestamp Hts Hparse.
  assert (Htime : forall now, normalized_time Date_parse timestamp now = nan).
  { intros now. rewrite Hts. unfold normalized_time, Date_getTime.
    rewrite Hparse. vm_compute. reflexivity. }
  split; [| split; [reflexivity |]].
  - rewrite timestamp_to_ms_eq, Htime, Hts. reflexivity.
  - intros opts id sock Hvalid Hdump Hzero Hopts Hok Hentry Hsock Hd Hw.
    unfold valueObj. rewrite processValueObj_forwards by assumption.
    rewrite (forward_allowed st props opts Hopts) by exact Hok.
    fold valueObj path value timestamp. rewrite Htime.
    apply writeToSocket_delivers; try assumption;
      rewrite Hts; assumption.
Qed.

(** ** Writes and the state of the connection *)

(** C6. [writeToSocket] hands the serialized record to the socket of the
    category when there is one and it is writable and not destroyed;
    otherwise it writes a debug line and does nothing else: the record is
    not kept anywhere, no socket is touched.  Either way it returns
    normally, and so does [processValueObj], whatever value it is given. *)
Theorem write_iff_connection_writable (st : State) (category : string)
    (data : JsValue) :
  (forall id sock,
     entry (socketClients st) category = Some id ->
     sockets st !! id = Some sock ->
     destroyed sock = false ->
     writable sock = true ->
     writeToSocket category data st = (Normal tt, delivered id sock (json_line data) st)
     /\ sockets (delivered id sock (json_line data) st) !! id
        = Some (received (json_line data) sock)
     /\ written (received (json_line data) sock) = written sock ++ [json_line data])
  /\ (entry (socketClients st) category = None
      \/ (exists id sock,
            entry (socketClients st) category = Some id
            /\ sockets st !! id = Some sock
            /\ (destroyed sock = true \/ writable sock = false)) ->
      writeToSocket category data st = (Normal tt, skipped category st)
      /\ sockets (skipped category st) = sockets st
      /\ log (skipped category st)
         = log st ++ [(debug, "Socket not available for category " +:+ category
                               +:+ ", skipping data write")])
  /\ (writeToSocket category data st).1 = Normal tt
  /\ (forall valueObj, (processValueObj Date_parse valueObj st).1 = Normal tt).
Proof.
  split; [| split; [| split]].
  - intros id sock Hentry Hsock Hd Hw. split; [| split].
    + apply writeToSocket_delivers; assumption.
    + unfold delivered. cbn. apply list_lookup_insert_eq.
      apply lookup_lt_is_Some. eauto.
    + reflexivity.
  - intros Hno. split; [| split; reflexivity].
    destruct Hno as [Hnone | (id & sock & Hentry & Hsock & Hflags)].
    + apply writeToSocket_skips_missing. exact Hnone.
    + apply (writeToSocket_skips_unwritable st category data id sock); assumption.
  - apply writeToSocket_returns.
  - intros valueObj. apply processValueObj_returns.
Qed.

(** ** The serialization *)

Lemma append_assoc (a b c : string) : (a +:+ b) +:+ c = a +:+ (b +:+ c).
Proof.
  induction a as [|x a IH]; [reflexivity |].
  change (String x ((a +:+ b) +:+ c) = String x (a +:+ (b +:+ c))).
  rewrite IH. reflexivity.
Qed.

Lemma serializes_unless_undefined (v : JsValue) :
  v <> JUndefined -> exists text, SerializeJSONProperty v = Some text.
Proof. destruct v; cbn; eauto. congruence. Qed.

(** C8 (as the code has it).  Whatever the configuration, the chunk
    written for a record is its JSON text and a newline (for a measurement:
    one object with the members path, time, value and source, in this
    order).  The pipe-delimited encoding exists, as [serializeData], with
    the pipe escaped in the source and in string values, but the write path
    does not use it and no option selects it. *)
Theorem json_line_whatever_the_options (st : State) (opts : option Options)
    (category : string) (data : JsValue) (id : nat) (sock : Socket) :
  entry (socketClients st) category = Some id ->
  sockets st !! id = Some sock ->
  destroyed sock = false ->
  writable sock = true ->
  writeToSocket category data (set_options opts st)
    = (Normal tt, delivered id sock (json_line data) (set_options opts st))
  /\ (forall path time value source,
        path <> JUndefined -> value <> JUndefined -> source <> JUndefined ->
        exists ptext ttext vtext stext,
          SerializeJSONProperty path = Some ptext
          /\ SerializeJSONProperty (JNum time) = Some ttext
          /\ SerializeJSONProperty value = Some vtext
          /\ SerializeJSONProperty source = Some stext
          /\ json_line (measurement path time value source)
             = "{" +:+ (with_quotes "'path':" +:+ ptext +:+ with_quotes ",'time':" +:+ ttext
                        +:+ with_quotes ",'value':" +:+ vtext
                        +:+ with_quotes ",'source':" +:+ stext)
                   +:+ "}" +:+ newline)
  /\ (forall ms path source value,
        source <> "" ->
        serializeData Date_parse
          (JObj [ ("path", JStr path); ("timestamp", JNum ms);
                  ("value", JStr value); ("source", JStr source) ]) st
        = let line :=
            Number_toString (normalized_time Date_parse (JNum ms) 0) +:+ "|" +:+ path +:+ "|"
            +:+ escape_pipes source +:+ "|" +:+ escape_pipes value +:+ newline in
          (Normal (JStr line),
           set_log (log st ++ [(debug, "Serialized data: "
                                        +:+ trim_end (trim_start line))]) st)).
Proof.
  intros Hentry Hsock Hd Hw. split; [| split].
  - apply writeToSocket_delivers; assumption.
  - intros path time value source Hp Hv Hs.
    destruct (serializes_unless_undefined path Hp) as [ptext Hpt].
    destruct (serializes_unless_undefined value Hv) as [vtext Hvt].
    destruct (serializes_unless_undefined source Hs) as [stext Hst].
    destruct (serializes_unless_undefined (JNum time)) as [ttext Htt]; [discriminate |].
    exists ptext, ttext, vtext, stext. repeat (split; [assumption |]).
    unfold json_line, JSON_stringify, measurement.
    cbn [SerializeJSONProperty omap list_omap fst snd].
    cbn [SerializeJSONProperty] in Htt. injection Htt as <-.
    rewrite Hpt, Hvt, Hst. cbn. rewrite !append_assoc. reflexivity.
  - intros ms path source value Hsrc. unfold serializeData. exec.
    destruct (String.eqb_spec source ""); [contradiction |]. reflexivity.
Qed.

End Properties.

(* ===================================================================== *)
(** * The reconnect supervision *)
(* ===================================================================== *)

(** ** What a statement leaves alone

    [keeps view m]: running [m] does not change the [view] of the state. *)
Section Keeps.

Context {V : Type} (view : State -> V).

Lemma keeps_ret {A : Type} (a : A) : keeps view (mret a).
Proof. intros st. reflexivity. Qed.

Lemma keeps_gets {A : Type} (f : State -> A) : keeps view (gets f).
Proof. intros st. reflexivity. Qed.

Lemma keeps_throw {A : Type} (e : JsError) : keeps view (throw (A := A) e).
Proof. intros st. reflexivity. Qed.

Lemma keeps_modify (f : State -> State) :
  (forall st, view (f st) = view st) -> keeps view (modify f).
Proof. intros Hf st. apply Hf. Qed.

Lemma keeps_bind {A B : Type} (m : M A) (f : A -> M B) :
  keeps view m -> (forall a, keeps view (f a)) -> keeps view (m ≫= f).
Proof.
  intros Hm Hf st. unfold mbind, M_bind. specialize (Hm st).
  destruct (m st) as [[a|e] st']; cbn in *; [| exact Hm].
  rewrite Hf. exact Hm.
Qed.

Lemma keeps_try_catch {A : Type} (m : M A) (h : JsError -> M A) :
  keeps view m -> (forall e, keeps view (h e)) -> keeps view (try_catch m h).
Proof.
  intros Hm Hh st. unfold try_catch. specialize (Hm st).
  destruct (m st) as [[a|e] st']; cbn in *; [exact Hm |].
  rewrite Hh. exact Hm.
Qed.

Lemma keeps_forEach {A : Type} (l : list A) (f : A -> M unit) :
  (forall a, keeps view (f a)) -> keeps view (forEach l f).
Proof.
  intros Hf. induction l as [|x l IH]; cbn [forEach].
  - apply keeps_ret.
  - apply keeps_bind; [apply Hf | intros _; exact IH].
Qed.

End Keeps.

(** Taking a statement apart along its binds and branches. *)
Create HintDb keeps.

Ltac keeps_step :=
  first
    [ solve [auto 1 with keeps nocore]
    | apply keeps_ret
    | apply keeps_gets
    | apply keeps_throw
    | apply keeps_bind
    | apply keeps_try_catch
    | apply keeps_forEach
    | apply keeps_modify; intros; reflexivity
    | match goal with
      | |- keeps _ (if ?b then _ else _) => destruct b
      | |- keeps _ (match ?x with _ => _ end) => destruct x
      end
    | progress intros
    | progress cbv zeta ].

Ltac keeps_all := repeat keeps_step.

Lemma update_socket_length (id : nat) (f : Socket -> Socket) (st : State) :
  length (sockets (update_socket id f st)) = length (sockets st).
Proof.
  unfold update_socket. destruct (sockets st !! id); [| reflexivity].
  cbn. apply length_insert.
Qed.

Lemma update_socket_supervision (id : nat) (f : Socket -> Socket) (st : State) :
  supervision (update_socket id f st) = supervision st.
Proof.
  unfold supervision. rewrite update_socket_length.
  unfold update_socket. destruct (sockets st !! id); reflexivity.
Qed.

Lemma keeps_update_socket (id : nat) (f : Socket -> Socket) :
  keeps supervision (modify (update_socket id f)).
Proof. apply keeps_modify. apply update_socket_supervision. Qed.

Lemma keeps_Date_now : keeps supervision Date_now.
Proof. intros st. reflexivity. Qed.

#[local] Hint Resolve keeps_update_socket keeps_Date_now : keeps.

Lemma keeps_writeToSocket (category : string) (data : JsValue) :
  keeps supervision (writeToSocket category data).
Proof.
  unfold writeToSocket, app_debug, app_error, socket_write.
  keeps_all.
Qed.

#[local] Hint Resolve keeps_writeToSocket : keeps.

Lemma keeps_processValueObj (Date_parse : string -> float) (valueObj : JsValue) :
  keeps supervision (processValueObj Date_parse valueObj).
Proof.
  unfold processValueObj, classify_and_forward, forward, shouldTransmit,
    plugin_options, timestamp_to_ms, app_debug, app_error.
  keeps_all.
Qed.

(** ** Pending timers *)

Lemma entry_insert_eq {V : Type} (m : gmap string (option V)) (k : string)
    (v : option V) :
  entry (<[k := v]> m) k = v.
Proof. unfold entry. rewrite lookup_insert_eq. destruct v; reflexivity. Qed.

Lemma entry_insert_ne {V : Type} (m : gmap string (option V)) (k k' : string)
    (v : option V) :
  k <> k' -> entry (<[k := v]> m) k' = entry m k'.
Proof. intros Hne. unfold entry. rewrite lookup_insert_ne by exact Hne. reflexivity. Qed.

Lemma tracked_unique (st : State) (category : string) (id1 id2 : nat) :
  timers_tracked st ->
  pending st id1 category -> pending st id2 category -> id1 = id2.
Proof.
  intros Htr H1 H2. apply Htr in H1, H2. congruence.
Qed.

Lemma tracked_supervision (st st' : State) :
  supervision st' = supervision st -> timers_tracked st -> timers_tracked st'.
Proof.
  unfold supervision, timers_tracked, pending. intros Heq Htr id category.
  injection Heq as _ Ht Hr _. rewrite Ht, Hr. apply Htr.
Qed.

Lemma stopped_supervision (st st' : State) :
  supervision st' = supervision st -> stopped st -> stopped st'.
Proof.
  unfold supervision, stopped, pending. intros Heq [Hs Hp].
  injection Heq as Hs' Ht _ _. rewrite Hs', Ht. split; assumption.
Qed.

Lemma scheduleReconnection_noop (category : string) (st : State) :
  isShuttingDown st = true \/ is_Some (entry (reconnectTimers st) category) ->
  scheduleReconnection category st = (Normal tt, st).
Proof.
  intros Hguard. unfold scheduleReconnection. exec.
  destruct Hguard as [-> | Hsome]; [reflexivity |].
  rewrite (bool_decide_eq_true_2 _ Hsome), orb_true_r. reflexivity.
Qed.

Lemma scheduleReconnection_arms (category : string) (st : State) :
  isShuttingDown st = false ->
  entry (reconnectTimers st) category = None ->
  scheduleReconnection category st = (Normal tt, armed category st).
Proof.
  intros Hs Hnone. unfold scheduleReconnection. exec.
  rewrite Hs, Hnone. reflexivity.
Qed.

Lemma armed_tracked (category : string) (st : State) :
  entry (reconnectTimers st) category = None ->
  timers_tracked st -> timers_tracked (armed category st).
Proof.
  intros Hnone Htr id c. unfold pending, armed. cbn. intros Hp.
  destruct (decide (id < length (timeouts st))%nat) as [Hlt | Hge].
  - rewrite lookup_app_l in Hp by exact Hlt.
    assert (Hc : category <> c).
    { intros ->. apply Htr in Hp. congruence. }
    rewrite entry_insert_ne by exact Hc. apply Htr. exact Hp.
  - rewrite lookup_app_r in Hp by lia.
    destruct (id - length (timeouts st))%nat as [|k] eqn:Hk; [| destruct k; discriminate].
    injection Hp as <-. rewrite entry_insert_eq. f_equal. lia.
Qed.

Lemma pending_cancelled (id : nat) (category : string) (st : State)
    (id' : nat) (c : string) :
  pending (cancelled id category st) id' c -> id' <> id /\ pending st id' c.
Proof.
  unfold pending, cancelled. cbn. intros Hp.
  destruct (decide (id = id')) as [<- | Hne].
  - destruct (decide (id < length (timeouts st))%nat) as [Hlt | Hge].
    + rewrite list_lookup_insert_eq in Hp by exact Hlt. discriminate.
    + rewrite list_insert_ge in Hp by lia.
      rewrite lookup_ge_None_2 in Hp by lia. discriminate.
  - rewrite list_lookup_insert_ne in Hp by exact Hne. split; [congruence | exact Hp].
Qed.

Lemma cancelled_tracked (id : nat) (category : string) (st : State) :
  entry (reconnectTimers st) category = Some id \/ pending st id category ->
  timers_tracked st -> timers_tracked (cancelled id category st).
Proof.
  intros Hid Htr id' c Hp.
  apply pending_cancelled in Hp as [Hne Hp].
  assert (Hentry : entry (reconnectTimers st) category = Some id).
  { destruct Hid as [H | H]; [exact H | apply Htr; exact H]. }
  assert (Hc : category <> c).
  { intros ->. apply Htr in Hp. congruence. }
  unfold cancelled. cbn. rewrite entry_insert_ne by exact Hc. apply Htr. exact Hp.
Qed.

(** ** The handlers *)

Lemma tracked_timer_view (st st' : State) :
  timer_view st' = timer_view st -> timers_tracked st -> timers_tracked st'.
Proof.
  unfold timer_view, timers_tracked, pending. intros Heq Htr id category.
  injection Heq as _ Ht Hr. rewrite Ht, Hr. apply Htr.
Qed.

Lemma keeps_timer_view_of_supervision {A : Type} (m : M A) :
  keeps supervision m -> keeps timer_view m.
Proof.
  intros Hm st. specialize (Hm st). unfold supervision in Hm.
  injection Hm as Hs Ht Hr _. unfold timer_view. rewrite Hs, Ht, Hr. reflexivity.
Qed.

Lemma connectToSocket_shutting_down (category : string) (st : State) :
  isShuttingDown st = true -> connectToSocket category st = (Normal tt, st).
Proof. intros Hs. unfold connectToSocket. exec. rewrite Hs. reflexivity. Qed.

Lemma keeps_connectToSocket (category : string) :
  keeps timer_view (connectToSocket category).
Proof.
  unfold connectToSocket, app_debug, net_createConnection.
  keeps_all.
Qed.

#[local] Hint Resolve keeps_connectToSocket : keeps.

Lemma keeps_plugin_start (opts : option Options) :
  keeps timer_view (plugin_start opts).
Proof. unfold plugin_start, subscribeToDeltas, app_debug. keeps_all. Qed.

Section Handlers.

Variable Date_parse : string -> float.

(** The callback of a timeout, from the moment the timeout fires. *)
Lemma timeout_fires (st : State) (id : nat) (category : string) :
  pending st id category ->
  timer_view (step Date_parse st (TimeoutFires id))
  = timer_view (cancelled id category st).
Proof.
  intros Hp. unfold step, handle. exec. rewrite Hp. exec.
  unfold reconnect. exec.
  destruct (isShuttingDown st) eqn:Hs; cbn; [unfold timer_view; cbn; congruence |].
  match goal with |- context [connectToSocket ?c ?s] =>
    pose proof (keeps_connectToSocket c s) as Hk;
    destruct (connectToSocket c s) as [[[]|e] s'] end;
    cbn in *; rewrite Hk; unfold timer_view; cbn; congruence.
Qed.

Lemma timeout_fires_not_pending (st : State) (id : nat) :
  (forall category, ~ pending st id category) ->
  step Date_parse st (TimeoutFires id) = st.
Proof.
  intros Hno. unfold step, handle. exec.
  destruct (timeouts st !! id) as [[category|]|] eqn:Hl; try reflexivity.
  exfalso. exact (Hno category Hl).
Qed.

(** A socket closes: its flags change, and a timeout is armed unless the
    plugin is shutting down or remembers a timer for the category. *)
Lemma socket_closes (st : State) (id : nat) (hadError : bool) :
  let st' := step Date_parse st (SocketClose id hadError) in
  supervision st' = supervision st
  \/ exists sock,
       sockets st !! id = Some sock
       /\ isShuttingDown st = false
       /\ entry (reconnectTimers st) (sock_category sock) = None
       /\ timer_view st' = timer_view (armed (sock_category sock) st).
Proof.
  unfold step, handle. exec.
  destruct (sockets st !! id) as [sock|] eqn:Hsock; [| left; reflexivity].
  destruct (closed sock); [left; reflexivity |].
  exec. unfold on_close, update_socket. exec. rewrite Hsock. cbn.
  destruct (isShuttingDown st) eqn:Hs; cbn.
  - left. unfold supervision. cbn. rewrite length_insert, Hs. reflexivity.
  - destruct (entry (reconnectTimers st) (sock_category sock)) as [tid|] eqn:Hentry.
    + left. rewrite scheduleReconnection_noop by (right; cbn; rewrite Hentry; eauto).
      unfold supervision. cbn. rewrite length_insert, Hs. reflexivity.
    + right. exists sock. repeat (split; [reflexivity || assumption |]).
      rewrite scheduleReconnection_arms by assumption. reflexivity.
Qed.

(** ** Stopping *)

Lemma clear_timer_eq (category : string) (st : State) :
  clear_timer category st =
    (Normal tt,
     match entry (reconnectTimers st) category with
     | Some id => cancelled id category st
     | None => st
     end).
Proof.
  unfold clear_timer. exec.
  destruct (entry (reconnectTimers st) category); reflexivity.
Qed.

Lemma cancelled_entry_None (id : nat) (category k : string) (st : State) :
  k = category \/ entry (reconnectTimers st) k = None ->
  entry (reconnectTimers (cancelled id category st)) k = None.
Proof.
  unfold cancelled. cbn. destruct (decide (category = k)) as [<- | Hne].
  - intros _. apply entry_insert_eq.
  - intros [-> | H]; [contradiction |]. rewrite entry_insert_ne by exact Hne. exact H.
Qed.

Lemma clear_timers_loop (keys : list string) (st : State) :
  let st' := (forEach keys clear_timer st).2 in
  (forEach keys clear_timer st).1 = Normal tt
  /\ (timers_tracked st -> timers_tracked st')
  /\ (forall id c, pending st' id c -> pending st id c)
  /\ (forall k, k ∈ keys \/ entry (reconnectTimers st) k = None ->
                entry (reconnectTimers st') k = None)
  /\ isShuttingDown st' = isShuttingDown st
  /\ length (sockets st') = length (sockets st).
Proof.
  revert st. induction keys as [|key keys IH]; intros st; cbn [forEach].
  - cbn. repeat split; auto. intros k [Hin | H]; [inversion Hin | exact H].
  - unfold mbind, M_bind. rewrite clear_timer_eq.
    set (st1 := match entry (reconnectTimers st) key with
                | Some id => cancelled id key st
                | None => st
                end).
    destruct (IH st1) as (Hret & Htr & Hpend & Hnone & Hs & Hl).
    assert (Htr1 : timers_tracked st -> timers_tracked st1).
    { unfold st1. destruct (entry (reconnectTimers st) key) as [id|] eqn:He; [| auto].
      apply cancelled_tracked. left. exact He. }
    assert (Hpend1 : forall id c, pending st1 id c -> pending st id c).
    { unfold st1. destruct (entry (reconnectTimers st) key) as [id|]; [| auto].
      intros id' c Hp. apply pending_cancelled in Hp. tauto. }
    assert (Hnone1 : forall k, k = key \/ entry (reconnectTimers st) k = None ->
                               entry (reconnectTimers st1) k = None).
    { unfold st1. destruct (entry (reconnectTimers st) key) as [id|] eqn:He.
      - intros k. apply cancelled_entry_None.
      - intros k [-> | H]; assumption. }
    assert (Hfl1 : isShuttingDown st1 = isShuttingDown st
                   /\ length (sockets st1) = length (sockets st)).
    { unfold st1. destruct (entry (reconnectTimers st) key); split; reflexivity. }
    destruct Hfl1 as [Hs1 Hl1].
    repeat split.
    + exact Hret.
    + auto.
    + auto.
    + intros k [Hin | H].
      * apply elem_of_cons in Hin as [-> | Hin]; [| apply Hnone; left; exact Hin].
        apply Hnone. right. apply Hnone1. left. reflexivity.
      * apply Hnone. right. apply Hnone1. right. exact H.
    + congruence.
    + congruence.
Qed.

Lemma entry_in_keys {V : Type} (m : gmap string (option V)) (k : string) (v : V) :
  entry m k = Some v -> k ∈ Object_keys m.
Proof.
  unfold entry, Object_keys. intros H.
  destruct (m !! k) as [o|] eqn:Hk; [| discriminate].
  apply list_elem_of_fmap. exists (k, o). split; [reflexivity |].
  apply elem_of_map_to_list. exact Hk.
Qed.

(** After the first part of [plugin.stop] no timeout is pending. *)
Lemma clear_timers_clears (st : State) :
  timers_tracked st ->
  let st' := (clear_timers st).2 in
  (clear_timers st).1 = Normal tt
  /\ timers_tracked st'
  /\ (forall id c, ~ pending st' id c)
  /\ isShuttingDown st' = isShuttingDown st
  /\ length (sockets st') = length (sockets st).
Proof.
  intros Htr. unfold clear_timers. exec.
  destruct (clear_timers_loop (Object_keys (reconnectTimers st)) st)
    as (Hret & Htr' & Hpend & Hnone & Hs & Hl).
  repeat split; auto.
  intros id c Hp.
  assert (Hentry : entry (reconnectTimers (forEach (Object_keys (reconnectTimers st))
                                              clear_timer st).2) c = None).
  { apply Hnone. destruct (entry (reconnectTimers st) c) as [tid|] eqn:He; [| auto].
    left. apply (entry_in_keys _ _ tid). exact He. }
  apply Htr' in Hp; [| exact Htr]. congruence.
Qed.

Lemma keeps_stop_rest :
  keeps supervision
    (unsubscribe;; close_clients;; modify (set_lastTransmissionTimes ∅);;
     app_debug "SignalK Categorized Data Forwarder plugin stopped").
Proof.
  unfold unsubscribe, close_clients, close_client, socket_destroy, app_debug.
  keeps_all.
Qed.

Lemma bind_normal {A B : Type} (m : M A) (f : A -> M B) (st st1 : State) (a : A) :
  m st = (Normal a, st1) -> (m ≫= f) st = f a st1.
Proof. intros H. unfold mbind, M_bind. rewrite H. reflexivity. Qed.

Lemma plugin_stop_stops (st : State) :
  timers_tracked st ->
  let st' := (plugin_stop st).2 in
  timers_tracked st' /\ stopped st' /\ length (sockets st') = length (sockets st).
Proof.
  intros Htr. unfold plugin_stop.
  set (rest := unsubscribe;; close_clients;; _).
  erewrite (bind_normal (app_debug _)); [| reflexivity].
  erewrite (bind_normal (modify _)); [| reflexivity].
  set (st1 := set_isShuttingDown true (set_log _ st)).
  assert (Htr1 : timers_tracked st1) by exact Htr.
  destruct (clear_timers_clears st1 Htr1) as (Hret & Htr2 & Hno & Hs & Hl).
  destruct (clear_timers st1) as [[[]|e] st2] eqn:Hclear; [| discriminate Hret].
  rewrite (bind_normal clear_timers _ st1 st2 tt Hclear).
  cbn in Htr2, Hno, Hs, Hl.
  pose proof (keeps_stop_rest st2) as Hk. fold rest in Hk.
  split; [exact (tracked_supervision _ _ Hk Htr2) |].
  split.
  - apply (stopped_supervision st2); [exact Hk |]. split; assumption.
  - unfold supervision in Hk. injection Hk as _ _ _ Hlen. rewrite Hlen. exact Hl.
Qed.

(** ** Every event keeps the invariant *)

#[local] Hint Resolve keeps_processValueObj : keeps.

(** Values and what sockets report, but for their closing, are no
    business of the supervision. *)
Lemma keeps_handle_other (ev : Event) :
  match ev with
  | Value _ | SocketConnect _ | SocketError _ _ | SocketEnd _ => True
  | _ => False
  end ->
  keeps supervision (handle Date_parse ev).
Proof.
  destruct ev; intros H; try contradiction;
    unfold handle, on_connect, on_error, app_debug, app_error; keeps_all.
Qed.

Lemma plugin_start_shutting_down (opts : option Options) (st : State) :
  isShuttingDown st = true ->
  supervision (plugin_start opts st).2 = supervision st.
Proof.
  intros Hs. unfold plugin_start. cbn [forEach fmap list_fmap SOCKET_CONFIG fst].
  erewrite (bind_normal (app_debug _)); [| reflexivity].
  erewrite (bind_normal (modify _)); [| reflexivity].
  erewrite bind_normal.
  2:{ repeat (erewrite (bind_normal (connectToSocket _));
              [| apply connectToSocket_shutting_down; exact Hs]).
      reflexivity. }
  reflexivity.
Qed.

Lemma step_tracked (st : State) (ev : Event) :
  timers_tracked st -> timers_tracked (step Date_parse st ev).
Proof.
  intros Htr. destruct ev as [opts| |v|id|id msg|id|id hadError|id].
  - apply (tracked_timer_view st); [apply keeps_plugin_start | exact Htr].
  - apply plugin_stop_stops. exact Htr.
  - apply (tracked_supervision st); [apply (keeps_handle_other (Value v) I) | exact Htr].
  - apply (tracked_supervision st);
      [apply (keeps_handle_other (SocketConnect id) I) | exact Htr].
  - apply (tracked_supervision st);
      [apply (keeps_handle_other (SocketError id msg) I) | exact Htr].
  - apply (tracked_supervision st);
      [apply (keeps_handle_other (SocketEnd id) I) | exact Htr].
  - destruct (socket_closes st id hadError) as [Hsame | (sock & _ & _ & Hnone & Harmed)].
    + apply (tracked_supervision st); assumption.
    + apply (tracked_timer_view (armed (sock_category sock) st)); [exact Harmed |].
      apply armed_tracked; assumption.
  - destruct (timeouts st !! id) as [[category|]|] eqn:Hl.
    + apply (tracked_timer_view (cancelled id category st)).
      * apply timeout_fires. exact Hl.
      * apply cancelled_tracked; [right; exact Hl | exact Htr].
    + rewrite timeout_fires_not_pending; [exact Htr |].
      intros c Hp. unfold pending in Hp. congruence.
    + rewrite timeout_fires_not_pending; [exact Htr |].
      intros c Hp. unfold pending in Hp. congruence.
Qed.

Lemma step_stopped (st : State) (ev : Event) :
  timers_tracked st -> stopped st ->
  stopped (step Date_parse st ev)
  /\ length (sockets (step Date_parse st ev)) = length (sockets st).
Proof.
  intros Htr Hst.
  assert (Hsame : supervision (step Date_parse st ev) = supervision st ->
                  stopped (step Date_parse st ev)
                  /\ length (sockets (step Date_parse st ev)) = length (sockets st)).
  { intros Hsup. split; [apply (stopped_supervision st); assumption |].
    unfold supervision in Hsup. injection Hsup as _ _ _ Hlen. exact Hlen. }
  destruct ev as [opts| |v|id|id msg|id|id hadError|id].
  - apply Hsame. apply plugin_start_shutting_down. apply Hst.
  - destruct (plugin_stop_stops st Htr) as (_ & Hstop & Hlen). split; assumption.
  - apply Hsame. apply (keeps_handle_other (Value v) I).
  - apply Hsame. apply (keeps_handle_other (SocketConnect id) I).
  - apply Hsame. apply (keeps_handle_other (SocketError id msg) I).
  - apply Hsame. apply (keeps_handle_other (SocketEnd id) I).
  - destruct (socket_closes st id hadError) as [Hsup | (sock & _ & Hs & _)].
    + apply Hsame. exact Hsup.
    + destruct Hst as [Hst _]. congruence.
  - rewrite timeout_fires_not_pending; [split; [exact Hst | reflexivity] |].
    intros c. apply Hst.
Qed.

Lemma initial_tracked (readings : nat -> Z) : timers_tracked (initial readings).
Proof. intros id category Hp. unfold pending in Hp. cbn in Hp. discriminate. Qed.

Lemma run_events_tracked (st : State) (evs : list Event) :
  timers_tracked st -> timers_tracked (run_events Date_parse st evs).
Proof.
  revert st. induction evs as [|ev evs IH]; intros st Htr; [exact Htr |].
  apply IH. apply step_tracked. exact Htr.
Qed.

Lemma run_events_stopped (st : State) (evs : list Event) :
  timers_tracked st -> stopped st ->
  stopped (run_events Date_parse st evs)
  /\ length (sockets (run_events Date_parse st evs)) = length (sockets st).
Proof.
  revert st. induction evs as [|ev evs IH]; intros st Htr Hst; [split; auto |].
  destruct (step_stopped st ev Htr Hst) as [Hst1 Hlen1].
  destruct (IH (step Date_parse st ev) (step_tracked st ev Htr) Hst1) as [Hst2 Hlen2].
  split; [exact Hst2 |]. cbn. unfold run_events in Hlen2. rewrite Hlen2. exact Hlen1.
Qed.

(** C7. In every state the plugin can reach, a category has at most one
    pending reconnect timeout.  While one is pending for a category,
    [scheduleReconnection] does nothing, so that a close event of a socket
    of that category leaves the timeouts as they are.  [plugin.stop]
    leaves no timeout pending, and whatever happens afterwards none
    becomes pending and no socket is created: there is no further
    connection attempt. *)
Theorem one_reconnect_timer_per_category (readings : nat -> Z) (evs : list Event) :
  let st := run_events Date_parse (initial readings) evs in
  (forall category id1 id2,
     pending st id1 category -> pending st id2 category -> id1 = id2)
  /\ (forall category id,
        pending st id category ->
        scheduleReconnection category st = (Normal tt, st)
        /\ forall sid sock hadError,
             sockets st !! sid = Some sock ->
             sock_category sock = category ->
             timeouts (step Date_parse st (SocketClose sid hadError)) = timeouts st)
  /\ (let st' := step Date_parse st Stop in
      (forall id category, ~ pending st' id category)
      /\ forall evs',
           let st'' := run_events Date_parse st' evs' in
           (forall id category, ~ pending st'' id category)
           /\ length (sockets st'') = length (sockets st')).
Proof.
  intros st.
  assert (Htr : timers_tracked st)
    by (apply run_events_tracked, initial_tracked).
  split; [| split].
  - intros category id1 id2. apply tracked_unique. exact Htr.
  - intros category id Hp. apply Htr in Hp. split.
    + apply scheduleReconnection_noop. right. rewrite Hp. eauto.
    + intros sid sock hadError Hsock Hcat.
      destruct (socket_closes st sid hadError) as [Hsame | (sock' & Hsock' & _ & Hnone & _)].
      * unfold supervision in Hsame. injection Hsame as _ Ht _ _. exact Ht.
      * rewrite Hsock in Hsock'. injection Hsock' as <-. congruence.
  - intros st'.
    destruct (plugin_stop_stops st Htr) as (Htr' & Hstop & _).
    fold (step Date_parse st Stop) in Htr', Hstop. fold st' in Htr', Hstop.
    split; [apply Hstop |].
    intros evs' st''.
    destruct (run_events_stopped st' evs' Htr' Hstop) as [[_ Hno] Hlen].
    split; assumption.
Qed.

End Handlers.

(* ===================================================================== *)
(** * The properties at work *)
(* ===================================================================== *)

Ltac by_evaluation :=
  vm_compute; first [reflexivity | let H := fresh in intros H; discriminate H].

(** The timestamps of the Signal K stream: seconds, milliseconds, and
    the textual form. *)
Lemma timestamp_examples :
  normalized_time Date_parse_utc (JNum 1694458123) 0 = 1694458123000%float
  /\ normalized_time Date_parse_utc (JNum 1694458123456) 0 = 1694458123456%float
  /\ normalized_time Date_parse_utc (JStr "2023-09-11T18:48:43.000Z") 0
     = 1694458123000%float
  /\ normalized_time Date_parse_utc (JBool true) 1700000000000 = 1700000000000%float.
Proof. repeat split; vm_compute; reflexivity. Qed.

Lemma speed_over_ground_scenario_witness :
  let st1 := (processValueObj Date_parse_utc speed_event started).2 in
  let st2 := (processValueObj Date_parse_utc speed_event st1).2 in
  written <$> sockets st1 !! 0%nat = Some [json_line speed_record]
  /\ written <$> sockets st2 !! 0%nat = Some [json_line speed_record].
Proof.
  intros st1 st2.
  destruct (speed_over_ground_scenario Date_parse_utc started no_options 0%nat
              sensor_socket 1700000000000)
    as (_ & Hfirst & _ & Hsecond & _); [by_evaluation .. |].
  fold st1 in Hfirst, Hsecond. fold st2 in Hsecond.
  rewrite Hsecond, Hfirst. split; vm_compute; reflexivity.
Defined.

Lemma throttle_rule_witness :
  let first later := (processValueObj Date_parse_utc speed_event (started_then later)).2 in
  (shouldTransmit (JStr "navigation.speedOverGround") "sensor" (JNum 1694458123)
     (first 1999)).1 = Normal false
  /\ (shouldTransmit (JStr "navigation.speedOverGround") "sensor" (JNum 1694458123)
        (first 2000)).1 = Normal true
  /\ (shouldTransmit (JStr "navigation.speedOverGround") "sensor" (JNum 1694458123)
        (started_then 1999)).1 = Normal true.
Proof.
  intros first. split; [| split].
  - destruct (throttle_rule Date_parse_utc (started_then 1999) no_options "sensor" 2000)
      as (_ & _ & Hboundary); [by_evaluation .. |].
    destruct (Hboundary [ ("path", JStr "navigation.speedOverGround"); ("value", JNum 5.1);
                          ("timestamp", JNum 1694458123); ("$source", JStr "gps.0") ]
                1700000000000) as (_ & Hearly & _); [by_evaluation .. |].
    apply Hearly. vm_compute. reflexivity.
  - destruct (throttle_rule Date_parse_utc (started_then 2000) no_options "sensor" 2000)
      as (_ & _ & Hboundary); [by_evaluation .. |].
    destruct (Hboundary [ ("path", JStr "navigation.speedOverGround"); ("value", JNum 5.1);
                          ("timestamp", JNum 1694458123); ("$source", JStr "gps.0") ]
                1700000000000) as (_ & _ & Hlate); [by_evaluation .. |].
    apply Hlate. vm_compute. reflexivity.
  - destruct (throttle_rule Date_parse_utc (started_then 1999) no_options "sensor" 2000)
      as (_ & Hrule & _); [by_evaluation .. |].
    destruct (Hrule (JStr "navigation.speedOverGround") (JNum 1694458123))
      as (allowed & Heq & Hiff & _); [apply (bool_decide_unpack _); vm_compute; exact I |].
    rewrite Heq. cbn [fst]. f_equal. apply Hiff. by_evaluation.
Defined.



Lemma validity_filter_witness :
  processValueObj Date_parse_utc (JObj (speed_props (JNum 5.1) (JNum 0))) started
    = (Normal tt, started)
  /\ processValueObj Date_parse_utc (JObj (speed_props (JNum 5.1) (JStr ""))) started
     = (Normal tt, started)
  /\ written <$> sockets
       (processValueObj Date_parse_utc (JObj (speed_props JNull (JNum 1694458123)))
          started).2 !! 0%nat
     = Some [ with_quotes "{'path':'navigation.speedOverGround','time':1694458123000,'value':null,'source':'gps.0'}"
              +:+ newline ].
Proof.
  split; [| split].
  - destruct (validity_filter Date_parse_utc started (speed_props (JNum 5.1) (JNum 0)))
      as (_ & _ & _ & Hfalsy & _).
    apply Hfalsy. left. reflexivity.
  - destruct (validity_filter Date_parse_utc started (speed_props (JNum 5.1) (JStr "")))
      as (_ & _ & _ & Hfalsy & _).
    apply Hfalsy. right. reflexivity.
  - destruct (validity_filter Date_parse_utc started (speed_props JNull (JNum 1694458123)))
      as (_ & _ & _ & _ & Hnull).
    destruct Hnull as [_ Hforwarded]; [by_evaluation .. |].
    rewrite (Hforwarded no_options 0%nat sensor_socket) by by_evaluation.
    by_evaluation.
Defined.

Lemma unparseable_timestamp_becomes_NaN_witness :
  written <$> sockets
    (processValueObj Date_parse_utc (JObj (speed_props (JNum 5.1) (JStr "not a date")))
       started).2 !! 0%nat
  = Some [ with_quotes "{'path':'navigation.speedOverGround','time':null,'value':5.1,'source':'gps.0'}"
           +:+ newline ].
Proof.
  destruct (unparseable_timestamp_becomes_NaN Date_parse_utc started
              (speed_props (JNum 5.1) (JStr "not a date")) "not a date")
    as (_ & _ & Hforwarded); [by_evaluation .. |].
  rewrite (Hforwarded no_options 0%nat sensor_socket) by by_evaluation.
  by_evaluation.
Defined.

Lemma write_iff_connection_writable_witness :
  writeToSocket "sensor" speed_record started
    = (Normal tt, delivered 0 sensor_socket (json_line speed_record) started)
  /\ writeToSocket "sensor" speed_record disconnected
     = (Normal tt, skipped "sensor" disconnected)
  /\ (processValueObj Date_parse_utc speed_event disconnected).1 = Normal tt.
Proof.
  split; [| split].
  - destruct (write_iff_connection_writable Date_parse_utc started "sensor" speed_record)
      as (Hdelivers & _).
    apply (Hdelivers 0%nat sensor_socket); by_evaluation.
  - destruct (write_iff_connection_writable Date_parse_utc disconnected "sensor"
                speed_record) as (_ & Hskips & _).
    apply Hskips. right. exists 0%nat, (torn_down true sensor_socket).
    split; [by_evaluation |]. split; [by_evaluation |]. left. reflexivity.
  - destruct (write_iff_connection_writable Date_parse_utc disconnected "sensor"
                speed_record) as (_ & _ & _ & Hreturns).
    apply Hreturns.
Defined.

Lemma json_line_whatever_the_options_witness :
  writeToSocket "sensor" speed_record (set_options (Some fast_options) started)
  = (Normal tt,
     delivered 0 sensor_socket (json_line speed_record)
       (set_options (Some fast_options) started)).
Proof.
  apply (json_line_whatever_the_options Date_parse_utc started (Some fast_options)
           "sensor" speed_record 0%nat sensor_socket); by_evaluation.
Defined.

(** C8, as stated, fails: [serializeData] does produce the pipe-delimited
    line, but under every configuration the chunk written for the record
    of the scenario is its JSON line, which is another text. *)
Lemma pipe_format_is_not_selectable :
  (serializeData Date_parse_utc pipe_record started).1 = Normal (JStr pipe_line)
  /\ (forall opts : option Options,
        written <$> sockets
          (writeToSocket "sensor" speed_record (set_options opts started)).2 !! 0%nat
        = Some [json_line speed_record])
  /\ json_line speed_record <> pipe_line.
Proof.
  split; [by_evaluation |]. split; [| by_evaluation].
  intros opts.
  rewrite (writeToSocket_delivers (set_options opts started) "sensor" speed_record
             0%nat sensor_socket) by by_evaluation.
  reflexivity.
Qed.

Lemma one_reconnect_timer_per_category_witness :
  let st := run_events Date_parse_utc (initial readings) reconnecting in
  pending st 0 "sensor"
  /\ timeouts (step Date_parse_utc st (SocketClose 3 true)) = timeouts st
  /\ (forall id category, ~ pending (step Date_parse_utc st Stop) id category)
  /\ length (sockets (run_events Date_parse_utc (step Date_parse_utc st Stop)
                        [TimeoutFires 0; Start None; SocketClose 1 false]))
     = length (sockets (step Date_parse_utc st Stop)).
Proof.
  intros st.
  destruct (one_reconnect_timer_per_category Date_parse_utc readings reconnecting)
    as (_ & Hclose & Hstop & Hafter).
  fold st in Hclose, Hstop, Hafter.
  assert (Hpending : pending st 0 "sensor") by by_evaluation.
  split; [exact Hpending |].
  split.
  - destruct (Hclose "sensor" 0%nat Hpending) as [_ Hsame].
    apply (Hsame 3%nat {| sock_category := "sensor";
                          sock_path := "/tmp/signalk_sensors.sock";
                          destroyed := false; writable := true; closed := false;
                          written := [] |}); by_evaluation.
  - split; [exact Hstop |]. apply Hafter.
Defined.

(* ===================================================================== *)
(** * More about the classifier *)
(* ===================================================================== *)

(** The two loops of [categorizeData], as one cascade. *)
Lemma categorizeData_cascade (path : JsValue) :
  categorizeData path =
    if some_pattern_matches dump_patterns path then "dump"
    else if some_pattern_matches state_patterns path then "state"
    else if some_pattern_matches position_patterns path then "position"
    else if some_pattern_matches sensor_patterns path then "sensor"
    else "dump".
Proof.
  unfold categorizeData.
  destruct (some_pattern_matches dump_patterns path); [reflexivity |].
  unfold CATEGORY_PATTERNS, first_matching_category.
  change (String.eqb "dump" "dump") with true.
  change (String.eqb "state" "dump") with false.
  change (String.eqb "position" "dump") with false.
  change (String.eqb "sensor" "dump") with false.
  cbv iota.
  destruct (some_pattern_matches state_patterns path); [reflexivity |].
  destruct (some_pattern_matches position_patterns path); [reflexivity |].
  destruct (some_pattern_matches sensor_patterns path); reflexivity.
Qed.

Lemma categorizeData_range (path : JsValue) :
  categorizeData path = "dump" \/ categorizeData path = "state"
  \/ categorizeData path = "position" \/ categorizeData path = "sensor".
Proof.
  rewrite categorizeData_cascade.
  destruct (some_pattern_matches dump_patterns path); [auto |].
  destruct (some_pattern_matches state_patterns path); [auto |].
  destruct (some_pattern_matches position_patterns path); [auto |].
  destruct (some_pattern_matches sensor_patterns path); auto.
Qed.

(* ===================================================================== *)
(** * More about the pipeline *)
(* ===================================================================== *)

(** ** Statements that end in one step worth looking at *)
Section Post.

Context {V : Type} (view : State -> V) (P : V -> State -> Prop).

(** [P] holds of a state with the view it is stated from. *)
Hypothesis P_same : forall st st', view st' = view st -> P (view st) st'.

Lemma post_keeps {A : Type} (m : M A) : keeps view m -> post view P m.
Proof. intros Hm st. apply P_same. apply Hm. Qed.

Lemma post_bind {A B : Type} (m : M A) (f : A -> M B) :
  keeps view m -> (forall a, post view P (f a)) -> post view P (m ≫= f).
Proof.
  intros Hm Hf st. unfold mbind, M_bind. specialize (Hm st).
  destruct (m st) as [[a|e] st'] eqn:Hst; cbn in *.
  - rewrite <- Hm. apply Hf.
  - apply P_same. exact Hm.
Qed.

End Post.

Lemma received_status (chunk : string) (sock : Socket) :
  socket_status (received chunk sock) = socket_status sock.
Proof. reflexivity. Qed.

Lemma keeps_control_socket_write (id : nat) (chunk : string) :
  keeps control (socket_write id chunk).
Proof.
  intros st. unfold socket_write, modify, update_socket. cbn.
  destruct (sockets st !! id) as [sock|] eqn:Hsock; [| reflexivity].
  unfold control. cbn. rewrite list_fmap_insert, received_status.
  rewrite list_insert_id; [reflexivity |].
  rewrite list_lookup_fmap, Hsock. reflexivity.
Qed.

Lemma keeps_control_Date_now : keeps control Date_now.
Proof. intros st. reflexivity. Qed.

#[local] Hint Resolve keeps_control_socket_write keeps_control_Date_now : keeps.

Lemma keeps_control_writeToSocket (category : string) (data : JsValue) :
  keeps control (writeToSocket category data).
Proof. unfold writeToSocket, app_debug, app_error. keeps_all. Qed.

#[local] Hint Resolve keeps_control_writeToSocket : keeps.

Lemma keeps_wiring_Date_now : keeps wiring Date_now.
Proof. intros st. reflexivity. Qed.

#[local] Hint Resolve keeps_wiring_Date_now : keeps.

Section Pipeline.

Variable Date_parse : string -> float.

(** X2. Whatever it is given, [processValueObj] leaves the configuration,
    the subscription, the clients, the timers, the shutdown flag, the
    timeouts and the listeners as they are, and every socket what it was:
    a value changes the log, the clock, the throttle map and what a socket
    was given, nothing else. *)
Theorem processValueObj_keeps_control (valueObj : JsValue) :
  keeps control (processValueObj Date_parse valueObj).
Proof.
  unfold processValueObj, classify_and_forward, forward, shouldTransmit,
    plugin_options, timestamp_to_ms, app_debug, app_error.
  keeps_all.
Qed.

(** ** One value, at most one write *)

Lemma routed_same (category : string) (chunks : string -> Prop) (st st' : State) :
  wiring st' = wiring st -> routed category chunks (wiring st) st'.
Proof. intros H. left. injection H as Hs _. exact Hs. Qed.

Lemma writeToSocket_routed (category : string) (data : JsValue) (chunks : string -> Prop) :
  chunks (json_line data) ->
  post wiring (routed category chunks) (writeToSocket category data).
Proof.
  intros Hchunk st.
  destruct (entry (socketClients st) category) as [id|] eqn:Hentry.
  - destruct (sockets st !! id) as [sock|] eqn:Hsock.
    + destruct (destroyed sock) eqn:Hd.
      * rewrite (writeToSocket_skips_unwritable st category data id sock) by auto.
        left. reflexivity.
      * destruct (writable sock) eqn:Hw.
        -- rewrite (writeToSocket_delivers st category data id sock) by assumption.
           right. exists id, sock, (json_line data). cbn. auto 10.
        -- rewrite (writeToSocket_skips_unwritable st category data id sock) by auto.
           left. reflexivity.
    + left. unfold writeToSocket. exec. rewrite Hentry, Hsock. reflexivity.
  - rewrite writeToSocket_skips_missing by exact Hentry. left. reflexivity.
Qed.

Lemma forward_routed (valueObj : JsValue) (category : string) :
  post wiring (routed category (chunks_of valueObj))
    (forward Date_parse valueObj (get valueObj "path") (get valueObj "value")
       (get valueObj "timestamp") category).
Proof.
  unfold forward.
  apply post_bind; [apply routed_same | |].
  { unfold shouldTransmit, plugin_options. keeps_all. }
  intros allowed. destruct allowed; cbn [negb].
  - apply post_bind; [apply routed_same | auto with keeps |].
    intros now. apply post_bind; [apply routed_same | keeps_all |].
    intros _. apply post_bind; [apply routed_same | |].
    { unfold timestamp_to_ms. keeps_all. }
    intros time. apply writeToSocket_routed. exists time. reflexivity.
  - apply post_keeps; [apply routed_same | keeps_all].
Qed.

(** What one value does to the sockets, in whatever state. *)
Lemma processValueObj_routed (st : State) (valueObj : JsValue) :
  routed (categorizeData (get valueObj "path")) (chunks_of valueObj) (wiring st)
    (processValueObj Date_parse valueObj st).2.
Proof.
  unfold processValueObj, try_catch.
  match goal with |- context [match ?body st with _ => _ end] =>
    assert (Hbody : routed (categorizeData (get valueObj "path")) (chunks_of valueObj)
                      (wiring st) (body st).2);
    [| destruct (body st) as [[[]|e] st']; [exact Hbody |];
       destruct Hbody as [Hsame | Hwrite]; [left; exact Hsame | right; exact Hwrite]]
  end.
  destruct valueObj as [| |b|x|s|l|props]; try (left; reflexivity).
  destruct (invalid _ _ _); [left; reflexivity |].
  unfold classify_and_forward.
  destruct (String.eqb _ "dump"); [left; reflexivity |].
  destruct (zero_position _ _); [left; reflexivity |].
  apply forward_routed.
Qed.

(** X1. One value makes at most one write, and to the right place:
    whatever [processValueObj] is given, in whatever state, afterwards the
    sockets are as before, or the client socket of the category of the
    value's path, writable and not destroyed, has been given one chunk
    more, the JSON line of the measurement [{path, time, value, source}]
    of the value, and every other socket is as before. *)
Theorem one_value_one_write (st : State) (valueObj : JsValue) :
  routed (categorizeData (get valueObj "path")) (chunks_of valueObj) (wiring st)
    (processValueObj Date_parse valueObj st).2.
Proof. exact (processValueObj_routed st valueObj). Qed.

(** ** The throttle records *)

(** Without a configuration the throttle check of a real category throws
    at the rate it cannot read; [processValueObj] reports it, and no record
    is made. *)
Lemma forward_without_options (st : State) (valueObj path value timestamp : JsValue)
    (category : string) :
  options st = None ->
  category = "position" \/ category = "sensor" \/ category = "state" ->
  lastTransmissionTimes
    (try_catch (forward Date_parse valueObj path value timestamp category) handler st).2
  = lastTransmissionTimes st.
Proof.
  intros Hnone [-> | [-> | ->]]; unfold forward, shouldTransmit, plugin_options, handler;
    exec; rewrite Hnone; reflexivity.
Qed.

Lemma not_dump_is_real (path : JsValue) :
  String.eqb (categorizeData path) "dump" = false ->
  categorizeData path = "position" \/ categorizeData path = "sensor"
  \/ categorizeData path = "state".
Proof.
  intros Hne. destruct (categorizeData_range path) as [H | [H | [H | H]]]; auto.
  rewrite H in Hne. discriminate.
Qed.

(** X3. Throttle records only grow, and a value touches no record but its
    own: when the interval in force for the value's category is not
    negative and the clock does not run backwards between the two readings
    [processValueObj] takes, every record (0 for a path without one) is
    afterwards at least what it was, and the records of the other paths
    are what they were. *)
Theorem throttle_records_only_grow (st : State) (valueObj : JsValue) :
  (forall opts, options st = Some opts ->
                0 <= interval opts (categorizeData (get valueObj "path"))) ->
  clock st 0%nat <= clock st 1%nat ->
  let st' := (processValueObj Date_parse valueObj st).2 in
  forall key,
    record_of st key <= record_of st' key
    /\ (key <> ToString (get valueObj "path") ->
        lastTransmissionTimes st' !! key = lastTransmissionTimes st !! key).
Proof.
  intros Hinterval Hclock st' key. subst st'.
  assert (Hsame : forall s' : State,
                  lastTransmissionTimes s' = lastTransmissionTimes st ->
                  record_of st key <= record_of s' key
                  /\ (key <> ToString (get valueObj "path") ->
                      lastTransmissionTimes s' !! key = lastTransmissionTimes st !! key)).
  { intros s' H. unfold record_of. rewrite H. split; [lia | reflexivity]. }
  destruct valueObj as [| |b|x|s|l|props];
    try (apply Hsame; reflexivity).
  set (valueObj := JObj props) in *.
  set (path := get valueObj "path") in *.
  destruct (invalid path (get valueObj "value") (get valueObj "timestamp")) eqn:Hinv.
  { apply Hsame. unfold valueObj.
    rewrite processValueObj_invalid by exact Hinv. reflexivity. }
  destruct (String.eqb (categorizeData path) "dump") eqn:Hdump.
  { apply Hsame. unfold valueObj.
    rewrite processValueObj_dump; [reflexivity | exact Hinv |].
    apply String.eqb_eq. exact Hdump. }
  destruct (zero_position (categorizeData path) (get valueObj "value")) eqn:Hzero.
  { apply Hsame. unfold valueObj.
    rewrite processValueObj_zero_position by assumption. reflexivity. }
  unfold valueObj. rewrite processValueObj_forwards by assumption.
  fold valueObj path.
  destruct (options st) as [opts|] eqn:Hopts.
  - specialize (Hinterval opts eq_refl).
    destruct (Z.lt_ge_cases (clock st 0%nat - lastTransmission st path)
                (interval opts (categorizeData path))) as [Hearly | Hlate].
    + pose proof (forward_throttled Date_parse st props opts Hopts Hearly) as Hth.
      fold valueObj path in Hth. apply Hsame. rewrite Hth. reflexivity.
    + pose proof (forward_allowed Date_parse st props opts Hopts Hlate) as Hal.
      fold valueObj path in Hal. rewrite Hal.
      match goal with |- context [writeToSocket ?c ?d ?s] =>
        destruct (writeToSocket_frame s c d) as (_ & Hl & _) end.
      unfold record_of. rewrite Hl. unfold recorded.
      assert (Hrec : forall m : gmap string Z,
                m = lastTransmissionTimes st ->
                default 0 (m !! key)
                  <= default 0 (<[ToString path := clock st 1%nat]> m !! key)
                /\ (key <> ToString path ->
                    <[ToString path := clock st 1%nat]> m !! key = m !! key)).
      { intros m ->. destruct (decide (ToString path = key)) as [<- | Hne].
        - rewrite lookup_insert_eq. split; [| congruence].
          unfold lastTransmission in Hlate.
          change (default 0 (Some (clock st 1%nat))) with (clock st 1%nat). lia.
        - rewrite lookup_insert_ne by exact Hne. split; [lia | reflexivity]. }
      destruct (falls_back (get valueObj "timestamp")); cbn; apply Hrec; reflexivity.
  - apply Hsame. apply forward_without_options; [exact Hopts |].
    apply not_dump_is_real. exact Hdump.
Qed.

(** X4. A value whose path matches no rule of any list is classified as
    dump and discarded on the spot: one debug line that names the path,
    and nothing else, so that it reads no clock, leaves no throttle record
    and reaches no socket. *)
Theorem unclassified_values_are_discarded (st : State) (props : list (string * JsValue)) :
  let valueObj := JObj props in
  let path := get valueObj "path" in
  invalid path (get valueObj "value") (get valueObj "timestamp") = false ->
  unclassified path ->
  categorizeData path = "dump"
  /\ processValueObj Date_parse valueObj st =
       (Normal tt,
        set_log (log st ++ [(debug, "Discarding dump category data for path: "
                                    +:+ ToString path)]) st).
Proof.
  intros valueObj path Hvalid Hnone.
  assert (Hdump : categorizeData path = "dump").
  { rewrite categorizeData_cascade.
    rewrite (Hnone "dump" dump_patterns), (Hnone "state" state_patterns),
      (Hnone "position" position_patterns), (Hnone "sensor" sensor_patterns);
      [reflexivity | ..]; unfold CATEGORY_PATTERNS;
      repeat first [apply list_elem_of_here | apply list_elem_of_further]. }
  split; [exact Hdump |].
  apply processValueObj_dump; assumption.
Qed.

(** X5. An argument that is not an object: [undefined] and [null] make
    the destructuring throw, which [processValueObj] catches and reports
    as one error line; any other primitive or an array has none of the
    three fields and is dropped without a trace.  Nothing else changes,
    and nothing is thrown. *)
Theorem arguments_that_are_no_objects (st : State) (valueObj : JsValue) :
  match valueObj with JObj _ => False | _ => True end ->
  processValueObj Date_parse valueObj st =
    (Normal tt,
     match valueObj with
     | JUndefined | JNull =>
         set_log (log st ++ [(error, "Error processing value object: "
                                     +:+ "Cannot destructure property 'path' of 'valueObj' as it is "
                                     +:+ ToString valueObj +:+ ".")]) st
     | _ => st
     end).
Proof. destruct valueObj; intros H; try contradiction; reflexivity. Qed.


End Pipeline.

(** ** What the events may do to the sockets *)

Section Respects.

Context (R : State -> State -> Prop) `{!PreOrder R}.

Lemma respects_ret {A : Type} (a : A) : respects R (mret a).
Proof. intros st. reflexivity. Qed.

Lemma respects_gets {A : Type} (f : State -> A) : respects R (gets f).
Proof. intros st. reflexivity. Qed.

Lemma respects_throw {A : Type} (e : JsError) : respects R (throw (A := A) e).
Proof. intros st. reflexivity. Qed.

Lemma respects_modify (f : State -> State) :
  (forall st, R st (f st)) -> respects R (modify f).
Proof. intros H st. apply H. Qed.

Lemma respects_bind {A B : Type} (m : M A) (f : A -> M B) :
  respects R m -> (forall a, respects R (f a)) -> respects R (m ≫= f).
Proof.
  intros Hm Hf st. unfold mbind, M_bind. specialize (Hm st).
  destruct (m st) as [[a|e] st1]; cbn in *; [| exact Hm].
  transitivity st1; [exact Hm | apply Hf].
Qed.

Lemma respects_try_catch {A : Type} (body : M A) (h : JsError -> M A) :
  respects R body -> (forall e, respects R (h e)) -> respects R (try_catch body h).
Proof.
  intros Hb Hh st. unfold try_catch. specialize (Hb st).
  destruct (body st) as [[a|e] st1]; cbn in *; [exact Hb |].
  transitivity st1; [exact Hb | apply Hh].
Qed.

Lemma respects_forEach {A : Type} (l : list A) (f : A -> M unit) :
  (forall x, respects R (f x)) -> respects R (forEach l f).
Proof.
  intros Hf. induction l as [|x xs IH]; cbn [forEach].
  - apply respects_ret.
  - apply respects_bind; [apply Hf | intros _; exact IH].
Qed.

End Respects.

Create HintDb respects.

Ltac respects_step :=
  first
    [ solve [auto 1 with respects nocore]
    | match goal with |- PreOrder _ => exact _ end
    | apply respects_ret
    | apply respects_gets
    | apply respects_throw
    | apply respects_bind
    | apply respects_try_catch
    | apply respects_forEach
    | match goal with
      | |- respects _ (if ?b then _ else _) => destruct b
      | |- respects _ (match ?x with _ => _ end) => destruct x
      end
    | progress intros
    | progress cbv zeta ].

Ltac respects_all := repeat respects_step.

(** *** The life of a socket *)

Lemma outlives_refl (sock : Socket) : outlives sock sock.
Proof. unfold outlives. repeat split; auto. Qed.

Lemma outlives_trans (a b c : Socket) : outlives a b -> outlives b c -> outlives a c.
Proof.
  intros (Hc1 & Hp1 & Hd1 & Hcl1 & Hw1 & Hpre1 & Hsame1)
         (Hc2 & Hp2 & Hd2 & Hcl2 & Hw2 & Hpre2 & Hsame2).
  unfold outlives. repeat split; try congruence; auto.
  - etransitivity; eassumption.
  - intros H. rewrite Hsame2, Hsame1; auto. destruct H; [left | right]; auto.
Qed.

#[global] Instance history_preorder : PreOrder history.
Proof.
  split.
  - intros st id old H. exists old. split; [exact H | apply outlives_refl].
  - intros a b c Hab Hbc id old H.
    destruct (Hab id old H) as (mid & Hmid & Hom).
    destruct (Hbc id mid Hmid) as (new & Hnew & Hon).
    exists new. split; [exact Hnew | exact (outlives_trans _ _ _ Hom Hon)].
Qed.

Lemma history_same (st st' : State) : sockets st' = sockets st -> history st st'.
Proof. intros H id old Hold. exists old. rewrite H. split; [exact Hold | apply outlives_refl]. Qed.

Lemma history_update_socket (id : nat) (f : Socket -> Socket) (st : State) :
  (forall sock, sockets st !! id = Some sock -> outlives sock (f sock)) ->
  history st (update_socket id f st).
Proof.
  intros Hf id' old Hold. unfold update_socket.
  destruct (sockets st !! id) as [sock|] eqn:Hsock;
    [| exists old; split; [exact Hold | apply outlives_refl]].
  cbn. destruct (decide (id = id')) as [<- | Hne].
  - exists (f sock). rewrite list_lookup_insert_eq by (eapply lookup_lt_Some; eassumption).
    split; [reflexivity |]. assert (old = sock) as -> by congruence. apply Hf. reflexivity.
  - exists old. rewrite list_lookup_insert_ne by exact Hne.
    split; [exact Hold | apply outlives_refl].
Qed.

Lemma outlives_torn_down (emitted_close : bool) (sock : Socket) :
  outlives sock (torn_down emitted_close sock).
Proof.
  unfold outlives, torn_down. cbn. repeat split; auto.
  intros ->. reflexivity.
Qed.

Lemma outlives_half_closed (sock : Socket) : outlives sock (half_closed sock).
Proof. unfold outlives, half_closed. cbn. repeat split; auto. Qed.

Lemma outlives_received (data : string) (sock : Socket) :
  destroyed sock = false -> writable sock = true ->
  outlives sock (received data sock).
Proof.
  intros Hd Hw. unfold outlives, received. cbn.
  split; [reflexivity |]. split; [reflexivity |]. split; [auto |].
  split; [auto |]. split; [auto |].
  split; [apply prefix_app_r; reflexivity |].
  intros [H | H]; congruence.
Qed.

Lemma history_torn_down (id : nat) (emitted_close : bool) :
  respects history (modify (update_socket id (torn_down emitted_close))).
Proof. intros st. apply history_update_socket. intros. apply outlives_torn_down. Qed.

Lemma history_half_closed (id : nat) :
  respects history (modify (update_socket id half_closed)).
Proof. intros st. apply history_update_socket. intros. apply outlives_half_closed. Qed.

Lemma history_net_createConnection (category : string) (socketPath : JsValue) :
  respects history (net_createConnection category socketPath).
Proof.
  intros st. destruct socketPath; try reflexivity.
  intros id old Hold. exists old. cbn.
  split; [apply lookup_app_l_Some; exact Hold | apply outlives_refl].
Qed.

Lemma history_Date_now : respects history Date_now.
Proof. intros st. apply history_same. reflexivity. Qed.

Lemma history_setTimeout (category : string) (delay : Z) :
  respects history (setTimeout category delay).
Proof. intros st. apply history_same. reflexivity. Qed.

(** The guard of [writeToSocket]: a chunk goes to a socket that is
    neither destroyed nor closed for writing. *)
Lemma history_writeToSocket (category : string) (data : JsValue) :
  respects history (writeToSocket category data).
Proof.
  intros st. unfold writeToSocket. exec.
  destruct (entry (socketClients st) category) as [id|]; [| apply history_same; reflexivity].
  destruct (sockets st !! id) as [sock|] eqn:Hsock; [| apply history_same; reflexivity].
  destruct (destroyed sock) eqn:Hd; [apply history_same; reflexivity |].
  destruct (writable sock) eqn:Hw; [| apply history_same; reflexivity].
  cbn. unfold socket_write. exec.
  transitivity (set_log (log st ++ [(debug, "Writing to socket: "
                   +:+ ToString (JSON_stringify data) +:+ newline)]) st);
    [apply history_same; reflexivity |].
  apply history_update_socket. cbn. intros sock' Hsock'.
  assert (sock' = sock) as -> by congruence.
  apply outlives_received; assumption.
Qed.

#[export] Hint Resolve history_torn_down history_half_closed history_net_createConnection
  history_Date_now history_setTimeout history_writeToSocket : respects.
#[export] Hint Extern 1 (respects history (modify _)) =>
  (apply respects_modify; intros; apply history_same; reflexivity) : respects.

Section Histories.

Variable Date_parse : string -> float.

Lemma history_handle (ev : Event) : respects history (handle Date_parse ev).
Proof.
  destruct ev; unfold handle, plugin_start, plugin_stop, subscribeToDeltas, clear_timers,
    clear_timer, clearTimeout, unsubscribe, close_clients, close_client, socket_destroy,
    processValueObj, classify_and_forward, forward, shouldTransmit, plugin_options,
    timestamp_to_ms, on_connect, on_error, on_close, reconnect, scheduleReconnection,
    connectToSocket, app_debug, app_error;
    respects_all.
Qed.

(** X7. Whatever happens, the sockets only move forward: after any
    sequence of events every socket that was there is still there, under
    the same index, for the same category and path; a socket that was
    destroyed, closed or no longer writable is so still; the chunks it
    was given are still there, in order, before any new ones; and a
    socket that was destroyed or not writable has been given no chunk
    since. *)
Theorem sockets_only_move_forward (st : State) (evs : list Event) :
  history st (run_events Date_parse st evs).
Proof.
  revert st. induction evs as [|ev evs IH]; intros st; [reflexivity |].
  transitivity (step Date_parse st ev); [apply history_handle | apply IH].
Qed.

End Histories.

(** *** After [plugin.stop] *)

#[global] Instance quiet_preorder : PreOrder quiet.
Proof.
  split.
  - intros st H. split; [exact H | reflexivity].
  - intros a b c Hab Hbc Ha. destruct (Hab Ha) as [Hb Htab].
    destruct (Hbc Hb) as [Hc Htbc]. split; [exact Hc | congruence].
Qed.

Lemma quiet_same (st st' : State) :
  isShuttingDown st' = isShuttingDown st ->
  socketClients st' = socketClients st ->
  sockets st' = sockets st ->
  quiet st st'.
Proof.
  intros Hs Hc Hl [Hflag Hnone]. unfold halted, traffic.
  rewrite Hs, Hc, Hl. auto.
Qed.

Lemma traffic_update_socket (id : nat) (f : Socket -> Socket) (st : State) :
  (forall sock, written (f sock) = written sock) ->
  traffic (update_socket id f st) = traffic st.
Proof.
  intros Hf. unfold traffic, update_socket.
  destruct (sockets st !! id) as [sock|] eqn:Hsock; [| reflexivity].
  cbn. rewrite list_fmap_insert, Hf. apply list_insert_id.
  rewrite list_lookup_fmap, Hsock. reflexivity.
Qed.

Lemma update_socket_clients (id : nat) (f : Socket -> Socket) (st : State) :
  isShuttingDown (update_socket id f st) = isShuttingDown st
  /\ socketClients (update_socket id f st) = socketClients st.
Proof. unfold update_socket. destruct (sockets st !! id); split; reflexivity. Qed.

Lemma quiet_update_socket (id : nat) (f : Socket -> Socket) :
  (forall sock, written (f sock) = written sock) ->
  respects quiet (modify (update_socket id f)).
Proof.
  intros Hf st [Hflag Hnone]. cbn.
  destruct (update_socket_clients id f st) as [Hs Hc].
  unfold halted. rewrite Hs, Hc. split; [auto |].
  apply traffic_update_socket. exact Hf.
Qed.

Lemma quiet_torn_down (id : nat) (emitted_close : bool) :
  respects quiet (modify (update_socket id (torn_down emitted_close))).
Proof. apply quiet_update_socket. reflexivity. Qed.

Lemma quiet_half_closed (id : nat) :
  respects quiet (modify (update_socket id half_closed)).
Proof. apply quiet_update_socket. reflexivity. Qed.

Lemma quiet_shutting_down : respects quiet (modify (set_isShuttingDown true)).
Proof. intros st [Hflag Hnone]. split; [split; [reflexivity | exact Hnone] | reflexivity]. Qed.

Lemma quiet_Date_now : respects quiet Date_now.
Proof. intros st. apply quiet_same; reflexivity. Qed.

Lemma quiet_setTimeout (category : string) (delay : Z) :
  respects quiet (setTimeout category delay).
Proof. intros st. apply quiet_same; reflexivity. Qed.

(** While the plugin is shutting down, [connectToSocket] returns at
    once. *)
Lemma quiet_connectToSocket (category : string) : respects quiet (connectToSocket category).
Proof.
  intros st H. rewrite connectToSocket_shutting_down by apply H.
  split; [exact H | reflexivity].
Qed.

Lemma quiet_close_client (category : string) : respects quiet (close_client category).
Proof.
  intros st H. unfold close_client. exec.
  destruct H as [Hflag Hnone]. rewrite (Hnone category). cbn.
  split; [split; assumption | reflexivity].
Qed.

Lemma quiet_writeToSocket (category : string) (data : JsValue) :
  respects quiet (writeToSocket category data).
Proof.
  intros st H. unfold writeToSocket. exec.
  destruct H as [Hflag Hnone]. rewrite (Hnone category). cbn.
  split; [split; assumption | reflexivity].
Qed.

#[export] Hint Resolve quiet_torn_down quiet_half_closed quiet_shutting_down quiet_Date_now
  quiet_setTimeout quiet_connectToSocket quiet_close_client quiet_writeToSocket : respects.
#[export] Hint Extern 1 (respects quiet (modify _)) =>
  (apply respects_modify; intros; apply quiet_same; reflexivity) : respects.

Lemma close_clients_loop (keys : list string) (st : State) :
  let st' := (forEach keys close_client st).2 in
  (forEach keys close_client st).1 = Normal tt
  /\ isShuttingDown st' = isShuttingDown st
  /\ forall k, k ∈ keys \/ entry (socketClients st) k = None ->
               entry (socketClients st') k = None.
Proof.
  revert st. induction keys as [|key keys IH]; intros st; cbn [forEach].
  - cbn. repeat split; auto. intros k [Hin | H]; [inversion Hin | exact H].
  - unfold mbind, M_bind.
    assert (Hone : exists st1,
               close_client key st = (Normal tt, st1)
               /\ isShuttingDown st1 = isShuttingDown st
               /\ forall k, k = key \/ entry (socketClients st) k = None ->
                            entry (socketClients st1) k = None).
    { unfold close_client, socket_destroy. exec.
      destruct (entry (socketClients st) key) as [id|] eqn:He; cbn.
      - eexists. split; [reflexivity |].
        destruct (update_socket_clients id (torn_down false) st) as [Hs Hc].
        cbn. rewrite Hs, Hc. split; [reflexivity |].
        intros k [-> | H]; [apply entry_insert_eq |].
        destruct (decide (key = k)) as [<- | Hne]; [apply entry_insert_eq |].
        rewrite entry_insert_ne by exact Hne. exact H.
      - eexists. split; [reflexivity |]. split; [reflexivity |].
        intros k [-> | H]; assumption. }
    destruct Hone as (st1 & -> & Hs1 & Hnone1).
    destruct (IH st1) as (Hret & Hs & Hnone).
    split; [exact Hret |]. split; [congruence |].
    intros k [Hin | H].
    + apply elem_of_cons in Hin as [-> | Hin]; [| apply Hnone; left; exact Hin].
      apply Hnone. right. apply Hnone1. left. reflexivity.
    + apply Hnone. right. apply Hnone1. right. exact H.
Qed.

Lemma close_clients_closes (st : State) :
  let st' := (close_clients st).2 in
  (close_clients st).1 = Normal tt
  /\ isShuttingDown st' = isShuttingDown st
  /\ forall k, entry (socketClients st') k = None.
Proof.
  unfold close_clients. exec.
  destruct (close_clients_loop (Object_keys (socketClients st)) st) as (Hret & Hs & Hnone).
  split; [exact Hret |]. split; [exact Hs |].
  intros k. apply Hnone.
  destruct (entry (socketClients st) k) as [id|] eqn:He; [| auto].
  left. apply (entry_in_keys _ _ id). exact He.
Qed.

Lemma clear_timers_returns (st : State) :
  (clear_timers st).1 = Normal tt
  /\ isShuttingDown (clear_timers st).2 = isShuttingDown st.
Proof.
  unfold clear_timers. exec.
  generalize (Object_keys (reconnectTimers st)). intros keys.
  revert st. induction keys as [|key keys IH]; intros st; cbn [forEach].
  - split; reflexivity.
  - unfold mbind, M_bind. rewrite clear_timer_eq.
    match goal with |- context [forEach keys clear_timer ?s] =>
      destruct (IH s) as [Hret Hs] end.
    split; [exact Hret |]. rewrite Hs.
    destruct (entry (reconnectTimers st) key); reflexivity.
Qed.

Lemma unsubscribe_returns (st : State) :
  (unsubscribe st).1 = Normal tt
  /\ isShuttingDown (unsubscribe st).2 = isShuttingDown st.
Proof. unfold unsubscribe. exec. destruct (deltaStreamUnsubscribe st); split; reflexivity. Qed.

(** [plugin.stop] leaves the plugin halted, wherever it starts from. *)
Lemma plugin_stop_halts (st : State) : halted (plugin_stop st).2.
Proof.
  unfold plugin_stop.
  erewrite (bind_normal (app_debug _)); [| reflexivity].
  erewrite (bind_normal (modify _)); [| reflexivity].
  set (st1 := set_isShuttingDown true _).
  destruct (clear_timers_returns st1) as [Hret2 Hs2].
  destruct (clear_timers st1) as [[[]|e] st2] eqn:H2; [| discriminate Hret2].
  rewrite (bind_normal clear_timers _ st1 st2 tt H2).
  destruct (unsubscribe_returns st2) as [Hret3 Hs3].
  destruct (unsubscribe st2) as [[[]|e] st3] eqn:H3; [| discriminate Hret3].
  rewrite (bind_normal unsubscribe _ st2 st3 tt H3).
  destruct (close_clients_closes st3) as (Hret4 & Hs4 & Hnone).
  destruct (close_clients st3) as [[[]|e] st4] eqn:H4; [| discriminate Hret4].
  rewrite (bind_normal close_clients _ st3 st4 tt H4).
  cbn [snd] in Hs2, Hs3, Hs4, Hnone.
  split; [| exact Hnone].
  change (isShuttingDown st4 = true). rewrite Hs4, Hs3, Hs2. reflexivity.
Qed.

Section AfterStop.

Variable Date_parse : string -> float.

Lemma quiet_handle (ev : Event) : respects quiet (handle Date_parse ev).
Proof.
  destruct ev; unfold handle, plugin_start, plugin_stop, subscribeToDeltas, clear_timers,
    clear_timer, clearTimeout, unsubscribe, close_clients,
    processValueObj, classify_and_forward, forward, shouldTransmit, plugin_options,
    timestamp_to_ms, on_connect, on_error, on_close, reconnect, scheduleReconnection,
    app_debug, app_error;
    respects_all.
Qed.

(** X8. [plugin.stop] is final.  From whatever state it is called, it
    leaves the plugin shutting down and without a client for any
    category, and so it stays whatever happens afterwards, a new
    [plugin.start] included: no socket is created any more and no socket
    is given another chunk. *)
Theorem nothing_is_written_after_stop (st : State) (evs : list Event) :
  let st' := step Date_parse st Stop in
  let st'' := run_events Date_parse st' evs in
  halted st' /\ halted st'' /\ traffic st'' = traffic st'.
Proof.
  intros st' st''.
  assert (Hhalted : halted st') by apply plugin_stop_halts.
  split; [exact Hhalted |].
  assert (Hquiet : forall evs s, quiet s (run_events Date_parse s evs)).
  { clear. intros evs. induction evs as [|ev evs IH]; intros s; [reflexivity |].
    transitivity (step Date_parse s ev); [apply quiet_handle | apply IH]. }
  apply (Hquiet evs st'). exact Hhalted.
Qed.

End AfterStop.

(** *** Stopping twice *)

Lemma clear_timers_noop (keys : list string) (st : State) :
  (forall k, entry (reconnectTimers st) k = None) ->
  forEach keys clear_timer st = (Normal tt, st).
Proof.
  intros Hnone. induction keys as [|key keys IH]; cbn [forEach]; [reflexivity |].
  unfold mbind, M_bind. rewrite clear_timer_eq, (Hnone key). exact IH.
Qed.

Lemma close_clients_noop (keys : list string) (st : State) :
  (forall k, entry (socketClients st) k = None) ->
  forEach keys close_client st = (Normal tt, st).
Proof.
  intros Hnone. induction keys as [|key keys IH]; cbn [forEach]; [reflexivity |].
  unfold mbind, M_bind.
  assert (close_client key st = (Normal tt, st)) as ->
    by (unfold close_client; exec; rewrite (Hnone key); reflexivity).
  exact IH.
Qed.

Lemma clear_timers_forgets (st : State) :
  let st' := (clear_timers st).2 in
  (clear_timers st).1 = Normal tt
  /\ stop_view st' = stop_view st
  /\ socketClients st' = socketClients st
  /\ forall k, entry (reconnectTimers st') k = None.
Proof.
  unfold clear_timers. exec.
  assert (Hloop : forall keys s,
            let s' := (forEach keys clear_timer s).2 in
            (forEach keys clear_timer s).1 = Normal tt
            /\ stop_view s' = stop_view s
            /\ socketClients s' = socketClients s
            /\ forall k, k ∈ keys \/ entry (reconnectTimers s) k = None ->
                         entry (reconnectTimers s') k = None).
  { clear. intros keys. induction keys as [|key keys IH]; intros s; cbn [forEach].
    - cbn. repeat split; auto. intros k [Hin | H]; [inversion Hin | exact H].
    - unfold mbind, M_bind. rewrite clear_timer_eq.
      set (s1 := match entry (reconnectTimers s) key with
                 | Some id => cancelled id key s
                 | None => s
                 end).
      destruct (IH s1) as (Hret & Hv & Hc & Hnone).
      assert (H1 : stop_view s1 = stop_view s /\ socketClients s1 = socketClients s
                   /\ forall k, k = key \/ entry (reconnectTimers s) k = None ->
                                entry (reconnectTimers s1) k = None).
      { unfold s1. destruct (entry (reconnectTimers s) key) as [id|] eqn:He.
        - split; [reflexivity |]. split; [reflexivity |].
          intros k. apply cancelled_entry_None.
        - split; [reflexivity |]. split; [reflexivity |].
          intros k [-> | H]; assumption. }
      destruct H1 as (Hv1 & Hc1 & Hnone1).
      split; [exact Hret |]. split; [congruence |]. split; [congruence |].
      intros k [Hin | H].
      + apply elem_of_cons in Hin as [-> | Hin]; [| apply Hnone; left; exact Hin].
        apply Hnone. right. apply Hnone1. left. reflexivity.
      + apply Hnone. right. apply Hnone1. right. exact H. }
  destruct (Hloop (Object_keys (reconnectTimers st)) st) as (Hret & Hv & Hc & Hnone).
  split; [exact Hret |]. split; [exact Hv |]. split; [exact Hc |].
  intros k. apply Hnone.
  destruct (entry (reconnectTimers st) k) as [id|] eqn:He; [| auto].
  left. apply (entry_in_keys _ _ id). exact He.
Qed.

Lemma close_clients_keeps :
  keeps (fun st => (stop_view st, reconnectTimers st)) close_clients.
Proof.
  assert (Hu : forall id, keeps (fun st => (stop_view st, reconnectTimers st))
                            (modify (update_socket id (torn_down false)))).
  { intros id st. cbn. unfold update_socket. destruct (sockets st !! id); reflexivity. }
  unfold close_clients, close_client, socket_destroy, app_debug.
  keeps_all.
Qed.

(** [plugin.stop] leaves the plugin at rest, wherever it starts from. *)
Lemma plugin_stop_rests (st : State) : at_rest (plugin_stop st).2.
Proof.
  unfold plugin_stop.
  erewrite (bind_normal (app_debug _)); [| reflexivity].
  erewrite (bind_normal (modify _)); [| reflexivity].
  set (st1 := set_isShuttingDown true _).
  destruct (clear_timers_forgets st1) as (Hret2 & Hv2 & _ & Ht2).
  destruct (clear_timers st1) as [[[]|e] st2] eqn:H2; [| discriminate Hret2].
  rewrite (bind_normal clear_timers _ st1 st2 tt H2).
  cbn [snd] in Hv2, Ht2.
  assert (H3 : exists st3, unsubscribe st2 = (Normal tt, st3)
                 /\ isShuttingDown st3 = isShuttingDown st2
                 /\ deltaStreamUnsubscribe st3 = false
                 /\ reconnectTimers st3 = reconnectTimers st2).
  { unfold unsubscribe. exec. destruct (deltaStreamUnsubscribe st2) eqn:Hu; cbn;
      eexists; (split; [reflexivity |]); cbn; auto. }
  destruct H3 as (st3 & H3 & Hs3 & Hu3 & Ht3).
  rewrite (bind_normal unsubscribe _ st2 st3 tt H3).
  destruct (close_clients_closes st3) as (Hret4 & _ & Hnone).
  pose proof (close_clients_keeps st3) as Hk4.
  destruct (close_clients st3) as [[[]|e] st4] eqn:H4; [| discriminate Hret4].
  rewrite (bind_normal close_clients _ st3 st4 tt H4).
  cbn [snd] in Hnone, Hk4. unfold stop_view in Hk4, Hv2.
  injection Hk4 as Hs4 Hu4 _ Ht4. injection Hv2 as Hs2 _ _.
  unfold at_rest, halted. exec.
  split; [split; [congruence | exact Hnone] |].
  split; [congruence |]. split; [reflexivity |].
  intros k. rewrite Ht4, Ht3. apply Ht2.
Qed.

Lemma plugin_stop_at_rest (st : State) :
  at_rest st ->
  plugin_stop st =
    (Normal tt,
     set_log (log st ++ [(debug, "Stopping SignalK Categorized Data Forwarder plugin");
                         (debug, "SignalK Categorized Data Forwarder plugin stopped")]) st).
Proof.
  intros ((Hs & Hclients) & Hu & Hl & Htimers).
  unfold plugin_stop.
  erewrite (bind_normal (app_debug _)); [| reflexivity].
  erewrite (bind_normal (modify _)); [| reflexivity].
  erewrite (bind_normal clear_timers);
    [| unfold clear_timers; exec; apply clear_timers_noop; exact Htimers].
  erewrite (bind_normal unsubscribe);
    [| unfold unsubscribe; exec; rewrite Hu; reflexivity].
  erewrite (bind_normal close_clients);
    [| unfold close_clients; exec; apply close_clients_noop; exact Hclients].
  exec. f_equal.
  destruct st. cbn in *. subst. rewrite <- app_assoc. reflexivity.
Qed.

(** X9. Stopping twice does no harm.  The first [plugin.stop] leaves
    nothing for a second: no timer remembered, no subscription, no
    client, no throttle record; the second only writes its two log
    lines. *)
Theorem stop_twice (st : State) :
  let st' := (plugin_stop st).2 in
  at_rest st'
  /\ plugin_stop st' =
       (Normal tt,
        set_log (log st' ++ [(debug, "Stopping SignalK Categorized Data Forwarder plugin");
                             (debug, "SignalK Categorized Data Forwarder plugin stopped")])
          st').
Proof.
  intros st'. assert (Hrest : at_rest st') by apply plugin_stop_rests.
  split; [exact Hrest | apply plugin_stop_at_rest; exact Hrest].
Qed.

(** *** Reconnection *)

(** A connection attempt of a running plugin, for a category that has a
    socket path. *)
Lemma connectToSocket_connects (category path : string) (st : State) :
  isShuttingDown st = false ->
  socket_path_of category = JStr path ->
  connectToSocket category st = (Normal tt, connected category path st).
Proof.
  intros Hs Hpath. unfold connectToSocket. exec. rewrite Hs, Hpath. reflexivity.
Qed.

Section Reconnection.

Variable Date_parse : string -> float.

(** A pending timeout fires while the plugin is running. *)
Lemma timeout_reconnects (st : State) (timer : nat) (category path : string) :
  isShuttingDown st = false ->
  pending st timer category ->
  socket_path_of category = JStr path ->
  let st' := step Date_parse st (TimeoutFires timer) in
  timeouts st' = <[timer := None]> (timeouts st)
  /\ reconnectTimers st' = <[category := None]> (reconnectTimers st)
  /\ sockets st' = sockets st ++ [fresh_socket category path]
  /\ socketClients st' = <[category := Some (length (sockets st))]> (socketClients st).
Proof.
  intros Hs Hp Hpath. unfold step, handle. exec. rewrite Hp. exec.
  unfold reconnect, connectToSocket. exec. rewrite Hs. cbn. rewrite Hpath. cbn.
  rewrite ?Hs. repeat split; reflexivity.
Qed.

(** X10. The reconnection cycle.  When a socket closes while the plugin
    is running and remembers no timer for the category of the socket, a
    timeout is armed for the category and nothing else changes but the
    flags of the socket: the category keeps its client.  When that
    timeout fires, the timer is forgotten, a new socket is created for
    the category and made its client; no other socket is touched, and the
    client the category had is not destroyed. *)
Theorem reconnection_cycle (st : State) (id : nat) (sock : Socket) (hadError : bool)
    (path : string) :
  isShuttingDown st = false ->
  sockets st !! id = Some sock ->
  closed sock = false ->
  entry (reconnectTimers st) (sock_category sock) = None ->
  socket_path_of (sock_category sock) = JStr path ->
  let category := sock_category sock in
  let timer := length (timeouts st) in
  let st1 := step Date_parse st (SocketClose id hadError) in
  let st2 := step Date_parse st1 (TimeoutFires timer) in
  (timeouts st1 = timeouts st ++ [Some category]
   /\ reconnectTimers st1 = <[category := Some timer]> (reconnectTimers st)
   /\ sockets st1 = <[id := torn_down true sock]> (sockets st)
   /\ socketClients st1 = socketClients st)
  /\ (timeouts st2 = timeouts st ++ [None]
      /\ reconnectTimers st2 = <[category := None]> (reconnectTimers st1)
      /\ sockets st2 = sockets st1 ++ [fresh_socket category path]
      /\ socketClients st2 = <[category := Some (length (sockets st))]> (socketClients st)).
Proof.
  intros Hs Hsock Hclosed Hnone Hpath category timer st1 st2.
  assert (H1 : st1 = armed category
                 (set_log (log st ++ [(debug, category +:+ " socket connection closed. HadError: "
                                              +:+ (if hadError then "true" else "false"))])
                    (set_sockets (<[id := torn_down true sock]> (sockets st)) st))).
  { unfold st1, step, handle. exec. rewrite Hsock, Hclosed. exec.
    unfold on_close, update_socket. exec. rewrite Hsock.
    change (isShuttingDown (set_sockets _ st)) with (isShuttingDown st).
    rewrite Hs. cbn [negb].
    rewrite scheduleReconnection_arms; [reflexivity | exact Hs | exact Hnone]. }
  assert (Hto : timeouts st1 = timeouts st ++ [Some category]) by (rewrite H1; reflexivity).
  assert (Hti : reconnectTimers st1 = <[category := Some timer]> (reconnectTimers st))
    by (rewrite H1; reflexivity).
  assert (Hso : sockets st1 = <[id := torn_down true sock]> (sockets st))
    by (rewrite H1; reflexivity).
  assert (Hcl : socketClients st1 = socketClients st) by (rewrite H1; reflexivity).
  assert (Hs1 : isShuttingDown st1 = false) by (rewrite H1; exact Hs).
  split; [repeat split; assumption |].
  assert (Hpending : pending st1 timer category).
  { unfold pending. rewrite Hto. apply list_lookup_middle. reflexivity. }
  destruct (timeout_reconnects st1 timer category path Hs1 Hpending Hpath)
    as (Hto2 & Hti2 & Hso2 & Hcl2).
  fold st2 in Hto2, Hti2, Hso2, Hcl2.
  split; [| split; [exact Hti2 | split; [exact Hso2 |]]].
  - rewrite Hto2, Hto. unfold timer. rewrite insert_app_r_alt by reflexivity.
    rewrite Nat.sub_diag. reflexivity.
  - rewrite Hcl2, Hcl, Hso, length_insert. reflexivity.
Qed.

End Reconnection.

(** *** Starting *)

(** X11. [plugin.start] on a plugin that is not shutting down: the
    configuration is the one given, or an empty one; a socket is created
    for each of the three categories, in the order of the configuration,
    and made the client of its category; the value listener is registered
    once more.  On a plugin that is shutting down it creates no socket
    and changes no client, though it subscribes all the same. *)
Theorem start_connects_unless_shutting_down (opts : option Options) (st : State) :
  let st' := (plugin_start opts st).2 in
  let n := length (sockets st) in
  options st' = Some (default no_options opts)
  /\ listeners st' = S (listeners st)
  /\ deltaStreamUnsubscribe st' = true
  /\ if isShuttingDown st
     then sockets st' = sockets st /\ socketClients st' = socketClients st
     else sockets st' = sockets st ++ [fresh_socket "sensor" "/tmp/signalk_sensors.sock";
                                       fresh_socket "position" "/tmp/signalk_position.sock";
                                       fresh_socket "state" "/tmp/signalk_state.sock"]
          /\ socketClients st' = <["state" := Some (2 + n)%nat]>
                                   (<["position" := Some (1 + n)%nat]>
                                      (<["sensor" := Some n]> (socketClients st))).
Proof.
  unfold plugin_start. cbn [forEach fmap list_fmap SOCKET_CONFIG fst].
  erewrite (bind_normal (app_debug _)); [| reflexivity].
  erewrite (bind_normal (modify _)); [| reflexivity].
  destruct (isShuttingDown st) eqn:Hs.
  - erewrite bind_normal.
    2:{ repeat (erewrite (bind_normal (connectToSocket _));
                [| apply connectToSocket_shutting_down; exact Hs]).
        reflexivity. }
    unfold subscribeToDeltas. exec. repeat split; reflexivity.
  - erewrite bind_normal.
    2:{ repeat (erewrite (bind_normal (connectToSocket _));
                [| apply connectToSocket_connects; [exact Hs | reflexivity]]).
        reflexivity. }
    unfold subscribeToDeltas. exec.
    rewrite !length_app. cbn [length]. rewrite <- !app_assoc. cbn [app].
    rewrite !Nat.add_1_r.
    repeat split; reflexivity.
Qed.

(** *** What a socket reports *)

Section Reports.

Variable Date_parse : string -> float.

Lemma keeps_beyond_flags_update (id : nat) (f : Socket -> Socket) :
  (forall sock, sock_category (f sock) = sock_category sock
                /\ written (f sock) = written sock) ->
  keeps beyond_flags (modify (update_socket id f)).
Proof.
  intros Hf st. cbn. unfold beyond_flags.
  rewrite traffic_update_socket by apply Hf.
  unfold update_socket. destruct (sockets st !! id) as [sock|] eqn:Hsock; [| reflexivity].
  cbn. rewrite list_fmap_insert. destruct (Hf sock) as [-> _].
  rewrite list_insert_id by (rewrite list_lookup_fmap, Hsock; reflexivity).
  reflexivity.
Qed.

(** X12. Only the close event leads to a reconnection.  That a socket
    has connected, that it has failed, that the peer has ended the
    connection: each changes the log and the flags of that socket at
    most; no timeout is armed, no client replaced, no socket created. *)
Theorem reports_other_than_close (id : nat) (message : string) :
  keeps beyond_flags (handle Date_parse (SocketConnect id))
  /\ keeps beyond_flags (handle Date_parse (SocketError id message))
  /\ keeps beyond_flags (handle Date_parse (SocketEnd id)).
Proof.
  pose proof (keeps_beyond_flags_update id (torn_down false)
                (fun sock => conj eq_refl eq_refl)) as Htorn.
  pose proof (keeps_beyond_flags_update id half_closed
                (fun sock => conj eq_refl eq_refl)) as Hhalf.
  repeat split; unfold handle, on_connect, on_error, app_debug, app_error; keeps_all.
Qed.

End Reports.

(** *** Clients and their sockets *)

Lemma made_for_outlives (category : string) (old new : Socket) :
  outlives old new -> made_for category old -> made_for category new.
Proof. intros (Hc & Hp & _) [Hcat Hpath]. unfold made_for. rewrite Hc, Hp. auto. Qed.

#[global] Instance rewired_preorder : PreOrder rewired.
Proof.
  split.
  - intros st. split; [reflexivity | auto].
  - intros a b c [Hab Cab] [Hbc Cbc]. split; [etransitivity; eassumption |].
    intros category id Hc. destruct (Cbc category id Hc) as [Hb | Hnew]; [| right; exact Hnew].
    destruct (Cab category id Hb) as [Ha | (sock & Hsock & Hmade)]; [left; exact Ha |].
    right. destruct (Hbc id sock Hsock) as (new & Hnew & Hout).
    exists new. split; [exact Hnew | exact (made_for_outlives _ _ _ Hout Hmade)].
Qed.

Lemma rewired_wired (st st' : State) : rewired st st' -> wired st -> wired st'.
Proof.
  intros [Hh Hc] Hw category id He.
  destruct (Hc category id He) as [Hold | Hnew]; [| exact Hnew].
  destruct (Hw category id Hold) as (sock & Hsock & Hmade).
  destruct (Hh id sock Hsock) as (new & Hnew & Hout).
  exists new. split; [exact Hnew | exact (made_for_outlives _ _ _ Hout Hmade)].
Qed.

Lemma rewired_same (st st' : State) :
  socketClients st' = socketClients st -> history st st' -> rewired st st'.
Proof. intros Hc Hh. split; [exact Hh |]. intros category id. rewrite Hc. auto. Qed.

Lemma rewired_update_socket (id : nat) (f : Socket -> Socket) :
  respects history (modify (update_socket id f)) ->
  respects rewired (modify (update_socket id f)).
Proof.
  intros Hh st. apply rewired_same; [| apply Hh].
  cbn. apply update_socket_clients.
Qed.

Lemma rewired_torn_down (id : nat) (emitted_close : bool) :
  respects rewired (modify (update_socket id (torn_down emitted_close))).
Proof. apply rewired_update_socket, history_torn_down. Qed.

Lemma rewired_half_closed (id : nat) :
  respects rewired (modify (update_socket id half_closed)).
Proof. apply rewired_update_socket, history_half_closed. Qed.

Lemma rewired_Date_now : respects rewired Date_now.
Proof. intros st. apply rewired_same; [reflexivity | apply history_same; reflexivity]. Qed.

Lemma rewired_setTimeout (category : string) (delay : Z) :
  respects rewired (setTimeout category delay).
Proof. intros st. apply rewired_same; [reflexivity | apply history_same; reflexivity]. Qed.

Lemma rewired_writeToSocket (category : string) (data : JsValue) :
  respects rewired (writeToSocket category data).
Proof.
  intros st. apply rewired_same; [| apply history_writeToSocket].
  pose proof (keeps_control_writeToSocket category data st) as Hk.
  unfold control in Hk. injection Hk as _ _ Hc _ _ _ _ _. exact Hc.
Qed.

(** A connection attempt makes the new socket for the category it
    connects. *)
Lemma rewired_connectToSocket (category : string) :
  respects rewired (connectToSocket category).
Proof.
  intros st. destruct (isShuttingDown st) eqn:Hs.
  { rewrite connectToSocket_shutting_down by exact Hs. reflexivity. }
  destruct (socket_path_of category) as [| |b|x|path|elems|props] eqn:Hpath.
  5:{ rewrite (connectToSocket_connects category path) by assumption.
      split.
      - intros id old Hold. exists old. cbn.
        split; [apply lookup_app_l_Some; exact Hold | apply outlives_refl].
      - intros c id. cbn. destruct (decide (category = c)) as [<- | Hne].
        + rewrite entry_insert_eq. intros [= <-]. right.
          exists (fresh_socket category path).
          split; [apply list_lookup_middle; reflexivity |].
          split; [reflexivity | exact Hpath].
        + rewrite entry_insert_ne by exact Hne. auto. }
  all: unfold connectToSocket; exec; rewrite Hs, Hpath; cbn;
    apply rewired_same; [reflexivity | apply history_same; reflexivity].
Qed.

Lemma rewired_forget_client (category : string) :
  respects rewired
    (modify (fun st => set_socketClients (<[category := None]> (socketClients st)) st)).
Proof.
  intros st. split; [apply history_same; reflexivity |].
  intros c id. cbn. destruct (decide (category = c)) as [<- | Hne].
  - unfold entry. rewrite lookup_insert_eq. discriminate.
  - unfold entry. rewrite lookup_insert_ne by exact Hne. auto.
Qed.

#[export] Hint Resolve rewired_torn_down rewired_half_closed rewired_Date_now
  rewired_setTimeout rewired_writeToSocket rewired_connectToSocket rewired_forget_client
  : respects.
#[export] Hint Extern 2 (respects rewired (modify _)) =>
  (apply respects_modify; intros; apply rewired_same;
   [reflexivity | apply history_same; reflexivity]) : respects.

Section Wiring.

Variable Date_parse : string -> float.

Lemma rewired_handle (ev : Event) : respects rewired (handle Date_parse ev).
Proof.
  destruct ev; unfold handle, plugin_start, plugin_stop, subscribeToDeltas, clear_timers,
    clear_timer, clearTimeout, unsubscribe, close_clients, close_client, socket_destroy,
    processValueObj, classify_and_forward, forward, shouldTransmit, plugin_options,
    timestamp_to_ms, on_connect, on_error, on_close, reconnect, scheduleReconnection,
    app_debug, app_error;
    respects_all.
Qed.

Lemma run_events_wired (readings : nat -> Z) (evs : list Event) :
  wired (run_events Date_parse (initial readings) evs).
Proof.
  apply (rewired_wired (initial readings)).
  - generalize (initial readings). induction evs as [|ev evs IH]; intros st; [reflexivity |].
    transitivity (step Date_parse st ev); [apply rewired_handle | apply IH].
  - intros category id H. cbn in H. discriminate H.
Qed.

(** X17. Every value goes to the socket of its own category.  In a state
    the plugin can reach, the client of a category is a socket that was
    created for that category, at the path the configuration gives for
    it; so when processing a value gives a socket a chunk, that socket is
    the one at the path of the category of the value: a sensor value is
    never written to the position or the state socket. *)
Theorem values_reach_the_socket_of_their_category (readings : nat -> Z) (evs : list Event)
    (valueObj : JsValue) :
  let st := run_events Date_parse (initial readings) evs in
  let st' := (processValueObj Date_parse valueObj st).2 in
  wired st
  /\ forall id sock sock',
       sockets st !! id = Some sock ->
       sockets st' !! id = Some sock' ->
       sock' = sock
       \/ made_for (categorizeData (get valueObj "path")) sock
          /\ exists chunk, chunks_of valueObj chunk /\ sock' = received chunk sock.
Proof.
  intros st st'. assert (Hw : wired st) by apply run_events_wired.
  split; [exact Hw |]. intros id sock sock' Hsock Hsock'.
  destruct (processValueObj_routed Date_parse st valueObj)
    as [Hsame | (cid & csock & chunk & Hentry & Hcsock & _ & _ & Hchunk & Hsockets)].
  - left. fold st' in Hsame. rewrite Hsame in Hsock'. cbn in Hsock'. congruence.
  - fold st' in Hsockets. rewrite Hsockets in Hsock'. cbn in Hsock', Hcsock, Hentry.
    destruct (decide (cid = id)) as [-> | Hne].
    + right. rewrite list_lookup_insert_eq in Hsock' by (eapply lookup_lt_Some; eassumption).
      assert (csock = sock) as -> by congruence.
      destruct (Hw _ _ Hentry) as (sock0 & Hsock0 & Hmade).
      assert (sock0 = sock) as -> by congruence.
      split; [exact Hmade |]. exists chunk. split; [exact Hchunk | congruence].
    + left. rewrite list_lookup_insert_ne in Hsock' by exact Hne. congruence.
Qed.

End Wiring.

(** ** More about the classifier: what the patterns accept *)

Lemma run_Seq_cons (r : Regex) (rs : list Regex) (b : bool) (s : string)
    (k : bool -> string -> bool) :
  run (Seq (r :: rs)) b s k = run r b s (fun b' s' => run (Seq rs) b' s' k).
Proof. reflexivity. Qed.

(** A pattern that begins with [^] matches at the start of the input or
    not at all. *)
Lemma search_anchored_later (rs : list Regex) (s : string) :
  search (Seq (Bos :: rs)) false s = false.
Proof. induction s as [|c s IH]; cbn [search]; [reflexivity |]. rewrite IH. reflexivity. Qed.

Lemma test_anchored (rs : list Regex) (v : JsValue) :
  test (anchored rs) v = run (Seq (rs ++ [Eos])) true (ToString v) (fun _ _ => true).
Proof.
  unfold test, anchored. destruct (ToString v) as [|c s]; cbn [search].
  - rewrite orb_false_r. reflexivity.
  - rewrite search_anchored_later, orb_false_r. reflexivity.
Qed.

Lemma run_Lit (lit : string) (b : bool) (s : string) (k : bool -> string -> bool) :
  run (Lit lit) b s k = true <->
  exists rest, s = lit +:+ rest
               /\ k (match lit with EmptyString => b | _ => false end) rest = true.
Proof.
  revert b s. induction lit as [|c lit IH]; intros b s.
  - cbn. split; [intros H; exists s; auto | intros (rest & -> & H); exact H].
  - unfold Lit. cbn [chars]. rewrite run_Seq_cons. fold (Lit lit).
    destruct s as [|d s]; cbn [run one_char].
    + split; [discriminate | intros (rest & H & _); discriminate H].
    + rewrite andb_true_iff, IH. split.
      * intros (Hc & rest & -> & Hk). apply Ascii.eqb_eq in Hc as ->.
        exists rest. split; [reflexivity |]. destruct lit; exact Hk.
      * intros (rest & Heq & Hk). injection Heq as -> ->.
        split; [apply Ascii.eqb_refl |]. exists rest. split; [reflexivity |].
        destruct lit; exact Hk.
Qed.

Lemma run_end (b : bool) (s : string) :
  run (Seq [Eos]) b s (fun _ _ => true) = true <-> s = "".
Proof. destruct s; cbn; split; congruence. Qed.

(** [.*] before the end of the input takes a rest without line
    terminator. *)
Lemma run_any_end (b : bool) (s : string) :
  single_line s = true ->
  run any b s (fun b' s' => run (Seq [Eos]) b' s' (fun _ _ => true)) = true.
Proof.
  revert b. induction s as [|c s IH]; intros b Hs; [reflexivity |].
  cbn [single_line] in Hs. apply andb_true_iff in Hs as [Hc Hs].
  specialize (IH false Hs).
  unfold any in *. cbn [run] in *. cbn [String.length]. cbn [one_char].
  rewrite Hc. cbn [andb].
  assert (Hlt : (String.length s <? S (String.length s))%nat = true)
    by (apply Nat.ltb_lt; lia).
  rewrite Hlt. rewrite IH. reflexivity.
Qed.

Lemma append_empty (s : string) : s +:+ "" = s.
Proof.
  induction s as [|c s IH]; [reflexivity |].
  change (String c (s +:+ "") = String c s). rewrite IH. reflexivity.
Qed.

(** A literal, and nothing else. *)
Lemma test_exactly (lit : string) (v : JsValue) :
  test (anchored [Group (Lit lit)]) v = true <-> ToString v = lit.
Proof.
  rewrite test_anchored. cbn [app]. rewrite run_Seq_cons.
  change (run (Group (Lit lit))) with (run (Lit lit)). rewrite run_Lit.
  split.
  - intros (rest & -> & Hk). apply run_end in Hk as ->. apply append_empty.
  - intros ->. exists "". split; [| apply run_end; reflexivity].
    symmetry. apply append_empty.
Qed.

(** A literal, and whatever follows on the line. *)
Lemma test_prefix (lit rest : string) (v : JsValue) :
  ToString v = lit +:+ rest -> single_line rest = true ->
  test (anchored [Group (Lit lit); any]) v = true.
Proof.
  intros Hv Hrest. rewrite test_anchored. cbn [app]. rewrite run_Seq_cons.
  change (run (Group (Lit lit))) with (run (Lit lit)). apply run_Lit.
  exists rest. split; [exact Hv |].
  rewrite run_Seq_cons. apply run_any_end. exact Hrest.
Qed.

(** X13. The position category is one path: a path is classified as
    position exactly when its string is [navigation.position]. *)
Theorem position_is_one_path (path : JsValue) :
  categorizeData path = "position" <-> ToString path = "navigation.position".
Proof.
  split.
  - rewrite categorizeData_cascade.
    destruct (some_pattern_matches dump_patterns path); [discriminate |].
    destruct (some_pattern_matches state_patterns path); [discriminate |].
    destruct (some_pattern_matches position_patterns path) eqn:Hpos.
    + intros _. apply some_pattern_matches_iff in Hpos as (pattern & Hin & Htest).
      unfold position_patterns in Hin. apply list_elem_of_singleton in Hin as ->.
      apply test_exactly in Htest. exact Htest.
    + destruct (some_pattern_matches sensor_patterns path); discriminate.
  - intros H. rewrite categorizeData_ToString, H. vm_compute. reflexivity.
Qed.

(** X14. The rules that end in [.*] go by the beginning of the path.  A
    path that begins with one of the state prefixes and goes on without
    a line terminator is state, unless a dump rule matches it; one that
    begins with [environment] or [navigation] is dumped only if a dump
    rule matches it. *)
Theorem prefix_rules (path : JsValue) (prefix rest : string) :
  ToString path = prefix +:+ rest ->
  single_line rest = true ->
  (prefix ∈ state_prefixes ->
   categorizeData path
   = if some_pattern_matches dump_patterns path then "dump" else "state")
  /\ (prefix ∈ sensor_prefixes ->
      categorizeData path = "dump" -> some_pattern_matches dump_patterns path = true).
Proof.
  intros Hpath Hrest.
  assert (Hrule : forall patterns,
            anchored [Group (Lit prefix); any] ∈ patterns ->
            some_pattern_matches patterns path = true).
  { intros patterns Hin. apply some_pattern_matches_iff.
    eexists. split; [exact Hin |]. apply (test_prefix prefix rest); assumption. }
  split; intros Hin.
  - rewrite categorizeData_cascade.
    destruct (some_pattern_matches dump_patterns path); [reflexivity |].
    rewrite Hrule; [reflexivity |].
    unfold state_prefixes in Hin. unfold state_patterns.
    repeat (apply elem_of_cons in Hin as [-> | Hin];
            [repeat first [apply list_elem_of_here | apply list_elem_of_further] |]).
    inversion Hin.
  - rewrite categorizeData_cascade.
    destruct (some_pattern_matches dump_patterns path); [reflexivity |].
    destruct (some_pattern_matches state_patterns path); [discriminate |].
    destruct (some_pattern_matches position_patterns path); [discriminate |].
    rewrite Hrule; [discriminate |].
    unfold sensor_prefixes in Hin. unfold sensor_patterns.
    repeat (apply elem_of_cons in Hin as [-> | Hin];
            [repeat first [apply list_elem_of_here | apply list_elem_of_further] |]).
    inversion Hin.
Qed.

(** ** More about the serialization: one record, one line *)

Lemma single_line_app (a b : string) :
  single_line (a +:+ b) = single_line a && single_line b.
Proof.
  induction a as [|c a IH]; [reflexivity |].
  change (negb (is_line_terminator c) && single_line (a +:+ b)
          = negb (is_line_terminator c) && single_line a && single_line b).
  rewrite IH. apply andb_assoc.
Qed.

Lemma single_line_pretty_N_char (d : N) :
  negb (is_line_terminator (pretty_N_char d)) = true.
Proof. unfold pretty_N_char. repeat case_match; reflexivity. Qed.

Lemma single_line_pretty_N_go (x : N) (s : string) :
  single_line s = true -> single_line (pretty_N_go x s) = true.
Proof.
  revert s. induction (N.lt_wf_0 x) as [x _ IH]. intros s Hs.
  destruct (decide (x = 0%N)) as [-> | Hne]; [rewrite pretty_N_go_0; exact Hs |].
  rewrite pretty_N_go_step by lia. apply IH.
  - apply N.div_lt; lia.
  - cbn [single_line]. rewrite single_line_pretty_N_char. exact Hs.
Qed.

Lemma single_line_pretty_N (x : N) : single_line (pretty x) = true.
Proof.
  unfold pretty, pretty_N. destruct (decide (x = 0%N)); [reflexivity |].
  apply single_line_pretty_N_go. reflexivity.
Qed.

Lemma single_line_pretty_Z (z : Z) : single_line (pretty z) = true.
Proof.
  unfold pretty, pretty_Z. destruct z as [|p|p]; [reflexivity | |].
  - apply (single_line_pretty_N (N.pos p)).
  - rewrite single_line_app. apply (single_line_pretty_N (N.pos p)).
Qed.

Lemma single_line_take (n : nat) (s : string) :
  single_line s = true -> single_line (take n s) = true.
Proof.
  revert s. induction n as [|n IH]; intros [|c s]; cbn; try reflexivity.
  intros H. apply andb_true_iff in H as [Hc Hs]. rewrite Hc. apply IH. exact Hs.
Qed.

Lemma single_line_drop (n : nat) (s : string) :
  single_line s = true -> single_line (drop n s) = true.
Proof.
  revert s. induction n as [|n IH]; intros [|c s]; cbn; try (intros H; exact H).
  intros H. apply andb_true_iff in H as [Hc Hs]. apply IH. exact Hs.
Qed.

Lemma single_line_repeat (n : nat) (s : string) :
  single_line s = true -> single_line (repeat_string n s) = true.
Proof.
  intros Hs. induction n as [|n IH]; [reflexivity |].
  cbn [repeat_string]. rewrite single_line_app, Hs, IH. reflexivity.
Qed.

Lemma single_line_digits_string (s k n : Z) : single_line (digits_string s k n) = true.
Proof.
  pose proof (single_line_pretty_Z s) as Hs.
  unfold digits_string.
  repeat match goal with
         | |- context [if ?b then _ else _] => destruct b
         end;
    rewrite ?single_line_app, ?single_line_take, ?single_line_drop, ?single_line_repeat,
      ?single_line_pretty_Z by (first [exact Hs | reflexivity]);
    reflexivity.
Qed.

Lemma single_line_Number_toString (x : float) : single_line (Number_toString x) = true.
Proof.
  unfold Number_toString. destruct (Prim2SF x) as [sg|sg| |sg m e]; try reflexivity.
  - destruct sg; reflexivity.
  - destruct (shortest m e) as [[s k] n].
    rewrite single_line_app, single_line_digits_string. destruct sg; reflexivity.
Qed.

Lemma single_line_quote_char (c : ascii) : single_line (quote_char c) = true.
Proof. destruct c as [[] [] [] [] [] [] [] []]; vm_compute; reflexivity. Qed.

Lemma single_line_QuoteJSONString (s : string) : single_line (QuoteJSONString s) = true.
Proof.
  unfold QuoteJSONString. rewrite !single_line_app.
  assert (single_line (quote_chars s) = true) as ->; [| reflexivity].
  induction s as [|c s IH]; [reflexivity |].
  cbn [quote_chars]. rewrite single_line_app, single_line_quote_char, IH. reflexivity.
Qed.

Lemma single_line_join (sep : string) (l : list string) :
  single_line sep = true ->
  Forall (fun s => single_line s = true) l ->
  single_line (join sep l) = true.
Proof.
  intros Hsep Hl. destruct Hl as [|x xs Hx Hxs]; [reflexivity |].
  cbn [join]. revert x Hx. induction Hxs as [|y ys Hy Hys IH]; intros x Hx; [exact Hx |].
  cbn [foldl]. apply IH. rewrite !single_line_app, Hx, Hsep, Hy. reflexivity.
Qed.

(** The JSON text of a value has no line terminator in it: those of its
    strings are escaped. *)
Lemma single_line_SerializeJSONProperty (v : JsValue) (text : string) :
  SerializeJSONProperty v = Some text -> single_line text = true.
Proof.
  revert v text. fix IH 1. intros [| |b|x|s|elems|props] text; cbn [SerializeJSONProperty].
  - discriminate.
  - intros [= <-]. reflexivity.
  - intros [= <-]. destruct b; reflexivity.
  - intros [= <-]. destruct (_ || _); [reflexivity | apply single_line_Number_toString].
  - intros [= <-]. apply single_line_QuoteJSONString.
  - intros [= <-]. rewrite !single_line_app. cbn [single_line andb].
    rewrite single_line_join; [reflexivity | reflexivity |].
    induction elems as [|e elems IHelems]; [constructor |].
    cbn [map]. constructor; [| exact IHelems].
    destruct (SerializeJSONProperty e) as [t|] eqn:He; [| reflexivity].
    exact (IH e t He).
  - intros [= <-]. rewrite !single_line_app. cbn [single_line andb].
    rewrite single_line_join; [reflexivity | reflexivity |].
    induction props as [|[key e] props IHprops]; [constructor |].
    cbn [omap list_omap]. cbn [snd fst].
    destruct (SerializeJSONProperty e) as [t|] eqn:He; [| exact IHprops].
    constructor; [| exact IHprops].
    rewrite !single_line_app, single_line_QuoteJSONString, (IH e t He). reflexivity.
Qed.

(** X15. One record, one line.  The chunk written for a record, whatever
    the record, is a text without line feed or carriage return, followed
    by one line feed: the reader of the socket can split the stream at
    the line feeds. *)
Theorem one_record_one_line (data : JsValue) :
  exists body, json_line data = body +:+ newline /\ single_line body = true.
Proof.
  exists (ToString (JSON_stringify data)). split; [reflexivity |].
  unfold JSON_stringify.
  destruct (SerializeJSONProperty data) as [text|] eqn:H; [| reflexivity].
  exact (single_line_SerializeJSONProperty data text H).
Qed.

(** ** The pipe-delimited serializer *)

Lemma line_of_fields (a b c d e f g : string) :
  a +:+ b +:+ c +:+ d +:+ e +:+ f +:+ g +:+ newline
  = (a +:+ b +:+ c +:+ d +:+ e +:+ f +:+ g) +:+ newline.
Proof. rewrite !append_assoc. reflexivity. Qed.

Section Serializer.

Variable Date_parse : string -> float.


End Serializer.

(** ** The further properties on the scenarios *)

Lemma throttle_records_only_grow_witness :
  record_of started "navigation.speedOverGround"
  <= record_of (processValueObj Date_parse_utc speed_event started).2
       "navigation.speedOverGround".
Proof.
  assert (Hinterval : forall opts, options started = Some opts ->
            0 <= interval opts (categorizeData (get speed_event "path"))).
  { intros opts Hopts. vm_compute in Hopts. injection Hopts as <-. by_evaluation. }
  assert (Hclock : clock started 0%nat <= clock started 1%nat) by by_evaluation.
  destruct (throttle_records_only_grow Date_parse_utc started speed_event Hinterval Hclock
              "navigation.speedOverGround") as [Hle _].
  exact Hle.
Defined.

Lemma unclassified_values_are_discarded_witness :
  categorizeData (get (JObj revolutions_props) "path") = "dump"
  /\ processValueObj Date_parse_utc (JObj revolutions_props) started =
       (Normal tt,
        set_log (log started ++ [(debug, "Discarding dump category data for path: "
                                         +:+ ToString (get (JObj revolutions_props) "path"))])
          started).
Proof.
  apply (unclassified_values_are_discarded Date_parse_utc started revolutions_props).
  - by_evaluation.
  - intros category patterns Hin. unfold CATEGORY_PATTERNS in Hin.
    repeat (apply elem_of_cons in Hin as [Heq | Hin];
            [injection Heq as -> ->; vm_compute; reflexivity |]).
    inversion Hin.
Defined.

Lemma arguments_that_are_no_objects_witness :
  processValueObj Date_parse_utc JNull started =
    (Normal tt,
     set_log (log started ++ [(error, "Error processing value object: "
                                      +:+ "Cannot destructure property 'path' of 'valueObj' as it is "
                                      +:+ ToString JNull +:+ ".")]) started).
Proof. exact (arguments_that_are_no_objects Date_parse_utc started JNull I). Defined.


Lemma reconnection_cycle_witness :
  socketClients (step Date_parse_utc (step Date_parse_utc started (SocketClose 0 false))
                   (TimeoutFires (length (timeouts started))))
  = <[sock_category sensor_socket := Some (length (sockets started))]>
      (socketClients started).
Proof.
  destruct (reconnection_cycle Date_parse_utc started 0%nat sensor_socket false
              "/tmp/signalk_sensors.sock") as (_ & _ & _ & _ & Hclients);
    [by_evaluation .. |].
  exact Hclients.
Defined.

Lemma prefix_rules_witness :
  categorizeData rudder_path
  = if some_pattern_matches dump_patterns rudder_path then "dump" else "state".
Proof.
  destruct (prefix_rules rudder_path "steering" ".rudderAngle") as [Hstate _];
    [by_evaluation .. |].
  apply Hstate. unfold state_prefixes.
  repeat first [apply list_elem_of_here | apply list_elem_of_further].
Defined.

(* ===================================================================== *)
(** * Properties of the single-socket forwarder *)
(* ===================================================================== *)

Ltac legacy_exec :=
  repeat (progress (unfold mbind, Legacy.L_bind, mret, Legacy.L_ret, Legacy.gets,
                    Legacy.modify, Legacy.throw, Legacy.try_catch, Legacy.app_debug,
                    Legacy.app_error; cbn)).

Lemma legacy_fed_nil (sock : Socket) : Legacy.fed [] sock = sock.
Proof. destruct sock. unfold Legacy.fed. cbn. rewrite app_nil_r. reflexivity. Qed.

Lemma legacy_fed_cons (chunk : string) (chunks : list string) (sock : Socket) :
  Legacy.fed chunks (received chunk sock) = Legacy.fed (chunk :: chunks) sock.
Proof. unfold Legacy.fed, received. cbn. rewrite <- app_assoc. reflexivity. Qed.

Lemma legacy_fed_app (a b : list string) (sock : Socket) :
  Legacy.fed b (Legacy.fed a sock) = Legacy.fed (a ++ b) sock.
Proof. unfold Legacy.fed. cbn. rewrite <- app_assoc. reflexivity. Qed.

Lemma legacy_connected_fed (id : nat) (sock : Socket) (st st' : Legacy.State)
    (chunks : list string) :
  Legacy.connected_to id sock st ->
  Legacy.socketClient st' = Legacy.socketClient st ->
  Legacy.sockets st' = <[id := Legacy.fed chunks sock]> (Legacy.sockets st) ->
  Legacy.connected_to id (Legacy.fed chunks sock) st'.
Proof.
  intros (Hc & Hsock & Hd & Hw) Hc' Hs'. unfold Legacy.connected_to.
  rewrite Hc', Hs'. split; [exact Hc |].
  split; [apply list_lookup_insert_eq; eapply lookup_lt_Some; exact Hsock |].
  split; assumption.
Qed.

(** A write on an open connection. *)
Lemma legacy_writeToSocket_delivers (st : Legacy.State) (data : JsValue) (id : nat)
    (sock : Socket) :
  Legacy.connected_to id sock st ->
  let st' := (Legacy.writeToSocket data st).2 in
  (Legacy.writeToSocket data st).1 = Normal tt
  /\ Legacy.socketClient st' = Legacy.socketClient st
  /\ Legacy.sockets st' = <[id := received (json_line data) sock]> (Legacy.sockets st).
Proof.
  intros (Hc & Hsock & Hd & Hw). unfold Legacy.writeToSocket, Legacy.socket_write.
  legacy_exec. rewrite Hc. cbn. rewrite Hsock, Hd, Hw. cbn. rewrite Hsock. cbn. auto.
Qed.

Lemma legacy_transformValue_eq (st : Legacy.State) (valueObj timestamp source : JsValue) :
  Legacy.transformValue valueObj timestamp source st =
    (Normal (if Legacy.accepted valueObj
             then Legacy.transformed timestamp source valueObj else JNull),
     Legacy.set_log (Legacy.log st ++ [(debug, "Transforming value: "
                                               +:+ ToString (JSON_stringify valueObj))]) st).
Proof.
  unfold Legacy.transformValue, Legacy.accepted. legacy_exec.
  destruct (ToBoolean valueObj); [| reflexivity].
  destruct (ToBoolean (get valueObj "path")); [| reflexivity].
  destruct (Legacy.is_undefined (get valueObj "value")); reflexivity.
Qed.

Lemma legacy_bind_normal {A B : Type} (m : Legacy.L A) (f : A -> Legacy.L B)
    (st st1 : Legacy.State) (a : A) :
  m st = (Normal a, st1) -> (m ≫= f) st = f a st1.
Proof. intros H. unfold mbind, Legacy.L_bind. rewrite H. reflexivity. Qed.

(** One element of [update.values] on an open connection. *)
Lemma legacy_forward_value_feeds (timestamp source valueObj : JsValue) (id : nat)
    (sock : Socket) (st : Legacy.State) :
  Legacy.connected_to id sock st ->
  exists st',
    Legacy.forward_value timestamp source valueObj st = (Normal tt, st')
    /\ Legacy.socketClient st' = Legacy.socketClient st
    /\ Legacy.sockets st' =
         <[id := Legacy.fed (if Legacy.accepted valueObj
                             then [json_line (Legacy.transformed timestamp source valueObj)]
                             else []) sock]> (Legacy.sockets st).
Proof.
  intros Hconn. unfold Legacy.forward_value.
  rewrite (legacy_bind_normal _ _ st _ _ (legacy_transformValue_eq st valueObj timestamp source)).
  set (st1 := Legacy.set_log _ st).
  assert (Hconn1 : Legacy.connected_to id sock st1) by exact Hconn.
  destruct (Legacy.accepted valueObj).
  - change (ToBoolean (Legacy.transformed timestamp source valueObj)) with true. cbv iota.
    destruct (legacy_writeToSocket_delivers st1
                (Legacy.transformed timestamp source valueObj) id sock Hconn1)
      as (Hret & Hc2 & Hs2).
    destruct (Legacy.writeToSocket _ st1) as [[[]|e] st2]; [| discriminate Hret].
    exists st2. split; [reflexivity |]. split; [exact Hc2 |].
    cbn [snd] in Hs2. rewrite Hs2. rewrite <- legacy_fed_cons, legacy_fed_nil. reflexivity.
  - change (ToBoolean JNull) with false. cbv iota.
    exists st1. split; [reflexivity |]. split; [reflexivity |].
    rewrite legacy_fed_nil. symmetry. apply list_insert_id. apply Hconn.
Qed.

(** The loop of [processUpdate] on an open connection. *)
Lemma legacy_values_loop (timestamp source : JsValue) (values : list JsValue) (id : nat) :
  forall (sock : Socket) (st : Legacy.State),
    Legacy.connected_to id sock st ->
    exists st',
      Legacy.forEach values (Legacy.forward_value timestamp source) st = (Normal tt, st')
      /\ Legacy.socketClient st' = Legacy.socketClient st
      /\ Legacy.sockets st' =
           <[id := Legacy.fed
                     (map (fun v => json_line (Legacy.transformed timestamp source v))
                        (filter (fun v => Legacy.accepted v = true) values)) sock]>
             (Legacy.sockets st).
Proof.
  induction values as [|v values IH]; intros sock st Hconn.
  - exists st. split; [reflexivity |]. split; [reflexivity |].
    cbn. rewrite legacy_fed_nil. symmetry. apply list_insert_id. apply Hconn.
  - destruct (legacy_forward_value_feeds timestamp source v id sock st Hconn)
      as (st1 & Hone & Hc1 & Hs1).
    destruct (IH _ st1 (legacy_connected_fed id sock st st1 _ Hconn Hc1 Hs1))
      as (st2 & Hrest & Hc2 & Hs2).
    exists st2. cbn [Legacy.forEach].
    rewrite (legacy_bind_normal _ _ st st1 tt Hone).
    split; [exact Hrest |]. split; [congruence |].
    rewrite Hs2, Hs1, list_insert_insert_eq, legacy_fed_app, filter_cons.
    destruct (Legacy.accepted v) eqn:Hacc.
    + destruct (decide (true = true)) as [_ | Hno]; [reflexivity | congruence].
    + destruct (decide (false = true)) as [Hyes | _]; [congruence | reflexivity].
Qed.

(** One update on an open connection, whatever the update is. *)
Lemma legacy_processUpdate_feeds (st : Legacy.State) (update : JsValue) (id : nat)
    (sock : Socket) :
  Legacy.connected_to id sock st ->
  exists st',
    Legacy.processUpdate update st = (Normal tt, st')
    /\ Legacy.socketClient st' = Legacy.socketClient st
    /\ Legacy.sockets st' = <[id := Legacy.fed (Legacy.lines_of update) sock]> (Legacy.sockets st).
Proof.
  intros Hconn. unfold Legacy.processUpdate.
  erewrite (legacy_bind_normal (Legacy.app_debug _)); [| reflexivity].
  set (st1 := Legacy.set_log _ st).
  assert (Hconn1 : Legacy.connected_to id sock st1) by exact Hconn.
  assert (Hnone : Legacy.lines_of update = [] ->
                  Legacy.sockets st1
                  = <[id := Legacy.fed (Legacy.lines_of update) sock]> (Legacy.sockets st)).
  { intros ->. rewrite legacy_fed_nil. symmetry. apply list_insert_id. apply Hconn. }
  unfold Legacy.try_catch.
  destruct (ToBoolean update) eqn:Htruthy; cbn [negb orb].
  2:{ exists st1. split; [reflexivity |]. split; [reflexivity |]. apply Hnone.
      unfold Legacy.lines_of. destruct update; try discriminate Htruthy; reflexivity. }
  destruct (get update "values") as [| |b|x|s|values|props] eqn:Hvalues.
  6:{ change (ToBoolean (JArr values)) with true.
      cbn [negb orb Legacy.isArray Legacy.elements].
      destruct (legacy_values_loop (get update "timestamp")
                  (Legacy.extractSourceLabel (get update "source")) values id sock st1 Hconn1)
        as (st2 & Hloop & Hc & Hs).
      rewrite Hloop. exists st2. split; [reflexivity |]. split; [exact Hc |].
      unfold Legacy.lines_of. rewrite Hvalues. exact Hs. }
  all: exists st1; split;
    [match goal with |- context [ToBoolean ?v] => destruct (ToBoolean v) end; reflexivity |];
    split; [reflexivity |]; apply Hnone; unfold Legacy.lines_of; rewrite Hvalues; reflexivity.
Qed.

(** The loop of [processDelta] on an open connection. *)
Lemma legacy_updates_loop (updates : list JsValue) (id : nat) :
  forall (sock : Socket) (st : Legacy.State),
    Legacy.connected_to id sock st ->
    exists st',
      Legacy.forEach updates Legacy.processUpdate st = (Normal tt, st')
      /\ Legacy.socketClient st' = Legacy.socketClient st
      /\ Legacy.sockets st' =
           <[id := Legacy.fed (concat (map Legacy.lines_of updates)) sock]> (Legacy.sockets st).
Proof.
  induction updates as [|update updates IH]; intros sock st Hconn.
  - exists st. split; [reflexivity |]. split; [reflexivity |].
    cbn. rewrite legacy_fed_nil. symmetry. apply list_insert_id. apply Hconn.
  - destruct (legacy_processUpdate_feeds st update id sock Hconn) as (st1 & Hone & Hc1 & Hs1).
    destruct (IH _ st1 (legacy_connected_fed id sock st st1 _ Hconn Hc1 Hs1))
      as (st2 & Hrest & Hc2 & Hs2).
    exists st2. cbn [Legacy.forEach].
    rewrite (legacy_bind_normal _ _ st st1 tt Hone).
    split; [exact Hrest |]. split; [congruence |].
    rewrite Hs2, Hs1, list_insert_insert_eq, legacy_fed_app. reflexivity.
Qed.

(** X18. The source label is never empty: whatever the source of an
    update is, [extractSourceLabel] returns something truthy, so that the
    records of the update carry a source. *)
Theorem source_label_is_truthy (source : JsValue) :
  ToBoolean (Legacy.extractSourceLabel source) = true.
Proof.
  unfold Legacy.extractSourceLabel.
  destruct (ToBoolean source); [| reflexivity]. cbn [negb].
  destruct (ToBoolean (get source "label")) eqn:Hlabel; cbn [andb].
  - destruct (ToBoolean (get source "src")); [| exact Hlabel].
    cbn [ToBoolean]. destruct (ToString (get source "label")); reflexivity.
  - destruct (ToBoolean (get source "type")) eqn:Htype; [exact Htype | reflexivity].
Qed.




